(** * kcat / flux relationship pipeline: a shallow embedding

    The development follows the three stages of the repository:

    - [medium/carbon_uptake.py], [medium/minimal_media.py]: stochastic
      discovery of minimal media under a growth oracle;
    - [flux/flux_prediction.py], [flux/process_fluxes.py]: flux prediction
      per medium, normalisation and merge of the pfba and fva tables;
    - [kcat_flux_mapping/mapping.py]: tiered mapping of kcat records onto
      the fluxes.

    Numbers.  Python floats and ints are embedded as exact rationals [Q];
    a missing value (numpy [nan]) is [None].  Where the code rounds
    ([round(x, 2)] in [normalize_carbon]) the double of the number decides,
    as it does in Python.  A medium and the like are
    [gmap string Q]; a dictionary whose order of keys matters is the list of
    its items; data frames are lists of rows (or of columns, for the frames
    of per-medium fluxes), since row order and repeated labels matter for
    them.

    Effects.  The cobra model is a shared mutable object and the [random]
    module a global generator: both are threaded through a state monad with
    exceptions ([M]).  cobra itself (bounds, medium getter and setter, the
    solver calls) is external to the repository and enters as the interface
    [Cobra]. *)

From Stdlib Require Import QArith Qabs Qminmax Qpower Lqa ZArith Lia.
From Stdlib Require Import Permutation Ascii.
From stdpp Require Import gmap strings list fin_maps.

Set Default Proof Using "Type".

(* ===================================================================== *)
(** * Part I: definitions *)
(* ===================================================================== *)

(** ** Python values and exceptions *)

Inductive exn : Type :=
  | KeyError
  | ZeroDivisionError
  | ValueError
  | Infeasible
  | OptimizationError.

Global Instance exn_eq_dec : EqDecision exn.
Proof. solve_decision. Defined.

(** The result of running a piece of Python: a value, an exception, or no
    result within the given number of loop iterations ([Diverge], only
    produced by the fuel of a [while True]). *)
Inductive Outcome (A : Type) : Type :=
  | Ok (a : A)
  | Raise (e : exn)
  | Diverge.
Global Arguments Ok {A} a.
Global Arguments Raise {A} e.
Global Arguments Diverge {A}.

Definition outcome_bind {A B} (o : Outcome A) (k : A → Outcome B) : Outcome B :=
  match o with
  | Ok a => k a
  | Raise e => Raise e
  | Diverge => Diverge
  end.

(** [d[k]] on a dictionary given as a list of items. *)
Fixpoint dict_get {V} (d : list (string * V)) (k : string) : Outcome V :=
  match d with
  | [] => Raise KeyError
  | (k', v) :: d' => if decide (k' = k) then Ok v else dict_get d' k
  end.

(** ** Numbers *)

Definition Qltb (x y : Q) : bool := negb (Qle_bool y x).

(** [x > 0.1] where [x] may be [nan]: every comparison with [nan] is
    [False]. *)
Definition threshold : Q := (1 # 10)%Q.
Definition sustains_growth (growth_rate : option Q) : bool :=
  match growth_rate with
  | Some g => Qltb threshold g
  | None => false
  end.

(** Rounding to the nearest integer, ties to the even neighbour. *)
Definition round_half_even (q : Q) : Z :=
  let n := Qnum q in
  let d := Z.pos (Qden q) in
  let fl := (n / d)%Z in
  match (2 * (n mod d) ?= d)%Z with
  | Lt => fl
  | Gt => (fl + 1)%Z
  | Eq => if Z.even fl then fl else (fl + 1)%Z
  end.

(** The double nearest to a rational, as a rational: 53 significant bits,
    ties to the even significand.  This is what a float operation returns
    for an exact result [x].  The exponent is left unbounded: the numbers
    of the pipeline are far from the subnormal and the overflow range. *)
Definition binary64 (x : Q) : Q :=
  if Qeq_bool x 0 then 0%Q
  else
    let l := (Z.log2 (Z.abs (Qnum x)) - Z.log2 (Z.pos (Qden x)))%Z in
    let e := if Qle_bool (2 ^ l) (Qabs x) then (l - 52)%Z else (l - 53)%Z in
    let m := round_half_even (Qabs x / 2 ^ e) in
    (inject_Z (Z.sgn (Qnum x) * m) * 2 ^ e)%Q.

(** Python's [round(a / b, 2)] for the exact quotient [x] of [a] and [b].
    The division gives the double nearest to [x], and [round] rounds the
    exact value of that double to two decimals, ties to even: a quotient
    like 3/40, whose double lies below 0.075, goes to 0.07.  The double
    [round] returns is the one nearest to the decimal and is identified
    with it, as floats are with rationals throughout. *)
Definition round2 (x : Q) : Q :=
  (round_half_even (binary64 x * 100) # 100)%Q.

(** Python's [sum(xs)]: a left fold from [0]. *)
Definition py_sum (xs : list Q) : Q := fold_left Qplus xs 0%Q.

(** [a / b] on Python numbers. *)
Definition py_div (a b : Q) : Outcome Q :=
  if Qeq_bool b 0 then Raise ZeroDivisionError else Ok (a / b)%Q.

(** ** medium/carbon_uptake.py: pure part *)

Abbreviation Medium := (gmap string Q).

Definition keys {V} (d : gmap string V) : list string := (map_to_list d).*1.
Definition values {V} (d : gmap string V) : list V := (map_to_list d).*2.

(** [for k in ks: d[k] = v] *)
Definition assign_all (ks : list string) (v : Q) (d : Medium) : Medium :=
  fold_left (λ d k, <[k := v]> d) ks d.

(** [{k: v for (k, v) in rand_c.items() if k in medium}] *)
Definition chosen_in (medium rand_c : Medium) : Medium :=
  filter (λ kv, is_Some (medium !! kv.1)) rand_c.

(** [normalize_carbon(medium, rand_c, total_c_bound)].  [rand_c] maps the
    chosen carbon sources to their carbon-atom counts. *)
Definition normalize_carbon (medium rand_c : Medium) (total_c_bound : Q)
    : Outcome Medium :=
  let c_sources := chosen_in medium rand_c in
  match map_to_list c_sources with
  | [] => Ok medium
  | _ =>
      let total_c := py_sum (values c_sources) in
      outcome_bind (py_div total_c_bound total_c) (λ q,
        let c_bound := round2 q in
        Ok (assign_all (keys c_sources) c_bound medium))
  end.

(** [find_c_bound]: [model.medium] is passed as [medium]. *)
Definition find_c_bound_of (medium c_sources : Medium) : Q :=
  (fold_left
    (λ c_bound i,
       match c_sources !! i.1 with
       | Some c => c_bound + c * i.2
       | None => c_bound
       end)%Q
    (map_to_list medium) 0%Q * 2)%Q.



(** ** The [random] module

    The generator state is the sequence of raw draws still to come (an
    exhausted sequence keeps answering [0]); every primitive consumes the
    draws it needs.  Any behaviour of the real generator is the behaviour of
    some sequence. *)

Definition Rng := list nat.

Definition draw (g : Rng) : nat * Rng :=
  match g with
  | [] => (0, [])
  | x :: g' => (x, g')
  end.

(** [k] successive selections without replacement. *)
Fixpoint choose {A} (k : nat) (population : list A) (g : Rng) : list A * Rng :=
  match k with
  | 0 => ([], g)
  | S k' =>
      let '(x, g1) := draw g in
      let i := x mod length population in
      match population !! i with
      | Some a =>
          let '(rest, g2) := choose k' (delete i population) g1 in
          (a :: rest, g2)
      | None => ([], g1)
      end
  end.

(** [random.sample(population, k)] *)
Definition random_sample {A} (population : list A) (k : nat) (g : Rng)
    : Outcome (list A) * Rng :=
  if decide (k ≤ length population) then
    let '(l, g') := choose k population g in (Ok l, g')
  else (Raise ValueError, g).

(** [random.shuffle(l)] *)
Definition random_shuffle {A} (l : list A) (g : Rng) : list A * Rng :=
  choose (length l) l g.

(** [random.random()]: a number in [[0, 1)]. *)
Definition random_random (g : Rng) : Q * Rng :=
  let '(x, g') := draw g in ((Z.of_nat (x mod 1000) # 1000)%Q, g').

(** ** The cobra interface

    What the repository uses of a [cobra.core.Model].  The bounds and the
    medium are mutable state of the model; the solver calls read the model
    and leave its bounds alone.  A solver call either answers or raises
    ([Infeasible] and the like); [slim_optimize] answers [nan] instead of
    raising. *)

Class Cobra (Model : Type) := {
  (** [model.id] *)
  model_id : Model → string;
  (** [model.tolerance] *)
  model_tolerance : Model → Q;
  (** the ids of [model.exchanges], in order *)
  model_exchanges : Model → list string;
  (** [model.medium] (the getter builds a fresh dictionary) *)
  model_medium : Model → Medium;
  (** [model.medium = medium] *)
  model_set_medium : Medium → Model → Outcome Model;
  (** [reaction.lower_bound], [reaction.upper_bound] of an exchange *)
  lower_bound : Model → string → Q;
  upper_bound : Model → string → Q;
  (** [reaction.bounds = (lb, ub)] *)
  set_bounds : string → Q * Q → Model → Outcome Model;
  (** [.elements.get('C')] of the metabolite of an exchange *)
  exchange_carbon : Model → string → option Q;
  (** [model.slim_optimize()] *)
  slim_optimize : Model → option Q;
  (** [pfba(model).fluxes]: one flux per reaction *)
  pfba : Model → Outcome (list (string * Q));
  (** [flux_variability_analysis(model, reaction_list, pfba_factor)]:
      (minimum, maximum) per requested reaction *)
  flux_variability_analysis :
    Model → list string → Q → Outcome (list (string * (Q * Q)));
  (** [find_essential_reactions(model)]: ids of the essential reactions *)
  find_essential_reactions : Model → Outcome (list string);
}.

(** ** The state monad of the pipeline *)

Record World (Model : Type) := mkWorld { w_model : Model; w_rng : Rng }.
Global Arguments mkWorld {Model} _ _.
Global Arguments w_model {Model} _.
Global Arguments w_rng {Model} _.

Definition M (Model A : Type) : Type := World Model → Outcome A * World Model.

Definition ret {Model A} (a : A) : M Model A := λ w, (Ok a, w).

Definition bind {Model A B} (c : M Model A) (k : A → M Model B) : M Model B :=
  λ w, match c w with
       | (Ok a, w') => k a w'
       | (Raise e, w') => (Raise e, w')
       | (Diverge, w') => (Diverge, w')
       end.

Notation "x <- c ;; k" := (bind c (λ x, k))
  (at level 100, c at next level, right associativity).
Notation "c ;;; k" := (bind c (λ _, k))
  (at level 100, right associativity).

(** A pure computation that may raise. *)
Definition lift {Model A} (o : Outcome A) : M Model A := λ w, (o, w).

Definition raise {Model A} (e : exn) : M Model A := lift (Raise e).

(** Read the model. *)
Definition ask {Model A} (f : Model → A) : M Model A :=
  λ w, (Ok (f (w_model w)), w).

(** Call something that reads the model and may raise. *)
Definition call {Model A} (f : Model → Outcome A) : M Model A :=
  λ w, (f (w_model w), w).

(** Mutate the model through one of its setters. *)
Definition update {Model} (f : Model → Outcome Model) : M Model unit :=
  λ w, match f (w_model w) with
       | Ok m' => (Ok tt, mkWorld m' (w_rng w))
       | Raise e => (Raise e, w)
       | Diverge => (Diverge, w)
       end.

(** Use the generator. *)
Definition rand {Model A} (f : Rng → A * Rng) : M Model A :=
  λ w, let '(a, g) := f (w_rng w) in (Ok a, mkWorld (w_model w) g).

Definition rand_try {Model A} (f : Rng → Outcome A * Rng) : M Model A :=
  λ w, let '(o, g) := f (w_rng w) in (o, mkWorld (w_model w) g).

(** [with model: body].  cobra records every change made to the model
    inside the block and undoes them when the block is left, by its end, by
    [break] or by an exception. *)
Definition with_model {Model A} (body : M Model A) : M Model A :=
  λ w, let '(o, w') := body w in (o, mkWorld (w_model w) (w_rng w')).

(** [try: body except cobra.exceptions.Infeasible: handler] *)
Definition try_except_infeasible {Model A} (body handler : M Model A)
    : M Model A :=
  λ w, match body w with
       | (Raise Infeasible, w') => handler w'
       | r => r
       end.

(** [for x in l: acc = body(acc, x)] *)
Fixpoint for_each {Model A B} (l : list A) (acc : B) (body : B → A → M Model B)
    : M Model B :=
  match l with
  | [] => ret acc
  | x :: l' => acc' <- body acc x ;; for_each l' acc' body
  end.

(** A computation leaves the model as it found it, whatever its outcome. *)
Definition frames {Model A} (c : M Model A) : Prop :=
  ∀ w, w_model (c w).2 = w_model w.

(** ** medium/carbon_uptake.py and medium/minimal_media.py *)

(** The baseline carbon sources of [is_carbon_source]. *)
Definition init_c : list (string * list string) :=
  [ ("iJN1463", ["EX_glc__D_e"]);
    ("iIT341", ["EX_ala__D_e"; "EX_ala__L_e"]);
    ("iHN637", ["EX_fru_e"]);
    ("iECO111_1330", ["EX_glc__D_e"]);
    ("iEK1008", ["EX_glyc_e"; "EX_cit_e"; "EX_etoh_e"; "EX_asn__L_e"]);
    ("iSbBS512_1146", ["EX_glc__D_e"]) ].

(** Python truthiness of [elements.get('C')]: [None] and [0] are false. *)
Definition truthy (count_c : option Q) : option Q :=
  match count_c with
  | Some c => if Qeq_bool c 0 then None else Some c
  | None => None
  end.

Section Media.
Context {Model : Type} `{!Cobra Model}.

Definition is_carbon_source (uptake : string) : M Model bool :=
  id <- ask model_id ;;
  baseline <- lift (dict_get init_c id) ;;
  if decide (uptake ∈ baseline) then ret true
  else
    (* get medium without carbon source *)
    medium <- ask model_medium ;;
    baseline' <- lift (dict_get init_c id) ;;
    let medium :=
      fold_left
        (λ (medium : Medium) init_c_source,
           if decide (is_Some (medium !! init_c_source))
           then <[init_c_source := 0%Q]> medium else medium)
        baseline' medium in
    let medium := <[uptake := 1000%Q]> medium in
    growth_rate <- with_model (
      update (model_set_medium medium) ;;;
      ask slim_optimize) ;;
    ret (sustains_growth growth_rate).

Definition find_c_sources : M Model Medium :=
  exchanges <- ask model_exchanges ;;
  for_each exchanges (∅ : Medium) (λ c_sources uptake,
    count_c <- ask (λ m, exchange_carbon m uptake) ;;
    match truthy count_c with
    | None => ret c_sources
    | Some c =>
        b <- is_carbon_source uptake ;;
        ret (if b then <[uptake := c]> c_sources else c_sources)
    end).

Definition find_c_bound (c_sources : Medium) : M Model Q :=
  medium <- ask model_medium ;;
  ret (find_c_bound_of medium c_sources).

Definition find_essential_exc : M Model (list string) :=
  reactions <- with_model (
    exchanges <- ask model_exchanges ;;
    for_each exchanges tt (λ _ reaction,
      lb <- ask (λ m, lower_bound m reaction) ;;
      ub <- ask (λ m, upper_bound m reaction) ;;
      update (set_bounds reaction (Qmin lb (-1000), Qmax ub 1000)%Q)) ;;;
    call find_essential_reactions) ;;
  ret (filter (λ r, String.prefix "EX" r = true) reactions).

(** One pass through the body of the [while True] of [create_medium]:
    the candidate, the sampled carbon sources, and whether the loop is
    left. *)
Definition create_medium_attempt (c_sources : Medium) (c_bound : Q)
    (ess_ex : list string) : M Model (Medium * Medium * bool) :=
  current <- ask model_medium ;;
  let o2_flux := default 1000%Q (current !! "EX_o2_e") in
  (* initialize medium with essential exchanges *)
  current' <- ask model_medium ;;
  let medium : Medium := filter (λ kv, kv.1 ∈ ess_ex) current' in
  (* add random exchanges and carbon sources to medium *)
  all_exchanges <- ask model_exchanges ;;
  let exchanges :=
    filter (λ e, e ∉ keys medium ++ keys c_sources) all_exchanges in
  rand_ex <- rand_try (random_sample exchanges (min 3 (size c_sources))) ;;
  rand_c_items <-
    rand_try (random_sample (map_to_list c_sources) (min 3 (size c_sources))) ;;
  let rand_c : Medium := list_to_map rand_c_items in
  let medium := assign_all (rand_ex ++ keys rand_c) 10%Q medium in
  medium <- lift (normalize_carbon medium rand_c c_bound) ;;
  all_exchanges' <- ask model_exchanges ;;
  medium <-
    (if decide ("EX_o2_e" ∈ all_exchanges') then
       r <- rand random_random ;;
       ret (if Qltb r (1 # 2) || bool_decide ("EX_o2_e" ∈ ess_ex)
            then <["EX_o2_e" := o2_flux]> medium
            else <["EX_o2_e" := 0%Q]> medium)
     else ret medium) ;;
  (* create new medium if growth rate smaller 0.1 *)
  found <- with_model (
    update (model_set_medium medium) ;;;
    growth_rate <- ask slim_optimize ;;
    ret (sustains_growth growth_rate)) ;;
  ret (medium, rand_c, found).

(** [create_medium]: the [while True] runs for at most [fuel] passes in
    the model; the source has no bound. *)
Fixpoint create_medium (fuel : nat) (c_sources : Medium) (c_bound : Q)
    (ess_ex : list string) : M Model (Medium * Medium) :=
  match fuel with
  | 0 => lift Diverge
  | S fuel' =>
      r <- create_medium_attempt c_sources c_bound ess_ex ;;
      let '(medium, rand_c, found) := r in
      if found : bool then ret (medium, rand_c)
      else create_medium fuel' c_sources c_bound ess_ex
  end.

(** The state after [n] passes of the loop that each ended with a
    rejected candidate; [None] when one of them ended otherwise. *)
Fixpoint after_rejected (n : nat) (c_sources : Medium) (c_bound : Q)
    (ess_ex : list string) (w : World Model) : option (World Model) :=
  match n with
  | 0 => Some w
  | S n' =>
      match create_medium_attempt c_sources c_bound ess_ex w with
      | (Ok (_, _, false), w') =>
          after_rejected n' c_sources c_bound ess_ex w'
      | _ => None
      end
  end.

(** [medium.pop(uptake)] *)
Definition dict_pop (uptake : string) (medium : Medium) : Outcome Medium :=
  match medium !! uptake with
  | Some _ => Ok (delete uptake medium)
  | None => Raise KeyError
  end.

(** The body of the [for uptake in uptakes] of [minimize_medium]. *)
Definition minimize_step (rand_c : Medium) (c_bound : Q)
    (medium : Medium) (uptake : string) : M Model Medium :=
  let old_medium := medium in
  medium <- lift (dict_pop uptake medium) ;;   (* remove substances one by one *)
  medium <-
    (if decide (is_Some (rand_c !! uptake))
     then lift (normalize_carbon medium rand_c c_bound)
     else ret medium) ;;
  growth_rate <- with_model (
    update (model_set_medium medium) ;;;
    ask slim_optimize) ;;
  (* check if growth is sustained *)
  if negb (sustains_growth growth_rate) then ret old_medium else ret medium.

Definition minimize_medium (medium rand_c : Medium) (c_bound : Q)
    (ess_ex : list string) : M Model Medium :=
  let uptakes := elements (dom medium ∖ list_to_set ess_ex : gset string) in
  uptakes <- rand (random_shuffle uptakes) ;;
  for_each uptakes medium (minimize_step rand_c c_bound).

(** The inner [for i in range(amount)] of [find_minimal_media]. *)
Fixpoint create_and_minimize (fuel amount : nat) (c_sources : Medium)
    (c_bound : Q) (ess_ex : list string) : M Model (list Medium) :=
  match amount with
  | 0 => ret []
  | S amount' =>
      r <- create_medium fuel c_sources c_bound ess_ex ;;
      let '(medium, rand_c) := r in
      medium <- minimize_medium medium rand_c c_bound ess_ex ;;
      rest <- create_and_minimize fuel amount' c_sources c_bound ess_ex ;;
      ret (medium :: rest)
  end.

(** The body of the [for model in models] of [find_minimal_media]. *)
Definition minimal_media_of_model (fuel amount : nat)
    : M Model (string * list Medium) :=
  (* find all c_sources and the carbon uptake bound of the model *)
  c_sources <- find_c_sources ;;
  c_bound <- find_c_bound c_sources ;;
  ess_ex <- find_essential_exc ;;
  (* create and minimize medium *)
  model_minimal_media <- create_and_minimize fuel amount c_sources c_bound ess_ex ;;
  id <- ask model_id ;;
  ret (id, model_minimal_media).

(** [find_minimal_media(models, amount)]: the models are visited in
    order, each with its own state, the generator is shared.  The models
    after the visit are returned with the result. *)
Fixpoint find_minimal_media_from (fuel : nat) (models : list Model)
    (amount : nat) (minimal_media : gmap string (list Medium)) (g : Rng)
    : Outcome (gmap string (list Medium)) * list Model * Rng :=
  match models with
  | [] => (Ok minimal_media, [], g)
  | model :: models' =>
      match minimal_media_of_model fuel amount (mkWorld model g) with
      | (Ok item, w) =>
          let '(o, ms, g') :=
            find_minimal_media_from fuel models' amount
              (<[item.1 := item.2]> minimal_media) (w_rng w) in
          (o, w_model w :: ms, g')
      | (Raise e, w) => (Raise e, w_model w :: models', w_rng w)
      | (Diverge, w) => (Diverge, w_model w :: models', w_rng w)
      end
  end.

Definition find_minimal_media (fuel : nat) (models : list Model)
    (amount : nat) (g : Rng) :=
  find_minimal_media_from fuel models amount ∅ g.
End Media.

(** ** Data frames of fluxes *)

(** A frame of numbers: the row labels and the columns, each column as long
    as the index; [None] is [nan]. *)
Record DataFrame := mkFrame {
  df_index : list string;
  df_columns : list (list (option Q));
}.

(** [pd.DataFrame()] *)
Definition empty_frame : DataFrame := mkFrame [] [].

Definition series_lookup {V} (s : list (string * V)) (label : string) : option V :=
  snd <$> List.find (λ kv, bool_decide (kv.1 = label)) s.

(** [pd.concat([df, s], axis=1)] for series [ss] sharing one index: the
    union of the labels, the old columns padded with [nan]. *)
Definition concat_columns (df : DataFrame) (labels : list string)
    (ss : list (list (string * Q))) : DataFrame :=
  let index := df_index df ++ filter (λ l, l ∉ df_index df) labels in
  let pad := length index - length (df_index df) in
  mkFrame index
    (map (λ col, col ++ replicate pad None) (df_columns df)
     ++ map (λ s, map (series_lookup s) index) ss).

(** ** flux/flux_prediction.py *)

Section FluxPrediction.
Context {Model : Type} `{!Cobra Model}.

Definition pfba_for_media (media : list Medium) : M Model DataFrame :=
  for_each media empty_frame (λ pfba_df medium,
    try_except_infeasible
      (with_model (
         update (model_set_medium medium) ;;;
         pfba_medium <- call pfba ;;
         ret (concat_columns pfba_df pfba_medium.*1 [pfba_medium])))
      (ret pfba_df)).

(** The two columns, minimum and maximum, of a variability result. *)
Definition fva_frame_columns (r : list (string * (Q * Q)))
    : list (list (string * Q)) :=
  [ map (λ kv, (kv.1, kv.2.1)) r; map (λ kv, (kv.1, kv.2.2)) r ].

Definition fva_all_uptakes (reaction_list : list string) : M Model DataFrame :=
  with_model (
    (* open all exchange reactions to very high flux ranges *)
    exchanges <- ask model_exchanges ;;
    for_each exchanges tt (λ _ reaction,
      lb <- ask (λ m, lower_bound m reaction) ;;
      ub <- ask (λ m, upper_bound m reaction) ;;
      update (set_bounds reaction (Qmin lb (-1000), Qmax ub 1000)%Q)) ;;;
    try_except_infeasible
      (r <- call (λ m, flux_variability_analysis m reaction_list (11 # 10)%Q) ;;
       ret (concat_columns empty_frame r.*1 (fva_frame_columns r)))
      (ret empty_frame)).

Definition fva_for_media (media : list Medium) (reaction_list : list string)
    : M Model DataFrame :=
  for_each media empty_frame (λ fva_df medium,
    with_model (
      update (model_set_medium medium) ;;;
      try_except_infeasible
        (r <- call (λ m, flux_variability_analysis m reaction_list (11 # 10)%Q) ;;
         ret (concat_columns fva_df r.*1 (fva_frame_columns r)))
        (ret fva_df))).
End FluxPrediction.

(** ** flux/process_fluxes.py *)

(** [mean] of pandas: the missing entries are skipped; [nan] when none is
    left. *)
Definition nan_mean (xs : list (option Q)) : option Q :=
  match omap id xs with
  | [] => None
  | present => Some (py_sum present / inject_Z (Z.of_nat (length present)))%Q
  end.

(** [df[df < tolerance] = np.nan] on one column *)
Definition suppress (tolerance : Q) (col : list (option Q)) : list (option Q) :=
  map (λ x, match x with
            | Some v => if Qltb v tolerance then None else Some v
            | None => None
            end) col.

(** [x * (norm / x.mean(axis=0))] on one column.  In [process_fluxes] the
    entries of a column have one sign, so a zero mean means that all of its
    entries are zero, and numpy gives [0 * (norm / 0) = nan].  The factor
    is exact here and rounded in numpy: what is proved of the result is
    about its sign and about which entries are missing, not about its
    last digits. *)
Definition normalize_column (norm : Q) (col : list (option Q)) : list (option Q) :=
  match nan_mean col with
  | None => map (λ _, None) col
  | Some mean =>
      if Qeq_bool mean 0 then map (λ _, None) col
      else map (fmap (λ x, x * (norm / mean))%Q) col
  end.

(** [df.mean(axis=1)] *)
Definition row_means (index : list string) (columns : list (list (option Q)))
    : list (option Q) :=
  imap (λ i _, nan_mean (map (λ col, mjoin (col !! i)) columns)) index.

(** The column of per-reaction means of [process_fluxes], before the
    tolerance is applied to it. *)
Definition averaged (df : DataFrame) (tolerance norm : Q) (is_pfba : bool)
    : list (option Q) :=
  let columns := map (map (fmap Qabs)) (df_columns df) in
  (* include low fluxes in mean for fva, as fva predicts the flux range *)
  let columns := if is_pfba then map (suppress tolerance) columns else columns in
  (* normalize fluxes for each medium *)
  let columns := map (normalize_column norm) columns in
  row_means (df_index df) columns.

(** [process_fluxes(df, model, norm, is_pfba)]: a frame with the single
    column [flux].  [norm] is a number (not [nan]). *)
Definition process_fluxes {Model} `{!Cobra Model} (df : DataFrame)
    (model : Model) (norm : Q) (is_pfba : bool) : list (string * option Q) :=
  let tolerance := model_tolerance model in
  let flux := averaged df tolerance norm is_pfba in
  let flux := suppress tolerance flux in
  (* normalize mean fluxes *)
  let flux := normalize_column norm flux in
  zip (df_index df) flux.

Definition find_zero_fluxes (df : list (string * option Q)) : list string :=
  (filter (λ r, r.2 = None) df).*1.

(** A row of a per-model flux frame: the reaction id as label, the flux,
    and the origin tag once the column [from_fva] exists (a frame without
    the column has [None] everywhere). *)
Record FluxRow := mkFluxRow {
  fr_index : string;
  fr_flux : option Q;
  fr_from_fva : option bool;
}.

(** A row of the merged flux frame. *)
Record FluxRecord := mkFluxRecord {
  flux : option Q;
  from_fva : option bool;
  ORGANISM : string;
  BiGG_ID : string;
}.

Definition flux_column (df : list (string * option Q)) : list FluxRow :=
  map (λ r, mkFluxRow r.1 r.2 None) df.

(** [df.loc[df.flux.notna(), "from_fva"] = b] on the rows of a frame that
    has rows. *)
Definition tag_from_fva (b : bool) (df : list FluxRow) : list FluxRow :=
  map (λ r, match fr_flux r with
            | Some _ => mkFluxRow (fr_index r) (fr_flux r) (Some b)
            | None => r
            end) df.

(** The same assignment on any frame: the column [from_fva] is new, and
    pandas refuses to add a column by a scalar to a frame without rows
    ([ValueError]). *)
Definition tag_frame (b : bool) (df : list FluxRow) : Outcome (list FluxRow) :=
  match df with
  | [] => Raise ValueError
  | _ => Ok (tag_from_fva b df)
  end.

Definition fill_cell {A} (x y : option A) : option A :=
  match x with
  | Some _ => x
  | None => y
  end.

(** [df.fillna(other)]: every missing cell takes the cell of [other] with
    the same label and column. *)
Definition fillna_flux (df other : list FluxRow) : list FluxRow :=
  map (λ r,
         match List.find (λ o, bool_decide (fr_index o = fr_index r)) other with
         | Some o =>
             mkFluxRow (fr_index r)
               (fill_cell (fr_flux r) (fr_flux o))
               (fill_cell (fr_from_fva r) (fr_from_fva o))
         | None => r
         end) df.

(** [d[k] = f(d[k])] on a dictionary given by its items. *)
Fixpoint dict_alter {V} (f : V → V) (k : string) (d : list (string * V))
    : list (string * V) :=
  match d with
  | [] => []
  | (k', v) :: d' =>
      if decide (k' = k) then (k', f v) :: d' else (k', v) :: dict_alter f k d'
  end.

(** [d[k]] changed in place by an operation that may raise. *)
Fixpoint dict_alter_try {V} (f : V → Outcome V) (k : string)
    (d : list (string * V)) : Outcome (list (string * V)) :=
  match d with
  | [] => Raise KeyError
  | (k', v) :: d' =>
      if decide (k' = k) then outcome_bind (f v) (λ v', Ok ((k', v') :: d'))
      else outcome_bind (dict_alter_try f k d') (λ d'', Ok ((k', v) :: d''))
  end.

(** The first loop of [merge_fluxes]: add column from_fva to each
    dataframe. *)
Fixpoint tag_loop (ks : list (string * string))
    (pfba_dfs fva_dfs : list (string * list FluxRow))
    : Outcome (list (string * list FluxRow) * list (string * list FluxRow)) :=
  match ks with
  | [] => Ok (pfba_dfs, fva_dfs)
  | (k1, k2) :: ks' =>
      outcome_bind (dict_alter_try (tag_frame false) k1 pfba_dfs) (λ pfba_dfs,
      outcome_bind (dict_alter_try (tag_frame true) k2 fva_dfs) (λ fva_dfs,
        tag_loop ks' pfba_dfs fva_dfs))
  end.

Definition tag_frames (pfba_dfs fva_dfs : list (string * list FluxRow))
    : Outcome (list (string * list FluxRow) * list (string * list FluxRow)) :=
  tag_loop (zip pfba_dfs.*1 fva_dfs.*1) pfba_dfs fva_dfs.

(** What the first loop leaves behind when it does not raise. *)
Definition tagged_frames (pfba_dfs fva_dfs : list (string * list FluxRow))
    : list (string * list FluxRow) * list (string * list FluxRow) :=
  fold_left
    (λ dfs k12,
       (dict_alter (tag_from_fva false) k12.1 dfs.1,
        dict_alter (tag_from_fva true) k12.2 dfs.2))
    (zip pfba_dfs.*1 fva_dfs.*1) (pfba_dfs, fva_dfs).

(** The second loop: fill missing values of pfba fluxes with fva fluxes. *)
Fixpoint fill_frames (ks : list string)
    (pfba_dfs fva_dfs : list (string * list FluxRow))
    : Outcome (list (string * list FluxRow)) :=
  match ks with
  | [] => Ok []
  | k :: ks' =>
      outcome_bind (dict_get pfba_dfs k) (λ p,
      outcome_bind (dict_get fva_dfs k) (λ f,
      outcome_bind (fill_frames ks' pfba_dfs fva_dfs) (λ rest,
        Ok ((k, fillna_flux p f) :: rest))))
  end.

(** The third loop: add the columns "Organism" and "BiGG ID". *)
Fixpoint add_organism (organism_dict : list (string * string))
    (flux_dfs : list (string * list FluxRow))
    : Outcome (list (list FluxRecord)) :=
  match flux_dfs with
  | [] => Ok []
  | (k, df) :: flux_dfs' =>
      outcome_bind (dict_get organism_dict k) (λ organism,
      outcome_bind (add_organism organism_dict flux_dfs') (λ rest,
        Ok (map (λ r, mkFluxRecord (fr_flux r) (fr_from_fva r) organism
                        (fr_index r)) df :: rest)))
  end.

(** [pd.concat(flux_dfs.values(), ignore_index=True)]: pandas refuses to
    concatenate nothing. *)
Definition concat_frames (flux_dfs : list (list FluxRecord))
    : Outcome (list FluxRecord) :=
  match flux_dfs with
  | [] => Raise ValueError
  | _ => Ok (concat flux_dfs)
  end.

(** [flux_df.dropna()] *)
Definition dropna_flux (flux_df : list FluxRecord) : list FluxRecord :=
  filter (λ r, is_Some (flux r) ∧ is_Some (from_fva r)) flux_df.

(** [merge_fluxes(pfba_dfs, fva_dfs)]; [organism_dict] is the answer of
    [get_organisms()], which asks the BiGG web service. *)
Definition merge_fluxes (organism_dict : list (string * string))
    (pfba_dfs fva_dfs : list (string * list (string * option Q)))
    : Outcome (list FluxRecord) :=
  let pfba_dfs := map (λ kv, (kv.1, flux_column kv.2)) pfba_dfs in
  let fva_dfs := map (λ kv, (kv.1, flux_column kv.2)) fva_dfs in
  outcome_bind (tag_frames pfba_dfs fva_dfs) (λ dfs,
  let '(pfba_dfs, fva_dfs) := dfs in
  outcome_bind (fill_frames pfba_dfs.*1 pfba_dfs fva_dfs) (λ flux_dfs,
  outcome_bind (add_organism organism_dict flux_dfs) (λ flux_dfs,
  (* concat flux dataframes to one dataframe *)
  outcome_bind (concat_frames flux_dfs) (λ flux_df,
    Ok (dropna_flux flux_df))))).

(** The frame [flux_dfs[k]] of one model after the second loop, for frames
    the first loop has tagged. *)
Definition merge_model (pfba_df fva_df : list (string * option Q)) : list FluxRow :=
  fillna_flux (tag_from_fva false (flux_column pfba_df))
              (tag_from_fva true (flux_column fva_df)).

(** ** kcat_flux_mapping/mapping.py *)

(** Insertion sort, used for [sort_index]. *)
Fixpoint insert_sorted {A} (le : A → A → bool) (x : A) (l : list A) : list A :=
  match l with
  | [] => [x]
  | y :: l' => if le x y then x :: l else y :: insert_sorted le x l'
  end.

Definition sort_by {A} (le : A → A → bool) (l : list A) : list A :=
  foldr (insert_sorted le) [] l.

(** The order of a two-level index of strings. *)
Definition index_le (k1 k2 : string * string) : bool :=
  match String.compare k1.1 k2.1 with
  | Lt => true
  | Gt => false
  | Eq => String.leb k1.2 k2.2
  end.

(** A row of the kcat frame: the columns of [load_kcat_dataframe]. *)
Record KcatRecord := mkKcat {
  k_BiGG_ID : string;
  k_ORGANISM : string;
  k_log10_kcat : option Q;
  k_lineage : nat → string;
}.

(** A row of the flux frame inside [map_kcat_to_fluxes]. *)
Record FluxLine := mkFluxLine {
  fl_record : FluxRecord;
  fl_log10_flux : option Q;
  fl_lineage : nat → string;
}.

(** A row of [exact_df]: the kcat columns and the columns joined from the
    flux frame. *)
Record MapRow := mkMapRow {
  m_BiGG_ID : string;
  m_ORGANISM : string;
  m_log10_kcat : option Q;
  m_lineage : nat → string;
  m_flux : option Q;
  m_from_fva : option bool;
  m_log10_flux : option Q;
}.

(** A row of a grouped mean: the group keys (reaction id, lineage entry
    or nothing, origin tag) and the means of the numeric columns. *)
Record GroupRow := mkGroup {
  g_BiGG_ID : string;
  g_lineage : string;
  g_from_fva : bool;
  g_flux : option Q;
  g_log10_flux : option Q;
}.

Section Mapping.
(** [np.log10] on the magnitudes it is applied to. *)
Variable log10 : Q → Q.
(** The taxonomy service of [add_lineage]: the lineage of an organism,
    [None] when the name is unknown. *)
Variable taxonomy : string → option (list string).

(** [add_lineage]: the four lineage columns start empty; for a known
    organism the entries are written one by one until the lineage runs
    out. *)
Definition lineage_of (organism : string) (i : nat) : string :=
  match taxonomy organism with
  | Some lineage => if decide (i < 4) then default EmptyString (lineage !! i) else EmptyString
  | None => EmptyString
  end.

Definition add_lineage_kcat (rows : list (string * string * option Q))
    : list KcatRecord :=
  map (λ r, mkKcat r.1.1 r.1.2 r.2 (lineage_of r.1.2)) rows.

(** [flux_df.loc[:, "log10_flux"] = ...] followed by [add_lineage] *)
Definition flux_lines (flux_df : list FluxRecord) : list FluxLine :=
  map (λ r, mkFluxLine r (log10 ∘ Qabs <$> flux r) (lineage_of (ORGANISM r)))
      flux_df.

(** [pd.merge(kcat_df, flux_df, how="left", on=['BiGG ID', 'ORGANISM'])] *)
Definition left_merge (kcat_df : list KcatRecord) (flux_df : list FluxLine)
    : list MapRow :=
  flat_map
    (λ k,
       match filter (λ f, BiGG_ID (fl_record f) = k_BiGG_ID k
                          ∧ ORGANISM (fl_record f) = k_ORGANISM k) flux_df with
       | [] => [mkMapRow (k_BiGG_ID k) (k_ORGANISM k) (k_log10_kcat k)
                  (k_lineage k) None None None]
       | matches =>
           map (λ f, mkMapRow (k_BiGG_ID k) (k_ORGANISM k) (k_log10_kcat k)
                       (k_lineage k) (flux (fl_record f))
                       (from_fva (fl_record f)) (fl_log10_flux f)) matches
       end)
    kcat_df.

(** [flux_df.groupby(keys + ["from_fva"], as_index=False).mean()], where
    [key] reads the lineage column of the level, or nothing for the
    inexact mapping.  Rows without an origin tag belong to no group. *)
Definition group_key (key : FluxLine → string) (f : FluxLine)
    : option (string * string * bool) :=
  (λ b, (BiGG_ID (fl_record f), key f, b)) <$> from_fva (fl_record f).

Definition groupby_mean (key : FluxLine → string) (flux_df : list FluxLine)
    : list GroupRow :=
  map (λ k : string * string * bool,
         let members := filter (λ f, group_key key f = Some k) flux_df in
         mkGroup k.1.1 k.1.2 k.2
           (nan_mean (map (flux ∘ fl_record) members))
           (nan_mean (map fl_log10_flux members)))
      (remove_dups (omap (group_key key) flux_df)).

(** [exact_df.fillna(groups[groups["from_fva"] == b])], both frames
    indexed by the reaction id and [key]: the missing cells of a row take
    the cells of the group with its label. *)
Definition fill_row (key : MapRow → string) (groups : list GroupRow)
    (b : bool) (r : MapRow) : MapRow :=
  match List.find (λ g, bool_decide (g_BiGG_ID g = m_BiGG_ID r
                                     ∧ g_lineage g = key r
                                     ∧ g_from_fva g = b)) groups with
  | Some g =>
      mkMapRow (m_BiGG_ID r) (m_ORGANISM r) (m_log10_kcat r) (m_lineage r)
        (fill_cell (m_flux r) (g_flux g))
        (fill_cell (m_from_fva r) (Some (g_from_fva g)))
        (fill_cell (m_log10_flux r) (g_log10_flux g))
  | None => r
  end.

(** What one lineage level does to a row of [exact_df]: the group tagged
    as not from fva first, then the one tagged as from fva. *)
Definition fill_level_row (flux_df : list FluxLine) (i : nat) (r : MapRow)
    : MapRow :=
  let lin_df := groupby_mean (λ f, fl_lineage f i) flux_df in
  fill_row (λ r, m_lineage r i) lin_df true
    (fill_row (λ r, m_lineage r i) lin_df false r).

(** The body of the [for i in range(3, 0, -1)]. *)
Definition lineage_step (flux_df : list FluxLine) (exact_df : list MapRow)
    (i : nat) : list MapRow :=
  let exact_df :=
    sort_by (λ r1 r2, index_le (m_BiGG_ID r1, m_lineage r1 i)
                               (m_BiGG_ID r2, m_lineage r2 i)) exact_df in
  map (fill_level_row flux_df i) exact_df.

(** [range(3, 0, -1)] *)
Definition lineage_levels : list nat := rev (seq 1 3).

(** The inexact mapping on one row. *)
Definition fill_inexact_row (flux_df : list FluxLine) (r : MapRow) : MapRow :=
  let inexact_df := groupby_mean (λ _, EmptyString) flux_df in
  fill_row (λ _, EmptyString) inexact_df true (fill_row (λ _, EmptyString) inexact_df false r).

(** [kcat_flux_df.dropna()] *)
Definition dropna_map (df : list MapRow) : list MapRow :=
  filter (λ r, is_Some (m_log10_kcat r) ∧ is_Some (m_flux r)
               ∧ is_Some (m_from_fva r) ∧ is_Some (m_log10_flux r)) df.

(** What the lineage mapping over the given levels does to one row of
    [exact_df], the levels taken from left to right. *)
Definition fill_levels_row (flux_df : list FluxLine) (levels : list nat)
    (r : MapRow) : MapRow :=
  fold_left (λ r i, fill_level_row flux_df i r) levels r.

(** The lineage mapping run over the given levels. *)
Definition lineage_mapping (levels : list nat) (flux_df : list FluxLine)
    (exact_df : list MapRow) : list MapRow :=
  fold_left (lineage_step flux_df) levels exact_df.

(** [map_kcat_to_fluxes(flux_df)] with the levels of the lineage mapping
    as a parameter; [kcat_df] is the frame [load_kcat_dataframe] reads
    from the kcat file. *)
Definition map_kcat_with_levels (levels : list nat)
    (kcat_df : list KcatRecord) (flux_df : list FluxRecord) : list MapRow :=
  let flux_df := flux_lines flux_df in
  (* exact mapping *)
  let exact_df := left_merge kcat_df flux_df in
  (* lineage mapping *)
  let exact_df := lineage_mapping levels flux_df exact_df in
  (* inexact mapping *)
  let kcat_flux_df := map (fill_inexact_row flux_df) exact_df in
  dropna_map kcat_flux_df.

Definition map_kcat_to_fluxes := map_kcat_with_levels lineage_levels.
End Mapping.

(** One row keeps the cells of another: the kcat columns are the same and
    every flux cell that has a value has the same value. *)
Definition cells_kept (r r' : MapRow) : Prop :=
  m_BiGG_ID r' = m_BiGG_ID r
  ∧ m_ORGANISM r' = m_ORGANISM r
  ∧ m_log10_kcat r' = m_log10_kcat r
  ∧ m_lineage r' = m_lineage r
  ∧ (∀ v, m_flux r = Some v → m_flux r' = Some v)
  ∧ (∀ b, m_from_fva r = Some b → m_from_fva r' = Some b)
  ∧ (∀ l, m_log10_flux r = Some l → m_log10_flux r' = Some l).

(** A stand-in for [np.log10] in the examples: exact on the powers of ten
    they use. *)
Definition log10_example (x : Q) : Q :=
  if Qeq_bool x 1 then 0%Q
  else if Qeq_bool x 10 then 1%Q
  else if Qeq_bool x 100 then 2%Q
  else if Qeq_bool x 1000 then 3%Q
  else 0%Q.

(** The taxonomy of the examples. *)
Definition taxonomy_example (organism : string) : option (list string) :=
  if decide (organism = "Escherichia") then
    Some ["cellular organisms"; "Bacteria"; "Pseudomonadota";
          "Gammaproteobacteria"; "Enterobacterales"]
  else if decide (organism = "Salmonella") then
    Some ["cellular organisms"; "Bacteria"; "Pseudomonadota";
          "Gammaproteobacteria"; "Enterobacterales"]
  else if decide (organism = "Saccharomyces") then
    Some ["cellular organisms"; "Eukaryota"; "Opisthokonta"; "Fungi"; "Dikarya"]
  else None.

(** ** A small model to run the pipeline on

    Every exchange takes its metabolite up (a negative flux), so the medium
    is read off the lower bounds as cobra does.  The model grows at rate
    [1] when every nutrient of [toy_needs] has a positive uptake bound, and
    the solver finds nothing otherwise. *)

Record ToyModel := mkToy {
  toy_id : string;
  toy_exchanges : list string;
  toy_bounds : gmap string (Q * Q);
  toy_carbon : gmap string Q;
  toy_needs : list string;
  toy_tolerance : Q;
}.

Definition toy_lower (m : ToyModel) (e : string) : Q :=
  default 0%Q (fst <$> toy_bounds m !! e).
Definition toy_upper (m : ToyModel) (e : string) : Q :=
  default 0%Q (snd <$> toy_bounds m !! e).

Definition toy_with_bounds (m : ToyModel) (b : gmap string (Q * Q)) : ToyModel :=
  mkToy (toy_id m) (toy_exchanges m) b (toy_carbon m) (toy_needs m)
    (toy_tolerance m).

Definition toy_medium (m : ToyModel) : Medium :=
  list_to_map
    (omap (λ e, if Qltb (toy_lower m e) 0 then Some (e, (- toy_lower m e)%Q)
                else None)
          (toy_exchanges m)).

Definition toy_set_medium (medium : Medium) (m : ToyModel) : Outcome ToyModel :=
  if decide (Forall (λ k, k ∈ toy_exchanges m) (keys medium)) then
    Ok (toy_with_bounds m
          (foldr
             (λ e b,
                match medium !! e with
                | Some v => <[e := ((- v)%Q, toy_upper m e)]> b
                | None => <[e := (Qmax 0 (toy_lower m e), toy_upper m e)]> b
                end)
             (toy_bounds m) (toy_exchanges m)))
  else Raise KeyError.

Definition toy_set_bounds (e : string) (b : Q * Q) (m : ToyModel)
    : Outcome ToyModel :=
  if Qle_bool b.1 b.2 then Ok (toy_with_bounds m (<[e := b]> (toy_bounds m)))
  else Raise ValueError.

Definition toy_grows (m : ToyModel) : bool :=
  forallb (λ e, Qltb (toy_lower m e) 0) (toy_needs m).

Definition toy_fluxes (m : ToyModel) : list (string * Q) :=
  map (λ e, (e, toy_lower m e)) (toy_exchanges m).

Global Instance toy_cobra : Cobra ToyModel := {|
  model_id := toy_id;
  model_tolerance := toy_tolerance;
  model_exchanges := toy_exchanges;
  model_medium := toy_medium;
  model_set_medium := toy_set_medium;
  lower_bound := toy_lower;
  upper_bound := toy_upper;
  set_bounds := toy_set_bounds;
  exchange_carbon := λ m e, toy_carbon m !! e;
  slim_optimize := λ m, if toy_grows m then Some 1%Q else None;
  pfba := λ m, if toy_grows m then Ok (toy_fluxes m) else Raise Infeasible;
  flux_variability_analysis := λ m reaction_list _,
    if toy_grows m
    then Ok (map (λ e, (e, (toy_lower m e, toy_upper m e))) reaction_list)
    else Raise Infeasible;
  find_essential_reactions := λ m,
    if toy_grows m then Ok (toy_needs m) else Raise Infeasible;
|}.

(** A model of the hardcoded table: glucose is the baseline carbon source
    and essential, fructose is a second carbon source, ammonium and oxygen
    are offered as well. *)
Definition toy_ecoli : ToyModel :=
  mkToy "iECO111_1330"
    ["EX_glc__D_e"; "EX_fru_e"; "EX_nh4_e"; "EX_o2_e"]
    {[ "EX_glc__D_e" := ((-10)%Q, 1000%Q);
       "EX_fru_e" := (0%Q, 1000%Q);
       "EX_nh4_e" := ((-5)%Q, 1000%Q);
       "EX_o2_e" := ((-20)%Q, 1000%Q) ]}
    {[ "EX_glc__D_e" := 6%Q; "EX_fru_e" := 6%Q ]}
    ["EX_glc__D_e"] (1 # 1000000)%Q.

(** The same network under an id the table of [is_carbon_source] lacks. *)
Definition toy_unknown : ToyModel :=
  mkToy "iML1515" (toy_exchanges toy_ecoli) (toy_bounds toy_ecoli)
    (toy_carbon toy_ecoli) (toy_needs toy_ecoli) (toy_tolerance toy_ecoli).


(** An unknown id and no exchange that carries carbon. *)
Definition toy_carbon_free : ToyModel :=
  mkToy "iAB_RBC_283" ["EX_nh4_e"; "EX_o2_e"]
    {[ "EX_nh4_e" := ((-5)%Q, 1000%Q); "EX_o2_e" := ((-20)%Q, 1000%Q) ]}
    ∅ ["EX_nh4_e"] (1 # 1000000)%Q.

(** A model that needs a nutrient it cannot take up: no medium lets it
    grow. *)
Definition toy_starved : ToyModel :=
  mkToy "iHN637" ["EX_fru_e"; "EX_nh4_e"]
    {[ "EX_fru_e" := ((-10)%Q, 1000%Q); "EX_nh4_e" := ((-5)%Q, 1000%Q) ]}
    {[ "EX_fru_e" := 6%Q ]}
    ["EX_h2o_e"] (1 # 1000000)%Q.

(** ** Growth on a medium *)

(** The model accepts the medium and grows on it above the threshold of
    [create_medium] and [minimize_medium]. *)
Definition grows_on {Model} `{!Cobra Model} (model : Model) (medium : Medium)
    : Prop :=
  ∃ model', model_set_medium medium model = Ok model'
            ∧ sustains_growth (slim_optimize model') = true.

(** ** Strings *)

(** [s.split(sep)] for a separator of one character: never empty. *)
Fixpoint str_split (sep : ascii) (s : string) : list string :=
  match s with
  | EmptyString => [EmptyString]
  | String c s' =>
      if decide (c = sep) then EmptyString :: str_split sep s'
      else match str_split sep s' with
           | t :: ts => String c t :: ts
           | [] => [String c EmptyString]
           end
  end.

(** [s.split(sep)[0]] and [s.split(sep)[-1]] *)
Definition first_token (sep : ascii) (s : string) : string :=
  hd EmptyString (str_split sep s).
Definition last_token (sep : ascii) (s : string) : string :=
  List.last (str_split sep s) EmptyString.

(** [s.replace('_r', '')]: the occurrences are taken from the left and do
    not overlap. *)
Fixpoint str_replace_r (s : string) : string :=
  match s with
  | EmptyString => EmptyString
  | String c s' =>
      match s' with
      | String c' s'' =>
          if decide (c = "_"%char ∧ c' = "r"%char)
          then str_replace_r s''
          else String c (str_replace_r s')
      | EmptyString => String c EmptyString
      end
  end.

(** [d[k] = v] on a dictionary given by its items. *)
Fixpoint dict_set {V} (k : string) (v : V) (d : list (string * V))
    : list (string * V) :=
  match d with
  | [] => [(k, v)]
  | (k', v') :: d' =>
      if decide (k' = k) then (k, v) :: d' else (k', v') :: dict_set k v d'
  end.

(** ** flux/process_fluxes.py: get_organisms

    [listing] is what [os.listdir] finds in the directory of the models and
    [service] the "organism" field the BiGG web service answers for a
    model id ([None] for a null); the service is taken to answer every
    request. *)

(** The body of the loop: [if result: d[model] = result.split(" ")[0]]. *)
Definition organism_step (service : string → option string)
    (d : list (string * string)) (model : string) : list (string * string) :=
  match service model with
  | Some result =>
      if decide (result = EmptyString) then d
      else dict_set model (first_token " "%char result) d
  | None => d
  end.

Definition get_organisms (listing : list string)
    (service : string → option string) : list (string * string) :=
  let models := map (first_token "."%char) listing in
  let d := fold_left (organism_step service) models [] in
  (* manual search in the BiGG Database necessary for two models *)
  let d := dict_set "iRC1080" "Chlamydomonas" d in
  dict_set "iYS1720" "Salmonella" d.

(** ** kcat_flux_mapping/mapping.py: load_kcat_dataframe *)

(** A row of the kcat file, as [pd.read_csv] gives it: the columns the
    function uses.  [raw_ORGANISM] is [str(x)] of the cell. *)
Record KcatRaw := mkKcatRaw {
  raw_BiGG_acc : option Q;
  raw_BiGG_ID : option string;
  raw_ORGANISM : string;
  raw_log10_kcat : option Q;
}.

(** [str(x).split(" ")[0].split("[")[-1].split("]")[0]] *)
Definition organism_name (x : string) : string :=
  first_token "]"%char (last_token "["%char (first_token " "%char x)).

(** [max] of pandas: the missing entries are skipped; [nan] when none is
    left. *)
Definition nan_max (xs : list (option Q)) : option Q :=
  match omap id xs with
  | [] => None
  | x :: present => Some (fold_left Qmax present x)
  end.

(** [kcat_df['BiGG acc'] < 0.8]: a comparison with [nan] is false. *)
Definition low_confidence (r : KcatRaw) : bool :=
  match raw_BiGG_acc r with
  | Some acc => Qltb acc (8 # 10)
  | None => false
  end.

(** The rows left after the rows of low confidence are dropped, with the
    cleaned reaction id and organism. *)
Definition kcat_rows (raw : list KcatRaw)
    : list (option string * string * option Q) :=
  map (λ r, (str_replace_r <$> raw_BiGG_ID r,
             organism_name (raw_ORGANISM r), raw_log10_kcat r))
      (filter (λ r, low_confidence r = false) raw).

(** [groupby(['BiGG ID', 'ORGANISM'], as_index=False)['log10_kcat'].max()]:
    one row for every pair that occurs, in the order of the pairs; rows
    without a reaction id are in no group. *)
Definition kcat_groups (rows : list (option string * string * option Q))
    : list (string * string * option Q) :=
  let pairs :=
    sort_by index_le
      (remove_dups (omap (λ r, (λ id, (id, r.1.2)) <$> r.1.1) rows)) in
  map (λ k : string * string,
         (k.1, k.2,
          nan_max (map snd
            (filter (λ r, r.1.1 = Some k.1 ∧ r.1.2 = k.2) rows))))
      pairs.

Section LoadKcat.
Variable taxonomy : string → option (list string).

(** [load_kcat_dataframe(filename)], with the rows of the file in place
    of its name. *)
Definition load_kcat_dataframe (raw : list KcatRaw) : list KcatRecord :=
  add_lineage_kcat taxonomy (kcat_groups (kcat_rows raw)).
End LoadKcat.

(** ** Example data *)

(** The medium of a candidate in which glucose, essential, and fructose
    were both sampled as carbon sources and normalised to a bound of 20. *)
Definition sampled_medium : Medium :=
  {[ "EX_glc__D_e" := (167 # 100)%Q; "EX_fru_e" := (167 # 100)%Q ]}.
Definition sampled_rand_c : Medium :=
  {[ "EX_glc__D_e" := 6%Q; "EX_fru_e" := 6%Q ]}.

(** Two models, two reactions each; the fva pass has an answer for every
    reaction. *)
Definition example_pfba_dfs : list (string * list (string * option Q)) :=
  [ ("iECO111_1330", [("PGI", Some (1 # 2)%Q); ("PFK", None)]);
    ("iHN637", [("PGI", None); ("FBA", Some 3%Q)]) ].
Definition example_fva_dfs : list (string * list (string * option Q)) :=
  [ ("iECO111_1330", [("PGI", Some 7%Q); ("PFK", Some (1 # 4)%Q)]);
    ("iHN637", [("PGI", Some 2%Q); ("FBA", Some 9%Q)]) ].
Definition example_organisms : list (string * string) :=
  [ ("iECO111_1330", "Escherichia"); ("iHN637", "Clostridium") ].

Definition example_flux_df : list FluxRecord :=
  [ mkFluxRecord (Some (1 # 2)%Q) (Some false) "Escherichia" "PGI";
    mkFluxRecord (Some (1 # 4)%Q) (Some true) "Escherichia" "PFK";
    mkFluxRecord (Some 2%Q) (Some true) "Clostridium" "PGI";
    mkFluxRecord (Some 3%Q) (Some false) "Clostridium" "FBA" ].

(** One column whose fluxes are all far below the tolerance. *)
Definition tiny_flux_frame : DataFrame :=
  mkFrame ["PGI"; "PFK"]
    [[Some (1 # 1000000000)%Q; Some (-3 # 1000000000)%Q]].


(** One kcat record of an enterobacterium; a flux of the same reaction in
    yeast, which shares only lineage level 0 with it, and one in an
    organism the taxonomy does not know. *)
Definition example_kcat_df : list KcatRecord :=
  add_lineage_kcat taxonomy_example [("PGI", "Escherichia", Some 2%Q)].
Definition distant_flux_df : list FluxRecord :=
  [ mkFluxRecord (Some 1%Q) (Some false) "Saccharomyces" "PGI";
    mkFluxRecord (Some 100%Q) (Some false) "Unknownia" "PGI" ].

(** A flux of the same reaction in a relative of the same class: the
    record is filled at level 3 and the inexact mapping, whose average is
    50.5, leaves it alone. *)
Definition close_flux_df : list FluxRecord :=
  [ mkFluxRecord (Some 1%Q) (Some false) "Salmonella" "PGI";
    mkFluxRecord (Some 100%Q) (Some false) "Saccharomyces" "PGI" ].

(** The row of [exact_df] for the kcat record when the exact mapping finds
    no flux for it. *)
Definition unmatched_row : MapRow :=
  mkMapRow "PGI" "Escherichia" (Some 2%Q)
    (lineage_of taxonomy_example "Escherichia") None None None.

(** Two kcat records of the reaction, in two organisms, and one flux of
    the reaction in a third, from the pfba pass; the fva frame of the
    model holds another reaction. *)
Definition two_kcat_df : list KcatRecord :=
  add_lineage_kcat taxonomy_example
    [("PGI", "Escherichia", Some 2%Q); ("PGI", "Salmonella", Some 3%Q)].
Definition one_flux_pfba_dfs : list (string * list (string * option Q)) :=
  [ ("iMM904", [("PGI", Some 10%Q)]) ].
Definition one_flux_fva_dfs : list (string * list (string * option Q)) :=
  [ ("iMM904", [("PFK", Some 4%Q)]) ].
Definition one_flux_organisms : list (string * string) :=
  [ ("iMM904", "Saccharomyces") ].
Definition one_flux_df : list FluxRecord :=
  [ mkFluxRecord (Some 10%Q) (Some false) "Saccharomyces" "PGI" ].

(** Two media over three reactions, with fluxes of both signs; the third
    reaction is below the tolerance in both media. *)
Definition signed_flux_frame : DataFrame :=
  mkFrame ["PGI"; "PFK"; "FBA"]
    [ [Some (-2)%Q; Some 4%Q; Some (1 # 1000000000)%Q];
      [Some (-4)%Q; None; Some 0%Q] ].

(** Rows of a kcat file: a reversible reaction measured twice in one
    species, a measurement of low confidence, a row without kcat, a row
    without reaction id. *)
Definition example_kcat_raw : list KcatRaw :=
  [ mkKcatRaw (Some 1%Q) (Some "PGI_r") "Escherichia coli" (Some 2%Q);
    mkKcatRaw (Some (9 # 10)%Q) (Some "PGI") "Escherichia coli K12" (Some 3%Q);
    mkKcatRaw (Some (5 # 10)%Q) (Some "PGI") "Escherichia coli" (Some 7%Q);
    mkKcatRaw None (Some "FBA") "[Clostridium] ljungdahlii" None;
    mkKcatRaw (Some 1%Q) None "Bacillus subtilis" (Some 1%Q) ].

(* ===================================================================== *)
(** * Part II: properties *)
(* ===================================================================== *)

(** ** Numbers *)

Lemma Qltb_lt x y : Qltb x y = true ↔ (x < y)%Q.
Proof.
  unfold Qltb. rewrite negb_true_iff, <- not_true_iff_false, Qle_bool_iff.
  split; [apply Qnot_le_lt | apply Qlt_not_le].
Qed.

Lemma Qltb_ge x y : Qltb x y = false ↔ (y <= x)%Q.
Proof. unfold Qltb. rewrite negb_false_iff. apply Qle_bool_iff. Qed.










(** Sums. *)
Lemma fold_left_Qplus_acc (xs : list Q) (a : Q) :
  (fold_left Qplus xs a == a + py_sum xs)%Q.
Proof.
  unfold py_sum. revert a. induction xs as [|x xs IH]; intros a; cbn [fold_left].
  - ring.
  - rewrite IH, (IH (0 + x)%Q). ring.
Qed.

Lemma py_sum_cons (x : Q) (xs : list Q) : (py_sum (x :: xs) == x + py_sum xs)%Q.
Proof. unfold py_sum at 1. cbn [fold_left]. rewrite fold_left_Qplus_acc. ring. Qed.


Lemma py_sum_pos (xs : list Q) :
  xs ≠ [] → Forall (λ x, 0 < x)%Q xs → (0 < py_sum xs)%Q.
Proof.
  intros Hne Hall. destruct xs as [|x xs]; [done|]. clear Hne.
  revert x Hall. induction xs as [|y ys IH]; intros x Hall.
  - rewrite py_sum_cons. unfold py_sum; cbn [fold_left].
    apply Forall_cons_1 in Hall as [Hx _]. lra.
  - apply Forall_cons_1 in Hall as [Hx Hall].
    rewrite py_sum_cons. specialize (IH y Hall). lra.
Qed.

(** ** Carbon normalisation *)

Lemma elem_of_keys {V} (d : gmap string V) (k : string) :
  k ∈ keys d ↔ is_Some (d !! k).
Proof.
  unfold keys. rewrite list_elem_of_fmap. split.
  - intros [[k' v] [-> Hin]]. apply elem_of_map_to_list in Hin. by eexists.
  - intros [v Hv]. exists (k, v). split; [done|]. by apply elem_of_map_to_list.
Qed.

Lemma assign_all_lookup (ks : list string) (v : Q) (d : Medium) (k : string) :
  assign_all ks v d !! k = if decide (k ∈ ks) then Some v else d !! k.
Proof.
  unfold assign_all. revert d. induction ks as [|k' ks IH]; intros d; cbn.
  - by rewrite decide_False by apply not_elem_of_nil.
  - rewrite IH. destruct (decide (k ∈ ks)) as [Hin|Hnin].
    + rewrite decide_True; [done | by right].
    + destruct (decide (k' = k)) as [->|Hne].
      * rewrite decide_True by left. apply lookup_insert_eq.
      * rewrite decide_False; [by apply lookup_insert_ne|].
        intros Hc. apply elem_of_cons in Hc as [?|?]; congruence.
Qed.

Lemma chosen_in_lookup (medium rand_c : Medium) (k : string) :
  chosen_in medium rand_c !! k =
    if decide (is_Some (medium !! k)) then rand_c !! k else None.
Proof.
  unfold chosen_in. destruct (decide _) as [Hs|Hn].
  - destruct (rand_c !! k) as [c|] eqn:E.
    + by apply map_lookup_filter_Some_2.
    + apply map_lookup_filter_None. by left.
  - apply map_lookup_filter_None. right. intros c _. exact Hn.
Qed.

Lemma chosen_in_ext (m1 m2 rand_c : Medium) :
  (∀ k, is_Some (m1 !! k) ↔ is_Some (m2 !! k)) →
  chosen_in m1 rand_c = chosen_in m2 rand_c.
Proof.
  intros H. apply map_eq. intros k. rewrite !chosen_in_lookup.
  destruct (decide (is_Some (m1 !! k))) as [H1|H1];
    destruct (decide (is_Some (m2 !! k))) as [H2|H2]; try done.
  - by apply H in H1.
  - by apply H in H2.
Qed.

(** What a normalisation that returns has done. *)
Lemma normalize_carbon_Ok (medium rand_c : Medium) (b : Q) (medium' : Medium) :
  normalize_carbon medium rand_c b = Ok medium' →
  (chosen_in medium rand_c = ∅ ∧ medium' = medium)
  ∨ (chosen_in medium rand_c ≠ ∅
     ∧ ¬ (py_sum (values (chosen_in medium rand_c)) == 0)%Q
     ∧ medium' =
         assign_all (keys (chosen_in medium rand_c))
           (round2 (b / py_sum (values (chosen_in medium rand_c)))) medium).
Proof.
  unfold normalize_carbon, py_div.
  destruct (map_to_list (chosen_in medium rand_c)) as [|kv l] eqn:E.
  - intros [= <-]. left. split; [|done]. by apply map_to_list_empty_iff.
  - destruct (Qeq_bool _ 0) eqn:Ez; cbn; [done|]. intros [= <-]. right.
    split; [|split; [|done]].
    + intros Hc. rewrite Hc, map_to_list_empty in E. done.
    + by apply Qeq_bool_neq.
Qed.

Lemma normalize_carbon_lookup (medium rand_c : Medium) (b : Q) (medium' : Medium)
    (k : string) :
  normalize_carbon medium rand_c b = Ok medium' →
  medium' !! k =
    if decide (is_Some (chosen_in medium rand_c !! k))
    then Some (round2 (b / py_sum (values (chosen_in medium rand_c))))
    else medium !! k.
Proof.
  intros [[He ->]|(_ & _ & ->)]%normalize_carbon_Ok.
  - rewrite He, lookup_empty. rewrite decide_False; [done|]. by intros [? ?].
  - rewrite assign_all_lookup.
    destruct (decide (k ∈ _)) as [Hin|Hnin].
    + apply elem_of_keys in Hin. by rewrite decide_True.
    + rewrite decide_False; [done|]. by rewrite <- elem_of_keys.
Qed.

(** Normalisation assigns to keys of the medium only. *)
Lemma normalize_carbon_is_Some (medium rand_c : Medium) (b : Q)
    (medium' : Medium) (k : string) :
  normalize_carbon medium rand_c b = Ok medium' →
  is_Some (medium' !! k) ↔ is_Some (medium !! k).
Proof.
  intros H. rewrite (normalize_carbon_lookup _ _ _ _ k H).
  destruct (decide _) as [Hs|Hn]; [|done].
  rewrite chosen_in_lookup in Hs.
  destruct (decide (is_Some (medium !! k))) as [Hm|Hm].
  - split; [done | by eexists].
  - by destruct Hs.
Qed.

Lemma normalize_carbon_other (medium rand_c : Medium) (b : Q)
    (medium' : Medium) (k : string) :
  normalize_carbon medium rand_c b = Ok medium' →
  rand_c !! k = None → medium' !! k = medium !! k.
Proof.
  intros H Hk. rewrite (normalize_carbon_lookup _ _ _ _ k H).
  rewrite decide_False; [done|]. rewrite chosen_in_lookup.
  destruct (decide _); rewrite ?Hk; by intros [? ?].
Qed.




(** C9.  Carbon normalisation is idempotent: running [normalize_carbon] on
    its own result, with the same chosen carbon sources and the same carbon
    bound, gives that result again (and a run that raises raises the same
    way). *)
Theorem normalize_carbon_idempotent (medium rand_c : Medium) (total_c_bound : Q) :
  outcome_bind (normalize_carbon medium rand_c total_c_bound)
               (λ medium', normalize_carbon medium' rand_c total_c_bound)
  = normalize_carbon medium rand_c total_c_bound.
Proof.
  destruct (normalize_carbon medium rand_c total_c_bound) as [medium'| |] eqn:E;
    [|done..].
  cbn. pose proof (chosen_in_ext medium' medium rand_c
    (λ k, normalize_carbon_is_Some _ _ _ _ k E)) as Hc.
  pose proof E as [[He ->]|(Hne & Hz & ->)]%normalize_carbon_Ok; [done|].
  unfold normalize_carbon in *. rewrite Hc.
  destruct (map_to_list (chosen_in medium rand_c)) eqn:El; [done|].
  unfold py_div. destruct (Qeq_bool _ 0) eqn:Ez.
  - by apply Qeq_bool_eq in Ez.
  - cbn. f_equal. apply map_eq. intros k. rewrite !assign_all_lookup.
    by destruct (decide _).
Qed.



(** The quotient is rounded as a double: 3/40 is the double just below
    0.075, so the uptake is 0.07 and not the 0.08 of the decimal tie. *)
Lemma normalize_carbon_rounds_the_double :
  normalize_carbon {[ "EX_glc__D_e" := 10%Q ]} {[ "EX_glc__D_e" := 40%Q ]} 3
    = Ok {[ "EX_glc__D_e" := (7 # 100)%Q ]}.
Proof. vm_compute. reflexivity. Qed.

(** ** The random generator *)

Lemma choose_Permutation {A} (l : list A) (g : Rng) :
  (choose (length l) l g).1 ≡ₚ l.
Proof.
  remember (length l) as n eqn:Hn. revert l g Hn.
  induction n as [|n IH]; intros l g Hn.
  - destruct l; [done | discriminate].
  - cbn [choose]. destruct (draw g) as [x g1].
    assert (Hlt : x mod length l < length l)
      by (apply Nat.mod_upper_bound; lia).
    destruct (lookup_lt_is_Some_2 l _ Hlt) as [a Ha]. rewrite Ha.
    specialize (IH (delete (x mod length l) l) g1).
    destruct (choose n _ g1) as [rest g2]. cbn in *.
    rewrite IH.
    + symmetry. by apply delete_Permutation.
    + rewrite length_delete by by eexists. lia.
Qed.

Lemma random_shuffle_Permutation {A} (l : list A) (g : Rng) :
  (random_shuffle l g).1 ≡ₚ l.
Proof. apply choose_Permutation. Qed.

(** ** The state monad *)

Section MonadFacts.
Context {Model : Type}.
Implicit Types w : World Model.

Lemma bind_Ok {A B} (c : M Model A) (k : A → M Model B) w b w' :
  bind c k w = (Ok b, w') ↔ ∃ a w1, c w = (Ok a, w1) ∧ k a w1 = (Ok b, w').
Proof.
  unfold bind. split.
  - destruct (c w) as [[a|e|] w1]; [|done..]. intros H. by exists a, w1.
  - intros (a & w1 & -> & H). done.
Qed.

Lemma frames_ret {A} (a : A) : frames (ret (Model:=Model) a).
Proof. done. Qed.

Lemma frames_lift {A} (o : Outcome A) : frames (lift (Model:=Model) o).
Proof. done. Qed.

Lemma frames_ask {A} (f : Model → A) : frames (ask f).
Proof. done. Qed.

Lemma frames_call {A} (f : Model → Outcome A) : frames (call f).
Proof. done. Qed.

Lemma frames_rand {A} (f : Rng → A * Rng) : frames (rand (Model:=Model) f).
Proof. intros w. unfold rand. by destruct (f _). Qed.

Lemma frames_rand_try {A} (f : Rng → Outcome A * Rng) :
  frames (rand_try (Model:=Model) f).
Proof. intros w. unfold rand_try. by destruct (f _). Qed.

Lemma frames_bind {A B} (c : M Model A) (k : A → M Model B) :
  frames c → (∀ a, frames (k a)) → frames (bind c k).
Proof.
  intros Hc Hk w. unfold bind. specialize (Hc w).
  destruct (c w) as [[a|e|] w1]; cbn in *; [|done..].
  by rewrite Hk.
Qed.

(** The block of a [with model:] may do to the model what it wants. *)
Lemma frames_with_model {A} (body : M Model A) : frames (with_model body).
Proof. intros w. unfold with_model. by destruct (body w). Qed.

Lemma frames_try_except_infeasible {A} (body handler : M Model A) :
  frames body → frames handler → frames (try_except_infeasible body handler).
Proof.
  intros Hb Hh w. unfold try_except_infeasible. specialize (Hb w).
  destruct (body w) as [[a|[]|] w1]; cbn in *; try done.
  by rewrite Hh.
Qed.

Lemma frames_for_each {A B} (l : list A) (acc : B) (body : B → A → M Model B) :
  (∀ b a, frames (body b a)) → frames (for_each l acc body).
Proof.
  intros Hb. revert acc. induction l as [|x l IH]; intros acc; cbn.
  - apply frames_ret.
  - apply frames_bind; [apply Hb | intros; apply IH].
Qed.

Lemma frames_if {A} (b : bool) (c1 c2 : M Model A) :
  frames c1 → frames c2 → frames (if b then c1 else c2).
Proof. by destruct b. Qed.

Lemma frames_if_decide {A} (P : Prop) `{!Decision P} (c1 c2 : M Model A) :
  frames c1 → frames c2 → frames (if decide P then c1 else c2).
Proof. by destruct (decide P). Qed.
End MonadFacts.

Create HintDb frame discriminated.
#[export] Hint Resolve frames_ret frames_lift frames_ask frames_call frames_rand
  frames_rand_try frames_with_model : frame.
#[export] Hint Resolve frames_bind frames_try_except_infeasible frames_for_each
  frames_if frames_if_decide : frame.

(** Split a computation along its binds, loops and branches. *)
Ltac frame :=
  repeat first
    [ progress intros
    | apply frames_with_model
    | apply frames_bind
    | apply frames_for_each
    | apply frames_try_except_infeasible
    | apply frames_if_decide
    | apply frames_if
    | solve [auto with frame]
    | match goal with
      | |- frames (match ?x with _ => _ end) => destruct x
      end ].

Section MediaFacts.
Context {Model : Type} `{!Cobra Model}.
Implicit Types w : World Model.

Lemma frames_is_carbon_source uptake : frames (is_carbon_source uptake).
Proof. unfold is_carbon_source. frame. Qed.

Lemma frames_find_c_sources : frames find_c_sources.
Proof. unfold find_c_sources. frame. Qed.

Lemma frames_find_essential_exc : frames find_essential_exc.
Proof. unfold find_essential_exc. frame. Qed.

Lemma frames_create_medium_attempt c_sources c_bound ess_ex :
  frames (create_medium_attempt c_sources c_bound ess_ex).
Proof. unfold create_medium_attempt. frame. Qed.

Lemma frames_create_medium fuel c_sources c_bound ess_ex :
  frames (create_medium fuel c_sources c_bound ess_ex).
Proof.
  induction fuel as [|fuel IH]; cbn [create_medium]; [apply frames_lift|].
  apply frames_bind; [apply frames_create_medium_attempt|].
  intros [[medium rand_c] [|]]; [apply frames_ret | apply IH].
Qed.

Lemma frames_minimize_step rand_c c_bound medium uptake :
  frames (minimize_step rand_c c_bound medium uptake).
Proof. unfold minimize_step. frame. Qed.

Lemma frames_minimize_medium medium rand_c c_bound ess_ex :
  frames (minimize_medium medium rand_c c_bound ess_ex).
Proof. unfold minimize_medium. frame. Qed.

Lemma frames_pfba_for_media media : frames (pfba_for_media media).
Proof. unfold pfba_for_media. frame. Qed.

Lemma frames_fva_for_media media reaction_list :
  frames (fva_for_media media reaction_list).
Proof. unfold fva_for_media. frame. Qed.

Lemma frames_fva_all_uptakes reaction_list :
  frames (fva_all_uptakes reaction_list).
Proof. unfold fva_all_uptakes. frame. Qed.

(** C8.  Each feasibility or flux query leaves the shared model as it
    found it, whether it returns, raises (solver infeasibility included)
    or runs without end: the model after the call is the model before
    it, so its exchange bounds and its medium are the ones before the
    call.  Every bound override and medium assignment of these functions
    sits inside a [with model:] block. *)
Theorem queries_restore_model :
  (∀ media w, w_model (pfba_for_media media w).2 = w_model w)
  ∧ (∀ media reaction_list w,
       w_model (fva_for_media media reaction_list w).2 = w_model w)
  ∧ (∀ reaction_list w,
       w_model (fva_all_uptakes reaction_list w).2 = w_model w)
  ∧ (∀ uptake w, w_model (is_carbon_source uptake w).2 = w_model w)
  ∧ (∀ w, w_model (find_essential_exc w).2 = w_model w)
  ∧ (∀ fuel c_sources c_bound ess_ex w,
       w_model (create_medium fuel c_sources c_bound ess_ex w).2 = w_model w)
  ∧ (∀ medium rand_c c_bound ess_ex w,
       w_model (minimize_medium medium rand_c c_bound ess_ex w).2 = w_model w).
Proof.
  repeat split; intros.
  - apply frames_pfba_for_media.
  - apply frames_fva_for_media.
  - apply frames_fva_all_uptakes.
  - apply frames_is_carbon_source.
  - apply frames_find_essential_exc.
  - apply frames_create_medium.
  - apply frames_minimize_medium.
Qed.
End MediaFacts.

(** ** Minimisation *)

Section Minimize.
Context {Model : Type} `{!Cobra Model}.
Implicit Types (w : World Model) (medium rand_c : Medium).

(** The three ways a pass of the loop can end: the old medium restored,
    the uptake removed, or removed and the carbon renormalised. *)
Lemma minimize_step_Ok rand_c c_bound medium uptake w medium' w' :
  minimize_step rand_c c_bound medium uptake w = (Ok medium', w') →
  is_Some (medium !! uptake)
  ∧ (medium' = medium
     ∨ medium' = delete uptake medium
     ∨ normalize_carbon (delete uptake medium) rand_c c_bound = Ok medium').
Proof.
  unfold minimize_step, dict_pop.
  intros (m1 & w1 & H1 & H)%bind_Ok.
  destruct (medium !! uptake) as [v|] eqn:Eu; [|by inversion H1].
  inversion H1; subst m1 w1; clear H1.
  split; [by eexists|].
  apply bind_Ok in H as (m2 & w2 & H2 & H).
  apply bind_Ok in H as (growth & w3 & _ & H).
  destruct (negb _); inversion H; subst; clear H; [by left|].
  right. destruct (decide _).
  - right. unfold lift in H2. by inversion H2.
  - left. by inversion H2.
Qed.

Lemma minimize_step_keys rand_c c_bound medium uptake w medium' w' k :
  minimize_step rand_c c_bound medium uptake w = (Ok medium', w') →
  (is_Some (medium' !! k) → is_Some (medium !! k))
  ∧ (k ≠ uptake → is_Some (medium !! k) → is_Some (medium' !! k))
  ∧ (k ≠ uptake → rand_c !! k = None → medium' !! k = medium !! k).
Proof.
  intros [Hu [->|[->|Hn]]]%minimize_step_Ok; [done|..].
  - split; [|split].
    + intros [v Hv]. apply lookup_delete_Some in Hv as [_ Hv]. by eexists.
    + intros Hne. by rewrite lookup_delete_ne.
    + intros Hne _. by rewrite lookup_delete_ne.
  - pose proof (normalize_carbon_is_Some _ _ _ _ k Hn) as Hs.
    split; [|split].
    + rewrite Hs. intros [v Hv]. apply lookup_delete_Some in Hv as [_ Hv].
      by eexists.
    + intros Hne. by rewrite Hs, lookup_delete_ne.
    + intros Hne Hk. rewrite (normalize_carbon_other _ _ _ _ k Hn Hk).
      by apply lookup_delete_ne.
Qed.

Lemma minimize_loop_keys rand_c c_bound uptakes medium w medium' w' k :
  for_each uptakes medium (minimize_step rand_c c_bound) w = (Ok medium', w') →
  (is_Some (medium' !! k) → is_Some (medium !! k))
  ∧ (k ∉ uptakes → is_Some (medium !! k) → is_Some (medium' !! k))
  ∧ (k ∉ uptakes → rand_c !! k = None → medium' !! k = medium !! k).
Proof.
  revert medium w. induction uptakes as [|u us IH]; intros medium w; cbn.
  - by intros [= -> ->].
  - intros (m1 & w1 & H1 & H)%bind_Ok.
    apply (minimize_step_keys _ _ _ _ _ _ _ k) in H1 as (Ha & Hb & Hc).
    apply IH in H as (Ha' & Hb' & Hc').
    split; [tauto|]. split.
    + intros [Hne Hnin]%not_elem_of_cons ?. tauto.
    + intros [Hne Hnin]%not_elem_of_cons ?.
      rewrite Hc', Hc by done. done.
Qed.

(** When does the loop run to its end: the medium setter accepts every
    part of the medium, and the carbon counts are positive. *)
Lemma normalize_carbon_returns medium rand_c c_bound :
  map_Forall (λ _ c, 0 < c)%Q rand_c →
  ∃ medium', normalize_carbon medium rand_c c_bound = Ok medium'.
Proof.
  intros Hpos. unfold normalize_carbon, py_div.
  destruct (map_to_list (chosen_in medium rand_c)) as [|kv l] eqn:E;
    [by eexists|].
  destruct (Qeq_bool _ 0) eqn:Ez; [|by eexists].
  apply Qeq_bool_eq in Ez. exfalso.
  assert (Hs : (0 < py_sum (values (chosen_in medium rand_c)))%Q).
  { apply py_sum_pos.
    - unfold values. rewrite E. done.
    - apply Forall_forall. intros c Hc. unfold values in Hc.
      apply list_elem_of_fmap in Hc as [[k c'] [-> Hin]].
      apply elem_of_map_to_list in Hin. rewrite chosen_in_lookup in Hin.
      destruct (decide _); [|done]. by apply (Hpos k). }
  lra.
Qed.

Lemma minimize_step_returns rand_c c_bound medium uptake w :
  map_Forall (λ _ c, 0 < c)%Q rand_c →
  (∀ med, (∀ k, is_Some (med !! k) → is_Some (medium !! k)) →
          ∃ model', model_set_medium med (w_model w) = Ok model') →
  is_Some (medium !! uptake) →
  ∃ medium' w', minimize_step rand_c c_bound medium uptake w = (Ok medium', w').
Proof.
  intros Hpos Hset [v Hv]. unfold minimize_step, dict_pop. rewrite Hv.
  assert (Hsub : ∀ k, is_Some (delete uptake medium !! k) → is_Some (medium !! k)).
  { intros k [x Hx]. apply lookup_delete_Some in Hx as [_ Hx]. by eexists. }
  assert (∃ m2, (if decide (is_Some (rand_c !! uptake))
                 then lift (normalize_carbon (delete uptake medium) rand_c c_bound)
                 else ret (delete uptake medium)) w = (Ok m2, w)
                ∧ ∀ k, is_Some (m2 !! k) → is_Some (medium !! k))
    as (m2 & Hm2 & Hsub2).
  { destruct (decide _).
    - destruct (normalize_carbon_returns (delete uptake medium) rand_c c_bound Hpos)
        as [m2 Hm2].
      exists m2. unfold lift. rewrite Hm2. split; [done|].
      intros k Hk. apply Hsub.
      by apply (normalize_carbon_is_Some _ _ _ _ k Hm2).
    - by exists (delete uptake medium). }
  destruct (Hset m2 Hsub2) as [model' Hmodel'].
  unfold bind at 1. unfold lift at 1. cbn.
  unfold bind at 1. rewrite Hm2.
  unfold bind at 1, with_model, bind, update. rewrite Hmodel'. cbn.
  destruct (negb _); by eexists _, _.
Qed.

Lemma minimize_loop_returns rand_c c_bound medium0 model0 uptakes medium w :
  map_Forall (λ _ c, 0 < c)%Q rand_c →
  (∀ med, (∀ k, is_Some (med !! k) → is_Some (medium0 !! k)) →
          ∃ model', model_set_medium med model0 = Ok model') →
  w_model w = model0 →
  (∀ k, is_Some (medium !! k) → is_Some (medium0 !! k)) →
  NoDup uptakes →
  (∀ u, u ∈ uptakes → is_Some (medium !! u)) →
  ∃ medium' w',
    for_each uptakes medium (minimize_step rand_c c_bound) w = (Ok medium', w').
Proof.
  intros Hpos Hset. revert medium w.
  induction uptakes as [|u us IH]; intros medium w Hw Hsub Hnd Hin; cbn.
  - by eexists _, _.
  - apply NoDup_cons in Hnd as [Hu Hnd].
    destruct (minimize_step_returns rand_c c_bound medium u w Hpos)
      as (m1 & w1 & H1).
    { intros med Hmed. rewrite Hw. apply Hset. intros k Hk.
      by apply Hsub, Hmed. }
    { apply Hin. by left. }
    unfold bind. rewrite H1.
    apply (IH m1 w1); [| |done|].
    + pose proof (frames_minimize_step rand_c c_bound medium u w) as Hf.
      rewrite H1 in Hf. cbn in Hf. congruence.
    + intros k Hk. apply Hsub.
      by apply (minimize_step_keys _ _ _ _ _ _ _ k H1).
    + intros u' Hu'.
      apply (minimize_step_keys _ _ _ _ _ _ _ u' H1).
      * intros ->. done.
      * apply Hin. by right.
Qed.

(** The visiting order is a shuffle of the keys that are not essential. *)
Lemma minimize_medium_unfold medium rand_c c_bound ess_ex w :
  ∃ uptakes g,
    NoDup uptakes
    ∧ (∀ u, u ∈ uptakes ↔ is_Some (medium !! u) ∧ u ∉ ess_ex)
    ∧ minimize_medium medium rand_c c_bound ess_ex w
        = for_each uptakes medium (minimize_step rand_c c_bound)
            (mkWorld (w_model w) g).
Proof.
  unfold minimize_medium.
  set (uptakes0 := elements (dom medium ∖ list_to_set ess_ex)).
  pose proof (random_shuffle_Permutation uptakes0 (w_rng w)) as Hperm.
  unfold bind at 1, rand.
  destruct (random_shuffle uptakes0 (w_rng w)) as [uptakes g] eqn:Es.
  cbn in Hperm. exists uptakes, g. split; [|split; [|done]].
  - rewrite Hperm. apply NoDup_elements.
  - intros u. rewrite Hperm. unfold uptakes0.
    rewrite elem_of_elements, elem_of_difference, elem_of_dom,
      elem_of_list_to_set. done.
Qed.

(** C4 (as amended).  [minimize_medium] never adds an uptake: the keys of
    the medium it returns are keys of its input.  Every essential
    exchange of the input medium is still present, and keeps its bound
    when it is not one of the chosen carbon sources (a chosen carbon
    source, essential or not, is rescaled when another one is removed).
    The call returns whenever the medium setter accepts the parts of the
    medium and the carbon counts are positive. *)
Theorem minimize_medium_monotone medium rand_c c_bound ess_ex w :
  (∀ medium' w',
     minimize_medium medium rand_c c_bound ess_ex w = (Ok medium', w') →
     dom medium' ⊆ dom medium
     ∧ ∀ e, e ∈ ess_ex → is_Some (medium !! e) →
            is_Some (medium' !! e)
            ∧ (rand_c !! e = None → medium' !! e = medium !! e))
  ∧ (map_Forall (λ _ c, 0 < c)%Q rand_c →
     (∀ med, (∀ k, is_Some (med !! k) → is_Some (medium !! k)) →
             ∃ model', model_set_medium med (w_model w) = Ok model') →
     ∃ medium' w',
       minimize_medium medium rand_c c_bound ess_ex w = (Ok medium', w')).
Proof.
  destruct (minimize_medium_unfold medium rand_c c_bound ess_ex w)
    as (uptakes & g & Hnd & Hel & ->).
  split.
  - intros medium' w' Hrun. split.
    + intros k Hk%elem_of_dom. apply elem_of_dom.
      by apply (minimize_loop_keys _ _ _ _ _ _ _ k Hrun).
    + intros e He Hs.
      assert (Hnin : e ∉ uptakes) by (rewrite Hel; tauto).
      pose proof (minimize_loop_keys _ _ _ _ _ _ _ e Hrun) as (_ & Hb & Hc).
      split; [by apply Hb | by apply Hc].
  - intros Hpos Hset.
    apply (minimize_loop_returns rand_c c_bound medium (w_model w));
      try done.
    intros u Hu. by apply Hel.
Qed.
End Minimize.

(** C4, as the claim states it: glucose is essential and enters the
    minimisation with the bound 1.67; removing fructose renormalises the
    carbon and glucose leaves with the bound 3.33. *)
Lemma minimize_medium_rescales_essential :
  ∃ medium' w',
    minimize_medium sampled_medium sampled_rand_c 20 ["EX_glc__D_e"]
      (mkWorld toy_ecoli [3; 1; 4]) = (Ok medium', w')
    ∧ sampled_medium !! "EX_glc__D_e" = Some (167 # 100)%Q
    ∧ medium' !! "EX_glc__D_e" = Some (333 # 100)%Q
    ∧ medium' !! "EX_glc__D_e" ≠ sampled_medium !! "EX_glc__D_e".
Proof.
  eexists _, _. split; [vm_compute; reflexivity|].
  repeat split; vm_compute; congruence.
Qed.

Lemma toy_set_medium_accepts (m : ToyModel) (med : Medium) :
  (∀ k, is_Some (med !! k) → k ∈ toy_exchanges m) →
  ∃ m', model_set_medium med m = Ok m'.
Proof.
  intros H. cbn. unfold toy_set_medium. rewrite decide_True; [by eexists|].
  apply Forall_forall. intros k Hk. by apply H, elem_of_keys.
Qed.

Lemma minimize_medium_monotone_witness :
  ∃ medium' w',
    minimize_medium sampled_medium {[ "EX_fru_e" := 6%Q ]} 20 ["EX_glc__D_e"]
      (mkWorld toy_ecoli [3; 1; 4]) = (Ok medium', w')
    ∧ dom medium' ⊆ dom sampled_medium
    ∧ ∀ e, e ∈ ["EX_glc__D_e"] → is_Some (sampled_medium !! e) →
           is_Some (medium' !! e)
           ∧ (({[ "EX_fru_e" := 6%Q ]} : Medium) !! e = None →
              medium' !! e = sampled_medium !! e).
Proof.
  destruct (minimize_medium_monotone (Model:=ToyModel) sampled_medium
              {[ "EX_fru_e" := 6%Q ]} 20 ["EX_glc__D_e"]
              (mkWorld toy_ecoli [3; 1; 4])) as [Hkeys Hret].
  destruct Hret as (medium' & w' & Hrun).
  - apply map_Forall_singleton. reflexivity.
  - intros med Hsub. apply toy_set_medium_accepts. intros k Hk.
    apply Hsub in Hk. unfold sampled_medium in Hk.
    destruct (decide (k = "EX_glc__D_e")) as [->|Hg]; [by left|].
    destruct (decide (k = "EX_fru_e")) as [->|Hf]; [right; by left|].
    rewrite lookup_insert_ne, lookup_singleton_ne in Hk by done.
    by destruct Hk.
  - exists medium', w'. split; [exact Hrun|]. exact (Hkeys medium' w' Hrun).
Defined.

(** ** Medium creation *)

Section Create.
Context {Model : Type} `{!Cobra Model}.
Implicit Types (w : World Model) (medium rand_c c_sources : Medium).

Lemma ask_Ok {A} (f : Model → A) w a w' :
  ask f w = (Ok a, w') → a = f (w_model w) ∧ w' = w.
Proof. unfold ask. by intros [= <- <-]. Qed.

(** The growth test at the end of a pass, read back from its result. *)
Lemma growth_test_Ok medium w (found : bool) w' :
  with_model (update (model_set_medium medium) ;;;
              growth_rate <- ask slim_optimize ;;
              ret (sustains_growth growth_rate)) w = (Ok found, w') →
  ∃ model', model_set_medium medium (w_model w) = Ok model'
            ∧ found = sustains_growth (slim_optimize model').
Proof.
  unfold with_model, bind, update, ask, ret.
  destruct (model_set_medium medium (w_model w)) as [model'| |]; [|done..].
  cbn. intros [= <- _]. by exists model'.
Qed.

Lemma create_medium_attempt_accepted c_sources c_bound ess_ex w
    medium rand_c (found : bool) w' :
  create_medium_attempt c_sources c_bound ess_ex w
    = (Ok (medium, rand_c, found), w') →
  ∃ model', model_set_medium medium (w_model w) = Ok model'
            ∧ found = sustains_growth (slim_optimize model').
Proof.
  unfold create_medium_attempt.
    intros (? & w1 & [-> ->]%ask_Ok & H)%bind_Ok.
  apply bind_Ok in H as (? & w2 & [-> ->]%ask_Ok & H).
  apply bind_Ok in H as (? & w3 & [-> ->]%ask_Ok & H).
  apply bind_Ok in H as (rand_ex & w4 & H4 & H).
  apply bind_Ok in H as (items & w5 & H5 & H).
  apply bind_Ok in H as (m6 & w6 & H6 & H).
  apply bind_Ok in H as (? & w7 & [-> ->]%ask_Ok & H).
  apply bind_Ok in H as (m8 & w8 & H8 & H).
  apply bind_Ok in H as (found' & w9 & H9 & H).
  inversion H; subst; clear H.
  apply growth_test_Ok in H9 as (model' & Hset & ->).
  exists model'. split; [|done].
  assert (Hw : w_model w8 = w_model w); [|by rewrite <- Hw].
  pose proof (frames_rand_try
    (random_sample (filter (λ e, e ∉ keys (filter (λ kv, kv.1 ∈ ess_ex)
                                           (model_medium (w_model w)))
                                    ++ keys c_sources)
                           (model_exchanges (w_model w)))
                   (min 3 (size c_sources))) w) as F4.
  rewrite H4 in F4. cbn in F4.
  pose proof (frames_rand_try
    (random_sample (map_to_list c_sources) (min 3 (size c_sources))) w4) as F5.
  rewrite H5 in F5. cbn in F5.
  unfold lift in H6. inversion H6; subst w6.
  destruct (decide _) in H8.
  - apply bind_Ok in H8 as (r & w10 & H10 & H8).
    pose proof (frames_rand random_random w5) as F10.
    rewrite H10 in F10. cbn in F10.
    inversion H8; subst. congruence.
  - inversion H8; subst. congruence.
Qed.

Lemma create_medium_accepted fuel c_sources c_bound ess_ex w medium rand_c w' :
  create_medium fuel c_sources c_bound ess_ex w = (Ok (medium, rand_c), w') →
  ∃ model', model_set_medium medium (w_model w) = Ok model'
            ∧ sustains_growth (slim_optimize model') = true.
Proof.
  revert w. induction fuel as [|fuel IH]; intros w; cbn [create_medium];
    [done|].
  intros ([[m rc] found] & w1 & Ha & H)%bind_Ok.
  destruct found.
  - inversion H; subst.
    apply create_medium_attempt_accepted in Ha as (model' & ? & ?).
    by exists model'.
  - apply IH in H as (model' & Hset & Hg).
    pose proof (frames_create_medium_attempt c_sources c_bound ess_ex w) as F.
    rewrite Ha in F. cbn in F. rewrite F in Hset. by exists model'.
Qed.

(** More passes do not change a result once there is one. *)
Lemma create_medium_fuel_mono fuel fuel' c_sources c_bound ess_ex w :
  (create_medium fuel c_sources c_bound ess_ex w).1 ≠ Diverge →
  fuel ≤ fuel' →
  create_medium fuel' c_sources c_bound ess_ex w
    = create_medium fuel c_sources c_bound ess_ex w.
Proof.
  revert fuel' w. induction fuel as [|fuel IH]; intros fuel' w; [done|].
  intros Hnd Hle. destruct fuel' as [|fuel']; [lia|].
  cbn [create_medium] in *. unfold bind in *.
  destruct (create_medium_attempt c_sources c_bound ess_ex w)
    as [[[[m rc] [|]]|e|] w1]; try done.
  apply IH; [done | lia].
Qed.

(** When every candidate is rejected, whatever the generator draws, no
    number of passes gives a result. *)
Lemma create_medium_never_accepted c_sources c_bound ess_ex model :
  (∀ g, ∃ medium rand_c w',
      create_medium_attempt c_sources c_bound ess_ex (mkWorld model g)
        = (Ok (medium, rand_c, false), w')) →
  ∀ fuel g,
    (create_medium fuel c_sources c_bound ess_ex (mkWorld model g)).1 = Diverge.
Proof.
  intros Hrej fuel. induction fuel as [|fuel IH]; intros g; [done|].
  cbn [create_medium]. unfold bind.
  destruct (Hrej g) as (m & rc & w' & Ha). rewrite Ha.
  pose proof (frames_create_medium_attempt c_sources c_bound ess_ex
                (mkWorld model g)) as F.
  rewrite Ha in F. cbn in F. destruct w' as [model' g']. cbn in F. subst.
  apply IH.
Qed.

(** After [n] rejected candidates one more pass is made, and the
    candidate it accepts is returned. *)
Lemma create_medium_after_rejected n c_sources c_bound ess_ex w w_n
    medium rand_c w' :
  after_rejected n c_sources c_bound ess_ex w = Some w_n →
  create_medium_attempt c_sources c_bound ess_ex w_n
    = (Ok (medium, rand_c, true), w') →
  ∀ fuel, n < fuel →
    create_medium fuel c_sources c_bound ess_ex w = (Ok (medium, rand_c), w').
Proof.
  revert w. induction n as [|n IH]; intros w; cbn [after_rejected].
  - intros [= <-] Ha fuel Hlt. destruct fuel as [|fuel]; [lia|].
    cbn [create_medium]. unfold bind. by rewrite Ha.
  - destruct (create_medium_attempt c_sources c_bound ess_ex w)
      as [[[[m rc] [|]]|e|] w1] eqn:E; try done.
    intros Hn Ha fuel Hlt. destruct fuel as [|fuel]; [lia|].
    cbn [create_medium]. unfold bind. rewrite E.
    apply (IH w1 Hn Ha). lia.
Qed.

(** A result is the candidate of the first pass that was not rejected. *)
Lemma create_medium_first_accepted fuel c_sources c_bound ess_ex w
    medium rand_c w' :
  create_medium fuel c_sources c_bound ess_ex w = (Ok (medium, rand_c), w') →
  ∃ n w_n, n < fuel
    ∧ after_rejected n c_sources c_bound ess_ex w = Some w_n
    ∧ create_medium_attempt c_sources c_bound ess_ex w_n
        = (Ok (medium, rand_c, true), w').
Proof.
  revert w. induction fuel as [|fuel IH]; intros w; cbn [create_medium];
    [done|].
  unfold bind.
  destruct (create_medium_attempt c_sources c_bound ess_ex w)
    as [[[[m rc] [|]]|e|] w1] eqn:E; try done.
  - intros [= <- <- <-]. exists 0, w. split; [lia|]. by split.
  - intros (n & w_n & Hlt & Hn & Ha)%IH.
    exists (S n), w_n. split; [lia|]. split; [|done].
    cbn [after_rejected]. by rewrite E.
Qed.

(** C6 (as amended).  [create_medium] has no retry ceiling and no failure
    report.  After any number of rejected candidates it draws a fresh one,
    and it returns the first candidate that the model accepts with a
    growth rate above 0.1, however many draws that took: a result is that
    candidate, and more passes do not change it.  When every candidate is
    rejected it gives no result within any number of passes. *)
Theorem create_medium_no_retry_ceiling c_sources c_bound ess_ex w :
  (∀ n w_n medium rand_c w',
     after_rejected n c_sources c_bound ess_ex w = Some w_n →
     create_medium_attempt c_sources c_bound ess_ex w_n
       = (Ok (medium, rand_c, true), w') →
     ∀ fuel, n < fuel →
       create_medium fuel c_sources c_bound ess_ex w
         = (Ok (medium, rand_c), w'))
  ∧ (∀ fuel medium rand_c w',
       create_medium fuel c_sources c_bound ess_ex w
         = (Ok (medium, rand_c), w') →
       (∃ n w_n, n < fuel
          ∧ after_rejected n c_sources c_bound ess_ex w = Some w_n
          ∧ create_medium_attempt c_sources c_bound ess_ex w_n
              = (Ok (medium, rand_c, true), w'))
       ∧ (∃ model', model_set_medium medium (w_model w) = Ok model'
                    ∧ sustains_growth (slim_optimize model') = true)
       ∧ ∀ fuel', fuel ≤ fuel' →
           create_medium fuel' c_sources c_bound ess_ex w
             = (Ok (medium, rand_c), w'))
  ∧ ((∀ g, ∃ medium rand_c w',
        create_medium_attempt c_sources c_bound ess_ex (mkWorld (w_model w) g)
          = (Ok (medium, rand_c, false), w')) →
     ∀ fuel, (create_medium fuel c_sources c_bound ess_ex w).1 = Diverge).
Proof.
  split; [|split].
  - intros n w_n medium rand_c w'. apply create_medium_after_rejected.
  - intros fuel medium rand_c w' H. split; [|split].
    + by apply create_medium_first_accepted.
    + by apply create_medium_accepted in H.
    + intros fuel' Hle. rewrite <- H.
      apply create_medium_fuel_mono; [by rewrite H | done].
  - intros Hrej fuel. destruct w as [model g].
    by apply create_medium_never_accepted.
Qed.
End Create.

(** The starved model rejects every candidate. *)
Lemma toy_starved_rejects (g : Rng) :
  ∃ medium rand_c w',
    create_medium_attempt {[ "EX_fru_e" := 6%Q ]} 120 [] (mkWorld toy_starved g)
      = (Ok (medium, rand_c, false), w').
Proof.
  destruct g as [|x [|y g]]; eexists _, _, _; vm_compute; reflexivity.
Qed.

(** C6, as the claim states it: on a model that cannot grow there is no
    number of passes after which [create_medium] stops, with a failure
    report or otherwise. *)
Lemma create_medium_retries_forever :
  ¬ ∃ cap : nat,
      (create_medium cap {[ "EX_fru_e" := 6%Q ]} 120 []
         (mkWorld toy_starved [2; 7; 1; 8])).1 ≠ Diverge.
Proof.
  intros [cap H]. apply H.
  apply (create_medium_never_accepted (Model:=ToyModel)).
  apply toy_starved_rejects.
Qed.

Lemma create_medium_no_retry_ceiling_witness :
  (after_rejected 1 {[ "EX_fru_e" := 6%Q ]} 120 []
     (mkWorld toy_ecoli [1; 0; 0; 0; 0; 0])
     = Some (mkWorld toy_ecoli [0; 0; 0])
   ∧ (create_medium 1 {[ "EX_fru_e" := 6%Q ]} 120 []
        (mkWorld toy_ecoli [1; 0; 0; 0; 0; 0])).1 = Diverge
   ∧ ∀ fuel, 1 < fuel →
       create_medium fuel {[ "EX_fru_e" := 6%Q ]} 120 []
         (mkWorld toy_ecoli [1; 0; 0; 0; 0; 0])
       = (Ok ({[ "EX_o2_e" := 20%Q; "EX_glc__D_e" := 10%Q;
                 "EX_fru_e" := (2000 # 100)%Q ]},
              {[ "EX_fru_e" := 6%Q ]}),
          mkWorld toy_ecoli []))
  ∧ (∃ medium rand_c w' model',
       create_medium 1 {[ "EX_glc__D_e" := 6%Q ]} 120 ["EX_glc__D_e"]
         (mkWorld toy_ecoli [2; 7; 1; 8]) = (Ok (medium, rand_c), w')
       ∧ model_set_medium medium toy_ecoli = Ok model'
       ∧ sustains_growth (slim_optimize model') = true
       ∧ create_medium 5 {[ "EX_glc__D_e" := 6%Q ]} 120 ["EX_glc__D_e"]
           (mkWorld toy_ecoli [2; 7; 1; 8]) = (Ok (medium, rand_c), w'))
  ∧ ∀ fuel,
      (create_medium fuel {[ "EX_fru_e" := 6%Q ]} 120 []
         (mkWorld toy_starved [2; 7; 1; 8])).1 = Diverge.
Proof.
  split; [|split].
  - pose proof (create_medium_no_retry_ceiling (Model:=ToyModel)
      {[ "EX_fru_e" := 6%Q ]} 120 []
      (mkWorld toy_ecoli [1; 0; 0; 0; 0; 0])) as [Hretry _].
    assert (Hrej : after_rejected 1 {[ "EX_fru_e" := 6%Q ]} 120 []
                     (mkWorld toy_ecoli [1; 0; 0; 0; 0; 0])
                   = Some (mkWorld toy_ecoli [0; 0; 0]))
      by (vm_compute; reflexivity).
    split; [exact Hrej|]. split; [vm_compute; reflexivity|].
    apply (Hretry 1 _ _ _ _ Hrej). vm_compute. reflexivity.
  - pose proof (create_medium_no_retry_ceiling (Model:=ToyModel)
      {[ "EX_glc__D_e" := 6%Q ]} 120 ["EX_glc__D_e"]
      (mkWorld toy_ecoli [2; 7; 1; 8])) as (_ & Hret & _).
    destruct (create_medium 1 {[ "EX_glc__D_e" := 6%Q ]} 120 ["EX_glc__D_e"]
                (mkWorld toy_ecoli [2; 7; 1; 8])) as [[[medium rand_c]|e|] w'] eqn:E;
      [|vm_compute in E; discriminate..].
    destruct (Hret 1 medium rand_c w' E) as (_ & (model' & Hset & Hg) & Hmono).
    exists medium, rand_c, w', model'.
    split; [reflexivity|]. split; [exact Hset|]. split; [exact Hg|].
    apply Hmono. lia.
  - apply (create_medium_no_retry_ceiling (Model:=ToyModel)
      {[ "EX_fru_e" := 6%Q ]} 120 [] (mkWorld toy_starved [2; 7; 1; 8])).
    apply toy_starved_rejects.
Defined.
(** ** Models outside the baseline table *)

Lemma dict_get_KeyError {V} (d : list (string * V)) (k : string) :
  k ∉ d.*1 → dict_get d k = Raise KeyError.
Proof.
  induction d as [|[k' v] d IH]; cbn; [done|].
  intros [Hne Hnin]%not_elem_of_cons.
  rewrite decide_False by done. by apply IH.
Qed.

Section UnknownModel.
Context {Model : Type} `{!Cobra Model}.
Implicit Types (w : World Model).

Lemma is_carbon_source_KeyError uptake w :
  model_id (w_model w) ∉ init_c.*1 →
  is_carbon_source uptake w = (Raise KeyError, w).
Proof.
  intros Hid. unfold is_carbon_source, bind, ask, lift.
  by rewrite dict_get_KeyError.
Qed.

(** The loop of [find_c_sources] over exchanges none of which carries
    carbon: [is_carbon_source] is not called. *)
Lemma find_c_sources_loop_no_carbon exchanges (c_sources : Medium) w :
  (∀ e, e ∈ exchanges → truthy (exchange_carbon (w_model w) e) = None) →
  for_each exchanges c_sources (λ (c_sources : Medium) uptake,
    count_c <- ask (λ m, exchange_carbon m uptake) ;;
    match truthy count_c with
    | None => ret c_sources
    | Some c =>
        b <- is_carbon_source uptake ;;
        ret (if b then <[uptake := c]> c_sources else c_sources)
    end) w = (Ok c_sources, w).
Proof.
  induction exchanges as [|e es IH]; intros Hno; cbn; [done|].
  unfold bind at 1. unfold bind at 1, ask at 1. cbn.
  rewrite (Hno e) by left. cbn. apply IH. intros e' He'. apply Hno. by right.
Qed.

Lemma find_c_sources_loop_KeyError exchanges (c_sources : Medium) w :
  model_id (w_model w) ∉ init_c.*1 →
  (∃ e, e ∈ exchanges ∧ is_Some (truthy (exchange_carbon (w_model w) e))) →
  for_each exchanges c_sources (λ (c_sources : Medium) uptake,
    count_c <- ask (λ m, exchange_carbon m uptake) ;;
    match truthy count_c with
    | None => ret c_sources
    | Some c =>
        b <- is_carbon_source uptake ;;
        ret (if b then <[uptake := c]> c_sources else c_sources)
    end) w = (Raise KeyError, w).
Proof.
  intros Hid. induction exchanges as [|e es IH]; intros (e' & Hin & Hc).
  - by apply elem_of_nil in Hin.
  - cbn. unfold bind at 1. unfold bind at 1, ask at 1. cbn.
    destruct (truthy (exchange_carbon (w_model w) e)) as [c|] eqn:Ec.
    + unfold bind. by rewrite is_carbon_source_KeyError.
    + cbn. apply IH. exists e'. split; [|done].
      apply elem_of_cons in Hin as [->|Hin]; [|done].
      rewrite Ec in Hc. by destruct Hc.
Qed.

(** C10 (as amended).  For a model whose id is not one of the six ids of
    the baseline table, [is_carbon_source] raises [KeyError] for every
    candidate uptake.  [find_c_sources] and [find_minimal_media] raise it
    as well when the model has an exchange whose metabolite has a
    non-zero carbon count, since the first such exchange is the first
    call of [is_carbon_source]; for a model without one
    [is_carbon_source] is never called and [find_c_sources] returns the
    empty dictionary. *)
Theorem unknown_model_KeyError (model : Model) :
  model_id model ∉ init_c.*1 →
  (∀ uptake g,
     is_carbon_source uptake (mkWorld model g)
       = (Raise KeyError, mkWorld model g))
  ∧ ((∃ e, e ∈ model_exchanges model
           ∧ is_Some (truthy (exchange_carbon model e))) →
     (∀ g, find_c_sources (mkWorld model g)
             = (Raise KeyError, mkWorld model g))
     ∧ ∀ fuel models amount g,
         (find_minimal_media fuel (model :: models) amount g).1.1
           = Raise KeyError)
  ∧ ((∀ e, e ∈ model_exchanges model →
           truthy (exchange_carbon model e) = None) →
     ∀ g, find_c_sources (mkWorld model g) = (Ok ∅, mkWorld model g)).
Proof.
  intros Hid. split; [|split].
  - intros uptake g. by apply is_carbon_source_KeyError.
  - intros Hc.
    assert (Hf : ∀ g, find_c_sources (mkWorld model g)
                        = (Raise KeyError, mkWorld model g)).
    { intros g. unfold find_c_sources. unfold bind at 1, ask at 1. cbn.
      by apply find_c_sources_loop_KeyError. }
    split; [exact Hf|].
    intros fuel models amount g. unfold find_minimal_media.
    cbn [find_minimal_media_from]. unfold minimal_media_of_model.
    unfold bind at 1. by rewrite Hf.
  - intros Hno g. unfold find_c_sources. unfold bind at 1, ask at 1. cbn.
    by apply find_c_sources_loop_no_carbon.
Qed.
End UnknownModel.

(** C10, as the claim states it: a model with an id outside the table and
    no exchange that carries carbon goes through [find_c_sources] and
    through the whole of [find_minimal_media] without a [KeyError]. *)
Lemma carbon_free_model_no_KeyError :
  (toy_id toy_carbon_free ∉ init_c.*1)
  ∧ (find_c_sources (mkWorld toy_carbon_free [2; 7; 1; 8])).1 = Ok ∅
  ∧ ∃ minimal_media,
      (find_minimal_media 1 [toy_carbon_free] 1 [2; 7; 1; 8]).1.1
        = Ok minimal_media
      ∧ (find_minimal_media 1 [toy_carbon_free] 1 [2; 7; 1; 8]).1.1
        ≠ Raise KeyError.
Proof.
  split; [|split].
  - vm_compute. intros H. repeat (apply elem_of_cons in H as [H|H]; [discriminate|]).
    by apply elem_of_nil in H.
  - vm_compute. reflexivity.
  - eexists. split; [vm_compute; reflexivity|]. vm_compute. discriminate.
Qed.

Lemma unknown_model_KeyError_witness :
  (toy_id toy_unknown ∉ init_c.*1)
  ∧ (∀ uptake g,
       is_carbon_source uptake (mkWorld toy_unknown g)
         = (Raise KeyError, mkWorld toy_unknown g))
  ∧ ∀ fuel models amount g,
      (find_minimal_media fuel (toy_unknown :: models) amount g).1.1
        = Raise KeyError.
Proof.
  assert (Hid : model_id toy_unknown ∉ init_c.*1).
  { vm_compute. intros H.
    repeat (apply elem_of_cons in H as [H|H]; [discriminate|]).
    by apply elem_of_nil in H. }
  pose proof (unknown_model_KeyError toy_unknown Hid) as (H1 & H2 & _).
  split; [exact Hid|]. split; [exact H1|].
  apply H2. exists "EX_glc__D_e". split; [by left | by eexists].
Defined.

(** ** Merging the pfba and fva frames *)

Lemma outcome_bind_Ok {A B} (o : Outcome A) (k : A → Outcome B) (b : B) :
  outcome_bind o k = Ok b ↔ ∃ a, o = Ok a ∧ k a = Ok b.
Proof.
  split.
  - destruct o as [a| |]; [|done..]. intros H. by exists a.
  - intros (a & -> & H). done.
Qed.

Lemma dict_alter_keys {V} (f : V → V) (k : string) (d : list (string * V)) :
  (dict_alter f k d).*1 = d.*1.
Proof.
  induction d as [|[k' v] d IH]; cbn; [done|].
  destruct (decide (k' = k)); cbn; [done | by rewrite IH].
Qed.

Lemma dict_get_alter {V} (f : V → V) (k k' : string) (d : list (string * V)) :
  dict_get (dict_alter f k d) k' =
    if decide (k = k') then outcome_bind (dict_get d k') (λ v, Ok (f v))
    else dict_get d k'.
Proof.
  induction d as [|[k0 v] d IH]; cbn.
  - by destruct (decide _).
  - destruct (decide (k0 = k)) as [->|Hne]; cbn.
    + by destruct (decide (k = k')) as [->|Hne'].
    + destruct (decide (k0 = k')) as [->|Hne'].
      * by rewrite decide_False.
      * exact IH.
Qed.

Lemma dict_get_elem_of {V} (d : list (string * V)) (k : string) (v : V) :
  NoDup d.*1 → (k, v) ∈ d → dict_get d k = Ok v.
Proof.
  induction d as [|[k' v'] d IH]; cbn; intros Hnd Hin.
  - by apply elem_of_nil in Hin.
  - apply NoDup_cons in Hnd as [Hk Hnd].
    apply elem_of_cons in Hin as [[= <- <-]|Hin].
    + by rewrite decide_True.
    + rewrite decide_False; [by apply IH|].
      intros ->. apply Hk. apply list_elem_of_fmap. by exists (k, v).
Qed.

Lemma dict_get_Ok_key {V} (d : list (string * V)) (k : string) (v : V) :
  dict_get d k = Ok v → (k, v) ∈ d.
Proof.
  induction d as [|[k' v'] d IH]; cbn; [done|].
  destruct (decide (k' = k)) as [->|Hne].
  - intros [= ->]. by left.
  - intros H. right. by apply IH.
Qed.

(** Altering along a list of distinct keys. *)
Lemma dict_get_alter_all {V} (f : V → V) (ks : list string)
    (d : list (string * V)) (k : string) (v : V) :
  NoDup ks → dict_get d k = Ok v →
  dict_get (fold_left (λ d k, dict_alter f k d) ks d) k
    = Ok (if decide (k ∈ ks) then f v else v).
Proof.
  revert d v. induction ks as [|k0 ks IH]; intros d v Hnd Hget; cbn.
  - by rewrite decide_False by apply not_elem_of_nil.
  - apply NoDup_cons in Hnd as [Hk0 Hnd].
    destruct (decide (k0 = k)) as [->|Hne].
    + rewrite (IH _ (f v)); [|done|].
      * rewrite decide_False by done. by rewrite decide_True by left.
      * by rewrite dict_get_alter, decide_True, Hget.
    + rewrite (IH _ v); [|done|].
      * destruct (decide (k ∈ ks)) as [Hin|Hnin].
        -- by rewrite decide_True by by right.
        -- rewrite decide_False; [done|].
           intros [?|?]%elem_of_cons; congruence.
      * by rewrite dict_get_alter, decide_False.
Qed.

(** The tagging loop runs over the zipped keys: each side is altered along
    the keys the zip reaches. *)
Lemma tag_frames_split (ks : list (string * string))
    (pfba_dfs fva_dfs : list (string * list FluxRow)) :
  fold_left
    (λ dfs k12,
       (dict_alter (tag_from_fva false) k12.1 dfs.1,
        dict_alter (tag_from_fva true) k12.2 dfs.2))
    ks (pfba_dfs, fva_dfs)
  = (fold_left (λ d k, dict_alter (tag_from_fva false) k d) ks.*1 pfba_dfs,
     fold_left (λ d k, dict_alter (tag_from_fva true) k d) ks.*2 fva_dfs).
Proof.
  revert pfba_dfs fva_dfs. induction ks as [|[k1 k2] ks IH]; intros p f; cbn;
    [done|]. apply IH.
Qed.

Lemma fold_alter_keys {V} (f : V → V) (ks : list string) (d : list (string * V)) :
  (fold_left (λ d k, dict_alter f k d) ks d).*1 = d.*1.
Proof.
  revert d. induction ks as [|k ks IH]; intros d; cbn; [done|].
  by rewrite IH, dict_alter_keys.
Qed.

Lemma tag_frames_keys (pfba_dfs fva_dfs : list (string * list FluxRow)) :
  (tagged_frames pfba_dfs fva_dfs).1.*1 = pfba_dfs.*1
  ∧ (tagged_frames pfba_dfs fva_dfs).2.*1 = fva_dfs.*1.
Proof.
  unfold tagged_frames. rewrite tag_frames_split. cbn.
  by rewrite !fold_alter_keys.
Qed.

(** A first loop that does not raise has tagged the frames. *)
Lemma dict_alter_try_Ok (b : bool) (k : string)
    (d d' : list (string * list FluxRow)) :
  dict_alter_try (tag_frame b) k d = Ok d' →
  d' = dict_alter (tag_from_fva b) k d.
Proof.
  revert d'. induction d as [|[k' v] d IH]; intros d'; cbn; [done|].
  destruct (decide (k' = k)).
  - destruct v as [|r v]; cbn; [done|]. by intros [= <-].
  - intros (d'' & Hd & [= <-])%outcome_bind_Ok. by rewrite (IH d'' Hd).
Qed.

Lemma tag_frames_Ok (pfba_dfs fva_dfs p' f' : list (string * list FluxRow)) :
  tag_frames pfba_dfs fva_dfs = Ok (p', f') →
  tagged_frames pfba_dfs fva_dfs = (p', f').
Proof.
  unfold tag_frames, tagged_frames.
  generalize (zip pfba_dfs.*1 fva_dfs.*1). intros ks.
  revert pfba_dfs fva_dfs. induction ks as [|[k1 k2] ks IH]; intros p f; cbn.
  - by intros [= <- <-].
  - intros (p1 & Hp & H)%outcome_bind_Ok.
    apply outcome_bind_Ok in H as (f1 & Hf & H).
    apply dict_alter_try_Ok in Hp as ->. apply dict_alter_try_Ok in Hf as ->.
    by apply IH.
Qed.

(** With no more pfba frames than fva frames, every pfba frame is
    tagged. *)
Lemma tag_frames_pfba (pfba_dfs fva_dfs : list (string * list FluxRow))
    (k : string) (df : list FluxRow) :
  NoDup pfba_dfs.*1 → length pfba_dfs ≤ length fva_dfs →
  (k, df) ∈ pfba_dfs →
  dict_get (tagged_frames pfba_dfs fva_dfs).1 k = Ok (tag_from_fva false df).
Proof.
  intros Hnd Hlen Hin. unfold tagged_frames. rewrite tag_frames_split. cbn.
  rewrite fst_zip by (rewrite !length_fmap; lia).
  rewrite (dict_get_alter_all _ _ _ k df Hnd (dict_get_elem_of _ _ _ Hnd Hin)).
  rewrite decide_True; [done|]. apply list_elem_of_fmap. by exists (k, df).
Qed.

Lemma fill_frames_Ok (ks : list string)
    (pfba_dfs fva_dfs flux_dfs : list (string * list FluxRow)) :
  fill_frames ks pfba_dfs fva_dfs = Ok flux_dfs →
  Forall2 (λ k kv, kv.1 = k ∧ ∃ p f, dict_get pfba_dfs k = Ok p
                                     ∧ dict_get fva_dfs k = Ok f
                                     ∧ kv.2 = fillna_flux p f)
          ks flux_dfs.
Proof.
  revert flux_dfs. induction ks as [|k ks IH]; intros flux_dfs; cbn.
  - intros [= <-]. constructor.
  - intros (p & Hp & H)%outcome_bind_Ok.
    apply outcome_bind_Ok in H as (f & Hf & H).
    apply outcome_bind_Ok in H as (rest & Hrest & [= <-]).
    constructor; [|by apply IH]. split; [done|]. by exists p, f.
Qed.

Lemma add_organism_Ok (organism_dict : list (string * string))
    (flux_dfs : list (string * list FluxRow))
    (tables : list (list FluxRecord)) :
  add_organism organism_dict flux_dfs = Ok tables →
  Forall2 (λ kv table, ∃ organism,
             dict_get organism_dict kv.1 = Ok organism
             ∧ table = map (λ r, mkFluxRecord (fr_flux r) (fr_from_fva r)
                                   organism (fr_index r)) kv.2)
          flux_dfs tables.
Proof.
  revert tables. induction flux_dfs as [|[k df] flux_dfs IH]; intros tables; cbn.
  - intros [= <-]. constructor.
  - intros (organism & Ho & H)%outcome_bind_Ok.
    apply outcome_bind_Ok in H as (rest & Hrest & [= <-]).
    constructor; [|by apply IH]. by exists organism.
Qed.

Lemma fillna_flux_length (df other : list FluxRow) :
  length (fillna_flux df other) = length df.
Proof. unfold fillna_flux. by rewrite length_map. Qed.

Lemma tag_from_fva_length (b : bool) (df : list FluxRow) :
  length (tag_from_fva b df) = length df.
Proof. unfold tag_from_fva. by rewrite length_map. Qed.

(** A cell that has a value keeps it. *)
Lemma fillna_flux_keeps (df other : list FluxRow) (i : nat) (r : string)
    (v : Q) (b : bool) :
  df !! i = Some (mkFluxRow r (Some v) (Some b)) →
  fillna_flux df other !! i = Some (mkFluxRow r (Some v) (Some b)).
Proof.
  intros H. unfold fillna_flux. rewrite list_lookup_fmap, H. cbn.
  by destruct (List.find _ other).
Qed.

Lemma tag_pfba_lookup (pfba_df : list (string * option Q)) (i : nat)
    (r : string) (v : Q) :
  pfba_df !! i = Some (r, Some v) →
  tag_from_fva false (flux_column pfba_df) !! i
    = Some (mkFluxRow r (Some v) (Some false)).
Proof.
  intros H. unfold tag_from_fva, flux_column.
  by rewrite !list_lookup_fmap, H.
Qed.

(** Where the rows of a model end up in the merged frame. *)
Lemma merge_fluxes_frame (organism_dict : list (string * string))
    (pfba_dfs fva_dfs : list (string * list (string * option Q)))
    (flux_df : list FluxRecord) (k : string)
    (pfba_df : list (string * option Q)) :
  NoDup pfba_dfs.*1 →
  merge_fluxes organism_dict pfba_dfs fva_dfs = Ok flux_df →
  (k, pfba_df) ∈ pfba_dfs →
  ∃ fva_df organism,
    dict_get organism_dict k = Ok organism
    ∧ ∀ row, row ∈ fillna_flux (tag_from_fva false (flux_column pfba_df)) fva_df →
             is_Some (fr_flux row) → is_Some (fr_from_fva row) →
             mkFluxRecord (fr_flux row) (fr_from_fva row) organism (fr_index row)
               ∈ flux_df.
Proof.
  intros Hnd. unfold merge_fluxes.
  set (p := map (λ kv, (kv.1, flux_column kv.2)) pfba_dfs).
  set (f := map (λ kv, (kv.1, flux_column kv.2)) fva_dfs).
  assert (Hpk : p.*1 = pfba_dfs.*1).
  { unfold p. rewrite <- list_fmap_compose. by apply list_fmap_ext. }
  destruct (tag_frames p f) as [[p' f']| |] eqn:Et0; [|done..].
  pose proof (tag_frames_Ok _ _ _ _ Et0) as Et. cbn [outcome_bind].
  pose proof (tag_frames_keys p f) as [Hk1 Hk2]. rewrite Et in Hk1, Hk2.
  cbn in Hk1, Hk2.
  intros (flux_dfs & Hfill & H)%outcome_bind_Ok.
  apply outcome_bind_Ok in H as (tables & Horg & H).
  apply outcome_bind_Ok in H as (rows & Hrows & [= <-]).
  assert (rows = concat tables) as ->
    by (destruct tables; [done | by inversion Hrows]).
  clear Hrows.
  intros Hin.
  apply fill_frames_Ok in Hfill. apply add_organism_Ok in Horg.
  (* every pfba key is an fva key, so the zip reaches every pfba table *)
  assert (Hlen : length p ≤ length f).
  { rewrite <- (length_fmap fst p), <- (length_fmap fst f).
    apply submseteq_length, NoDup_submseteq; [by rewrite Hpk|].
    intros x Hx. rewrite <- Hk1 in Hx.
    apply list_elem_of_lookup in Hx as [j Hj].
    destruct (Forall2_lookup_l _ _ _ _ _ Hfill Hj) as (kv & _ & _ & pk & fk & _ & Hfk & _).
    apply dict_get_Ok_key in Hfk. rewrite <- Hk2.
    apply list_elem_of_fmap. by exists (x, fk). }
  assert (Hinp : (k, flux_column pfba_df) ∈ p).
  { unfold p. apply list_elem_of_fmap. by exists (k, pfba_df). }
  pose proof (tag_frames_pfba p f k _ ltac:(by rewrite Hpk) Hlen Hinp) as Htag.
  rewrite Et in Htag. cbn in Htag.
  assert (Hkin : k ∈ p'.*1).
  { rewrite Hk1. apply list_elem_of_fmap. by exists (k, flux_column pfba_df). }
  apply list_elem_of_lookup in Hkin as [j Hj].
  destruct (Forall2_lookup_l _ _ _ _ _ Hfill Hj)
    as ([k' df] & Hdf & Hk' & pk & fk & Hpk' & Hfk & Hdfeq).
  cbn in Hk', Hdfeq. subst k'. rewrite Htag in Hpk'. inversion Hpk'; subst pk.
  destruct (Forall2_lookup_l _ _ _ _ _ Horg Hdf)
    as (table & Htable & organism & Ho & Hfeq).
  cbn in Ho, Hfeq.
  exists fk, organism. split; [done|].
  intros row Hrow Hs1 Hs2. unfold dropna_flux.
  apply list_elem_of_filter. split; [done|].
  apply list_elem_of_In, in_concat. exists table. split.
  - apply list_elem_of_In. by apply list_elem_of_lookup_2 in Htable.
  - apply list_elem_of_In. rewrite Hfeq, Hdfeq.
    apply list_elem_of_fmap. by exists row.
Qed.

(** C2.  If the parsimonious pass resolved a flux for a reaction of a
    model, the per-model merge keeps exactly that value at the row of the
    reaction and tags it [from_fva = False], whatever the fva tables hold
    for the reaction; and the row is in the table [merge_fluxes] returns,
    with the organism of the model. *)
Theorem merge_fluxes_keeps_pfba (organism_dict : list (string * string))
    (pfba_dfs fva_dfs : list (string * list (string * option Q)))
    (flux_df : list FluxRecord) (k : string)
    (pfba_df : list (string * option Q)) (i : nat) (reaction : string) (v : Q) :
  NoDup pfba_dfs.*1 →
  merge_fluxes organism_dict pfba_dfs fva_dfs = Ok flux_df →
  (k, pfba_df) ∈ pfba_dfs →
  pfba_df !! i = Some (reaction, Some v) →
  (∀ fva_df,
     merge_model pfba_df fva_df !! i
       = Some (mkFluxRow reaction (Some v) (Some false)))
  ∧ ∃ organism,
      dict_get organism_dict k = Ok organism
      ∧ mkFluxRecord (Some v) (Some false) organism reaction ∈ flux_df.
Proof.
  intros Hnd Hmerge Hin Hi. split.
  - intros fva_df. unfold merge_model.
    by apply fillna_flux_keeps, tag_pfba_lookup.
  - destruct (merge_fluxes_frame _ _ _ _ _ _ Hnd Hmerge Hin)
      as (fva_df & organism & Ho & Hrows).
    exists organism. split; [done|].
    apply (Hrows (mkFluxRow reaction (Some v) (Some false))); [|by eexists..].
    apply list_elem_of_lookup. exists i.
    by apply fillna_flux_keeps, tag_pfba_lookup.
Qed.

(** Tagging changes no frame length and no key. *)
Lemma dict_alter_tag_Forall2 (b : bool) (k : string)
    (d0 d : list (string * list FluxRow)) :
  Forall2 (λ kv kv', kv.1 = kv'.1 ∧ length kv.2 = length kv'.2) d0 d →
  Forall2 (λ kv kv', kv.1 = kv'.1 ∧ length kv.2 = length kv'.2)
          d0 (dict_alter (tag_from_fva b) k d).
Proof.
  induction 1 as [|[k0 v0] [k' v] d0 d [Hk Hl] Hrest IH]; cbn; [constructor|].
  cbn in Hk, Hl. destruct (decide (k' = k)).
  - constructor; [|done]. cbn. by rewrite tag_from_fva_length.
  - constructor; [done | apply IH].
Qed.

Lemma fold_alter_tag_Forall2 (b : bool) (ks : list string)
    (d0 d : list (string * list FluxRow)) :
  Forall2 (λ kv kv', kv.1 = kv'.1 ∧ length kv.2 = length kv'.2) d0 d →
  Forall2 (λ kv kv', kv.1 = kv'.1 ∧ length kv.2 = length kv'.2)
          d0 (fold_left (λ d k, dict_alter (tag_from_fva b) k d) ks d).
Proof.
  revert d. induction ks as [|k ks IH]; intros d H; cbn; [done|].
  by apply IH, dict_alter_tag_Forall2.
Qed.

Lemma list_sum_Forall2 {A B} (f : A → nat) (g : B → nat) (l : list A) (k : list B) :
  Forall2 (λ a b, f a = g b) l k → list_sum (map f l) = list_sum (map g k).
Proof.
  induction 1 as [|a b l k Hab _ IH]; unfold list_sum in *; cbn in *; [done|].
  by rewrite Hab, IH.
Qed.

(** The merged frame has at most as many rows as the pfba frames have
    together. *)
Lemma merge_fluxes_length (organism_dict : list (string * string))
    (pfba_dfs fva_dfs : list (string * list (string * option Q)))
    (flux_df : list FluxRecord) :
  NoDup pfba_dfs.*1 →
  merge_fluxes organism_dict pfba_dfs fva_dfs = Ok flux_df →
  length flux_df ≤ list_sum (map (λ kv, length kv.2) pfba_dfs).
Proof.
  intros Hnd. unfold merge_fluxes.
  set (p := map (λ kv, (kv.1, flux_column kv.2)) pfba_dfs).
  set (f := map (λ kv, (kv.1, flux_column kv.2)) fva_dfs).
  assert (Hpk : p.*1 = pfba_dfs.*1).
  { unfold p. rewrite <- list_fmap_compose. by apply list_fmap_ext. }
  destruct (tag_frames p f) as [[p' f']| |] eqn:Et0; [|done..].
  pose proof (tag_frames_Ok _ _ _ _ Et0) as Et. cbn [outcome_bind].
  pose proof (tag_frames_keys p f) as [Hk1 _]. rewrite Et in Hk1. cbn in Hk1.
  assert (Hpp' : Forall2 (λ kv kv', kv.1 = kv'.1 ∧ length kv.2 = length kv'.2) p p').
  { unfold tagged_frames in Et. rewrite tag_frames_split in Et.
    inversion Et; subst p'. apply fold_alter_tag_Forall2.
    apply Forall_Forall2_diag, Forall_forall. done. }
  intros (flux_dfs & Hfill & H)%outcome_bind_Ok.
  apply outcome_bind_Ok in H as (tables & Horg & H).
  apply outcome_bind_Ok in H as (rows & Hrows & [= <-]).
  assert (rows = concat tables) as ->
    by (destruct tables; [done | by inversion Hrows]).
  clear Hrows.
  apply fill_frames_Ok in Hfill. apply add_organism_Ok in Horg.
  unfold dropna_flux. etrans; [apply length_filter|].
  rewrite length_concat.
  rewrite (list_sum_Forall2 length (λ kv : string * list (string * option Q),
                                      length kv.2) tables pfba_dfs); [done|].
  apply Forall2_same_length_lookup. split.
  - rewrite <- (Forall2_length _ _ _ Horg), <- (Forall2_length _ _ _ Hfill).
    by rewrite Hk1, Hpk, length_fmap.
  - intros j table [k0 df0] Htable Hdf0.
    destruct (Forall2_lookup_r _ _ _ _ _ Horg Htable)
      as ([k df] & Hdf & organism & _ & ->).
    rewrite length_map. cbn.
    destruct (Forall2_lookup_r _ _ _ _ _ Hfill Hdf)
      as (k' & Hk' & Hkeq & pk & fk & Hpk' & _ & Hdfeq).
    cbn in Hkeq, Hdfeq. subst k' df. rewrite fillna_flux_length.
    rewrite list_lookup_fmap in Hk'.
    destruct (p' !! j) as [[k1 v1]|] eqn:Ep'; [|done].
    cbn in Hk'. inversion Hk'; subst k1.
    assert (Hv1 : pk = v1).
    { apply list_elem_of_lookup_2 in Ep'.
      rewrite (dict_get_elem_of p' k v1) in Hpk'; [by inversion Hpk'| |done].
      by rewrite Hk1, Hpk. }
    subst v1.
    destruct (Forall2_lookup_r _ _ _ _ _ Hpp' Ep') as ([k2 v2] & Hp & _ & Hl).
    cbn in Hl. rewrite <- Hl.
    unfold p in Hp. rewrite list_lookup_fmap, Hdf0 in Hp. cbn in Hp.
    inversion Hp. unfold flux_column. by rewrite length_map.
Qed.

Lemma example_merge :
  merge_fluxes example_organisms example_pfba_dfs example_fva_dfs
    = Ok example_flux_df.
Proof. vm_compute. reflexivity. Qed.

Lemma merge_fluxes_keeps_pfba_witness :
  (∀ fva_df,
     merge_model [("PGI", Some (1 # 2)%Q); ("PFK", None)] fva_df !! 0
       = Some (mkFluxRow "PGI" (Some (1 # 2)%Q) (Some false)))
  ∧ ∃ organism,
      dict_get example_organisms "iECO111_1330" = Ok organism
      ∧ mkFluxRecord (Some (1 # 2)%Q) (Some false) organism "PGI"
          ∈ example_flux_df.
Proof.
  apply (merge_fluxes_keeps_pfba example_organisms example_pfba_dfs
           example_fva_dfs example_flux_df "iECO111_1330").
  - apply (bool_decide_unpack _). vm_compute. reflexivity.
  - vm_compute. reflexivity.
  - by left.
  - reflexivity.
Defined.

(** ** Processing the fluxes *)



Lemma suppress_lookup_below (tolerance : Q) (col : list (option Q)) (i : nat)
    (m : Q) :
  col !! i = Some (Some m) → (m < tolerance)%Q →
  suppress tolerance col !! i = Some None.
Proof.
  intros H Hlt. unfold suppress. rewrite list_lookup_fmap, H. cbn.
  by rewrite (proj2 (Qltb_lt _ _) Hlt).
Qed.

Lemma suppress_lookup_Some (tolerance : Q) (col : list (option Q)) (i : nat)
    (v : Q) :
  suppress tolerance col !! i = Some (Some v) →
  col !! i = Some (Some v) ∧ (tolerance <= v)%Q.
Proof.
  unfold suppress. rewrite list_lookup_fmap.
  destruct (col !! i) as [[x|]|]; cbn; [|done..].
  destruct (Qltb x tolerance) eqn:E; [done|].
  intros [= ->]. split; [done|]. by apply Qltb_ge.
Qed.

(** Normalising a column resolves nothing that was missing. *)
Lemma normalize_column_lookup_None (norm : Q) (col : list (option Q)) (i : nat) :
  col !! i = Some None → normalize_column norm col !! i = Some None.
Proof.
  intros H. unfold normalize_column.
  destruct (nan_mean col) as [mean|]; [destruct (Qeq_bool mean 0)|];
    rewrite list_lookup_fmap, H; done.
Qed.


Lemma length_normalize_column (norm : Q) (col : list (option Q)) :
  length (normalize_column norm col) = length col.
Proof.
  unfold normalize_column.
  destruct (nan_mean col) as [mean|]; [destruct (Qeq_bool mean 0)|];
    by rewrite length_map.
Qed.






(** Values below the tolerance enter the fva mean: a frame whose fluxes
    are all far below the tolerance comes out resolved from an fva pass,
    the values being normalised before the tolerance is applied to their
    mean, and missing from the pfba pass. *)
Lemma process_fluxes_fva_counts_low_values :
  (∃ v1 v2,
     process_fluxes tiny_flux_frame toy_ecoli 1 false
       = [("PGI", Some v1); ("PFK", Some v2)]
     ∧ (v1 == 1 # 2)%Q ∧ (v2 == 3 # 2)%Q)
  ∧ process_fluxes tiny_flux_frame toy_ecoli 1 true
    = [("PGI", None); ("PFK", None)].
Proof.
  split; [|vm_compute; reflexivity].
  eexists _, _. split; [vm_compute; reflexivity|]. split; reflexivity.
Qed.


(** ** Mapping kcat values to fluxes *)

Lemma insert_sorted_Permutation {A} (le : A → A → bool) (x : A) (l : list A) :
  insert_sorted le x l ≡ₚ x :: l.
Proof.
  induction l as [|y l IH]; cbn; [done|].
  destruct (le x y); [done|]. rewrite IH. apply Permutation_swap.
Qed.

Lemma sort_by_Permutation {A} (le : A → A → bool) (l : list A) :
  sort_by le l ≡ₚ l.
Proof.
  unfold sort_by. induction l as [|x l IH]; cbn; [done|].
  by rewrite insert_sorted_Permutation, IH.
Qed.

Lemma cells_kept_refl (r : MapRow) : cells_kept r r.
Proof. by repeat split. Qed.

Lemma cells_kept_trans (r1 r2 r3 : MapRow) :
  cells_kept r1 r2 → cells_kept r2 r3 → cells_kept r1 r3.
Proof.
  intros (?&?&?&?&?&?&?) (?&?&?&?&?&?&?).
  repeat split; try congruence; eauto.
Qed.

Lemma fill_cell_keeps {A} (x y : option A) (a : A) :
  x = Some a → fill_cell x y = Some a.
Proof. by intros ->. Qed.

Section MappingFacts.
Variable log10 : Q → Q.
Variable taxonomy : string → option (list string).
Implicit Types (r : MapRow) (flux_df : list FluxLine).

Lemma fill_row_kept key groups b r : cells_kept r (fill_row key groups b r).
Proof.
  unfold fill_row. destruct (List.find _ groups) as [g|];
    [|apply cells_kept_refl].
  repeat split; cbn; intros; by apply fill_cell_keeps.
Qed.

Lemma fill_level_row_kept flux_df i r :
  cells_kept r (fill_level_row flux_df i r).
Proof.
  unfold fill_level_row.
  eapply cells_kept_trans; apply fill_row_kept.
Qed.

Lemma fill_inexact_row_kept flux_df r :
  cells_kept r (fill_inexact_row flux_df r).
Proof.
  unfold fill_inexact_row.
  eapply cells_kept_trans; apply fill_row_kept.
Qed.

Lemma fill_levels_row_kept flux_df levels r :
  cells_kept r (fill_levels_row flux_df levels r).
Proof.
  unfold fill_levels_row. revert r.
  induction levels as [|i levels IH]; intros r; cbn;
    [apply cells_kept_refl|].
  eapply cells_kept_trans; [apply fill_level_row_kept | apply IH].
Qed.

Lemma fill_levels_row_app flux_df earlier later r :
  fill_levels_row flux_df (earlier ++ later) r
    = fill_levels_row flux_df later (fill_levels_row flux_df earlier r).
Proof. unfold fill_levels_row. apply fold_left_app. Qed.

(** Up to the order of the rows, which [sort_index] changes at every
    level, the lineage mapping works row by row. *)
Lemma lineage_step_rows flux_df exact_df i :
  lineage_step flux_df exact_df i ≡ₚ map (fill_level_row flux_df i) exact_df.
Proof.
  unfold lineage_step. apply Permutation_map, sort_by_Permutation.
Qed.

Lemma lineage_mapping_rows levels flux_df exact_df :
  lineage_mapping levels flux_df exact_df
    ≡ₚ map (fill_levels_row flux_df levels) exact_df.
Proof.
  unfold lineage_mapping, fill_levels_row. revert exact_df.
  induction levels as [|i levels IH]; intros exact_df; cbn.
  - by rewrite map_id.
  - rewrite IH, lineage_step_rows, map_map. done.
Qed.

Lemma map_kcat_with_levels_rows levels kcat_df (flux_df : list FluxRecord) :
  let lines := flux_lines log10 taxonomy flux_df in
  map_kcat_with_levels log10 taxonomy levels kcat_df flux_df
    ≡ₚ dropna_map
         (map (λ r, fill_inexact_row lines (fill_levels_row lines levels r))
              (left_merge kcat_df lines)).
Proof.
  intros lines. unfold map_kcat_with_levels, dropna_map. fold lines.
  apply filter_Permutation.
  rewrite lineage_mapping_rows, map_map. done.
Qed.

Lemma map_kcat_with_levels_length levels kcat_df (flux_df : list FluxRecord) :
  length (map_kcat_with_levels log10 taxonomy levels kcat_df flux_df)
    ≤ length (left_merge kcat_df (flux_lines log10 taxonomy flux_df)).
Proof.
  rewrite (Permutation_length (map_kcat_with_levels_rows _ _ _)).
  unfold dropna_map. etrans; [apply length_filter|].
  by rewrite length_map.
Qed.

(** The left join has one row for every pair of a kcat record and a
    matching flux row, and one row for a kcat record without a match. *)
Lemma left_merge_length kcat_df flux_df :
  length (left_merge kcat_df flux_df)
    = list_sum
        (map (λ k, max 1 (length
                (filter (λ f, BiGG_ID (fl_record f) = k_BiGG_ID k
                              ∧ ORGANISM (fl_record f) = k_ORGANISM k)
                        flux_df)))
             kcat_df).
Proof.
  unfold left_merge. rewrite length_flat_map. f_equal.
  apply map_ext. intros k.
  destruct (filter _ flux_df) as [|f fs]; [done|].
  rewrite length_map. cbn. lia.
Qed.

(** C1 (as amended).  The lineage mapping of [map_kcat_to_fluxes] runs
    over the levels 3, 2 and 1, in this order; level 0 is not among
    them.  Up to the order of the rows the mapping works row by row, and
    every step, of a lineage level or of the inexact mapping, fills
    missing cells only: a cell that has a value after the levels run so
    far has the same value after the remaining levels and after the
    inexact mapping. *)
Theorem lineage_mapping_keeps_closest (kcat_df : list KcatRecord)
    (flux_df : list FluxRecord) :
  let lines := flux_lines log10 taxonomy flux_df in
  lineage_levels = [3; 2; 1]
  ∧ map_kcat_to_fluxes log10 taxonomy kcat_df flux_df
      ≡ₚ dropna_map
           (map (λ r, fill_inexact_row lines
                        (fill_levels_row lines lineage_levels r))
                (left_merge kcat_df lines))
  ∧ ∀ earlier later r,
      earlier ++ later = lineage_levels →
      cells_kept (fill_levels_row lines earlier r)
                 (fill_inexact_row lines
                    (fill_levels_row lines lineage_levels r)).
Proof.
  intros lines. split; [done|]. split.
  - apply map_kcat_with_levels_rows.
  - intros earlier later r <-. rewrite fill_levels_row_app.
    eapply cells_kept_trans;
      [apply fill_levels_row_kept | apply fill_inexact_row_kept].
Qed.
End MappingFacts.

(** C1, as the claim states it: level 0 is not processed.  The kcat record
    and the yeast flux agree at level 0, where the group average is 1; the
    code runs the levels 3, 2, 1 and the record is left to the inexact
    mapping, which gives it the average 50.5 over all organisms.  A
    mapping over the levels 3 to 0 gives 1. *)
Lemma lineage_level_0_not_processed :
  (0 ∉ lineage_levels)
  ∧ map m_flux (map_kcat_to_fluxes log10_example taxonomy_example
                  example_kcat_df distant_flux_df)
    = [Some (101 # 2)%Q]
  ∧ map m_flux (map_kcat_with_levels log10_example taxonomy_example
                  [3; 2; 1; 0] example_kcat_df distant_flux_df)
    = [Some 1%Q].
Proof.
  split; [|split; vm_compute; reflexivity].
  vm_compute. intros H.
  repeat (apply elem_of_cons in H as [H|H]; [discriminate|]).
  by apply elem_of_nil in H.
Qed.

Example lineage_mapping_closest_first :
  map m_flux (map_kcat_to_fluxes log10_example taxonomy_example
                example_kcat_df close_flux_df)
    = [Some 1%Q].
Proof. vm_compute. reflexivity. Qed.

Lemma lineage_mapping_keeps_closest_witness :
  cells_kept
    (fill_levels_row (flux_lines log10_example taxonomy_example close_flux_df)
       [3] unmatched_row)
    (fill_inexact_row (flux_lines log10_example taxonomy_example close_flux_df)
       (fill_levels_row (flux_lines log10_example taxonomy_example close_flux_df)
          lineage_levels unmatched_row)).
Proof.
  apply (lineage_mapping_keeps_closest log10_example taxonomy_example
           example_kcat_df close_flux_df) with (later := [2; 1]).
  reflexivity.
Defined.

Lemma length_filter_fmap {A B} (P : B → Prop) `{!∀ x, Decision (P x)}
    (g : A → B) (l : list A) :
  length (filter P (map g l)) = length (filter (λ a, P (g a)) l).
Proof.
  induction l as [|a l IH]; [done|]. cbn [map].
  rewrite !filter_cons. destruct (decide (P (g a))); cbn [length]; by rewrite IH.
Qed.

(** C7 (as amended).  The mapped frame is built on the kcat records by a
    left join: it has at most one row for every pair of a kcat record and a
    flux row with its reaction id and organism, and one row for a kcat
    record without such a flux row; the row count of the flux frame does
    not bound it.  The merged flux frame has at most as many rows as the
    pfba frames of the models have together. *)
Theorem row_counts_shrink (log10 : Q → Q)
    (taxonomy : string → option (list string))
    (kcat_df : list KcatRecord)
    (organism_dict : list (string * string))
    (pfba_dfs fva_dfs : list (string * list (string * option Q)))
    (flux_df : list FluxRecord) :
  NoDup pfba_dfs.*1 →
  merge_fluxes organism_dict pfba_dfs fva_dfs = Ok flux_df →
  length (map_kcat_to_fluxes log10 taxonomy kcat_df flux_df)
    ≤ list_sum
        (map (λ k, max 1 (length
                (filter (λ f, BiGG_ID f = k_BiGG_ID k
                              ∧ ORGANISM f = k_ORGANISM k) flux_df)))
             kcat_df)
  ∧ length flux_df ≤ list_sum (map (λ kv, length kv.2) pfba_dfs).
Proof.
  intros Hnd Hmerge. split.
  - unfold map_kcat_to_fluxes.
    etrans; [exact (map_kcat_with_levels_length log10 taxonomy lineage_levels
                      kcat_df flux_df)|].
    rewrite left_merge_length. apply Nat.eq_le_incl. f_equal.
    apply map_ext. intros k. unfold flux_lines.
    by rewrite (length_filter_fmap
      (λ f, BiGG_ID (fl_record f) = k_BiGG_ID k
            ∧ ORGANISM (fl_record f) = k_ORGANISM k)).
  - by apply merge_fluxes_length with organism_dict fva_dfs.
Qed.

(** C7, as the claim states it: the flux frame has one row, and both kcat
    records are filled from it by the inexact mapping, so the mapped frame
    has two rows. *)
Lemma mapped_frame_outgrows_flux_frame :
  merge_fluxes one_flux_organisms one_flux_pfba_dfs one_flux_fva_dfs
    = Ok one_flux_df
  ∧ length one_flux_df = 1
  ∧ length (map_kcat_to_fluxes log10_example taxonomy_example
              two_kcat_df one_flux_df) = 2
  ∧ ¬ length (map_kcat_to_fluxes log10_example taxonomy_example
                two_kcat_df one_flux_df) ≤ length one_flux_df.
Proof.
  split; [vm_compute; reflexivity|]. split; [reflexivity|].
  split; [vm_compute; reflexivity|]. vm_compute. lia.
Qed.

Lemma row_counts_shrink_witness :
  length (map_kcat_to_fluxes log10_example taxonomy_example
            two_kcat_df one_flux_df)
    ≤ list_sum
        (map (λ k, max 1 (length
                (filter (λ f, BiGG_ID f = k_BiGG_ID k
                              ∧ ORGANISM f = k_ORGANISM k) one_flux_df)))
             two_kcat_df)
  ∧ length one_flux_df
      ≤ list_sum (map (λ kv, length kv.2) one_flux_pfba_dfs).
Proof.
  apply (row_counts_shrink log10_example taxonomy_example two_kcat_df
           one_flux_organisms one_flux_pfba_dfs one_flux_fva_dfs one_flux_df).
  - apply (bool_decide_unpack _). vm_compute. reflexivity.
  - vm_compute. reflexivity.
Defined.

(* ===================================================================== *)
(** * Part III: further properties *)

(** ** More on the carbon sources *)

Lemma truthy_Some (count_c : option Q) (c : Q) :
  truthy count_c = Some c ↔ count_c = Some c ∧ ¬ (c == 0)%Q.
Proof.
  unfold truthy. destruct count_c as [x|]; [|split; [done | by intros [? _]]].
  destruct (Qeq_bool x 0) eqn:E.
  - apply Qeq_bool_eq in E. split; [done|]. intros [[= ->] Hnz]. by destruct Hnz.
  - apply Qeq_bool_neq in E. split.
    + intros [= <-]. done.
    + by intros [[= ->] _].
Qed.

Section CarbonSources.
Context {Model : Type} `{!Cobra Model}.
Implicit Types (w : World Model) (c_sources : Medium).

(** A baseline carbon source is one without asking the solver. *)
Lemma is_carbon_source_baseline uptake w baseline :
  dict_get init_c (model_id (w_model w)) = Ok baseline →
  uptake ∈ baseline →
  is_carbon_source uptake w = (Ok true, w).
Proof.
  intros Hb Hin. unfold is_carbon_source, bind, ask, lift. rewrite Hb.
  by rewrite decide_True.
Qed.

(** What the loop of [find_c_sources] has collected when it ends. *)
Lemma find_c_sources_loop exchanges (acc : Medium) w c_sources w' :
  for_each exchanges acc (λ (c_sources : Medium) uptake,
    count_c <- ask (λ m, exchange_carbon m uptake) ;;
    match truthy count_c with
    | None => ret c_sources
    | Some c =>
        b <- is_carbon_source uptake ;;
        ret (if b then <[uptake := c]> c_sources else c_sources)
    end) w = (Ok c_sources, w') →
  (∀ k c, c_sources !! k = Some c →
          acc !! k = Some c
          ∨ (k ∈ exchanges ∧ truthy (exchange_carbon (w_model w) k) = Some c))
  ∧ (∀ k c, acc !! k = Some c →
            truthy (exchange_carbon (w_model w) k) = Some c →
            c_sources !! k = Some c)
  ∧ (∀ k c baseline,
       dict_get init_c (model_id (w_model w)) = Ok baseline →
       k ∈ baseline → k ∈ exchanges →
       truthy (exchange_carbon (w_model w) k) = Some c →
       c_sources !! k = Some c).
Proof.
  revert acc w. induction exchanges as [|u us IH]; intros acc w; cbn.
  - intros [= <- <-]. split; [by left|]. split; [done|].
    intros k c baseline _ _ Hin. by apply elem_of_nil in Hin.
  - intros (acc1 & w1 & H1 & H)%bind_Ok.
    apply bind_Ok in H1 as (count_c & w0 & [-> ->]%ask_Ok & H1).
    assert (Hw1 : w_model w1 = w_model w).
    { destruct (truthy _) in H1.
      - apply bind_Ok in H1 as (b & w2 & Hb & H1).
        pose proof (frames_is_carbon_source u w) as F. rewrite Hb in F.
        cbn in F. inversion H1; subst. done.
      - by inversion H1. }
    apply IH in H as (Ha & Hb & Hc). rewrite Hw1 in Ha, Hb, Hc.
    destruct (truthy (exchange_carbon (w_model w) u)) as [c0|] eqn:Eu.
    + apply bind_Ok in H1 as (b & w2 & Hcs & H1).
      inversion H1; subst acc1 w2; clear H1.
      split; [|split].
      * intros k c Hk. apply Ha in Hk as [Hk|[Hin Ht]].
        -- destruct b; [|by left].
           destruct (decide (u = k)) as [->|Hne].
           ++ rewrite lookup_insert_eq in Hk. inversion Hk; subst.
              right. split; [by left | done].
           ++ rewrite lookup_insert_ne in Hk by done. by left.
        -- right. split; [by right | done].
      * intros k c Hk Ht. apply Hb; [|done]. destruct b; [|done].
        destruct (decide (u = k)) as [->|Hne].
        -- rewrite lookup_insert_eq. congruence.
        -- by rewrite lookup_insert_ne.
      * intros k c baseline Hbase Hkb Hin Ht.
        apply elem_of_cons in Hin as [->|Hin]; [|by eapply Hc].
        rewrite (is_carbon_source_baseline u w baseline Hbase Hkb) in Hcs.
        inversion Hcs; subst b. apply Hb; [|done].
        rewrite lookup_insert_eq. congruence.
    + inversion H1; subst acc1 w1; clear H1.
      split; [|split].
      * intros k c Hk. apply Ha in Hk as [Hk|[Hin Ht]]; [by left|].
        right. split; [by right | done].
      * done.
      * intros k c baseline Hbase Hkb Hin Ht.
        apply elem_of_cons in Hin as [->|Hin]; [congruence | by eapply Hc].
Qed.

(** X1.  What [find_c_sources] returns maps exchanges of the model to the
    carbon-atom counts of their metabolites, none of them zero; and every
    baseline carbon source of the model that is an exchange carrying
    carbon is among them. *)
Theorem find_c_sources_sound w c_sources w' :
  find_c_sources w = (Ok c_sources, w') →
  (∀ k c, c_sources !! k = Some c →
          k ∈ model_exchanges (w_model w)
          ∧ exchange_carbon (w_model w) k = Some c
          ∧ ¬ (c == 0)%Q)
  ∧ (∀ k c baseline,
       dict_get init_c (model_id (w_model w)) = Ok baseline →
       k ∈ baseline → k ∈ model_exchanges (w_model w) →
       exchange_carbon (w_model w) k = Some c → ¬ (c == 0)%Q →
       c_sources !! k = Some c).
Proof.
  unfold find_c_sources.
  intros (exchanges & w0 & [-> ->]%ask_Ok & H)%bind_Ok.
  apply find_c_sources_loop in H as (Ha & _ & Hc). split.
  - intros k c Hk. apply Ha in Hk as [Hk|[Hin Ht]]; [done|].
    apply truthy_Some in Ht as [? ?]. done.
  - intros k c baseline Hbase Hkb Hin Hcarbon Hnz.
    apply (Hc k c baseline); try done. by apply truthy_Some.
Qed.
End CarbonSources.

Lemma find_c_sources_sound_witness :
  ∃ c_sources w',
    find_c_sources (mkWorld toy_ecoli []) = (Ok c_sources, w')
    ∧ (∀ k c, c_sources !! k = Some c →
              k ∈ toy_exchanges toy_ecoli
              ∧ toy_carbon toy_ecoli !! k = Some c
              ∧ ¬ (c == 0)%Q)
    ∧ (∀ k c baseline,
         dict_get init_c (toy_id toy_ecoli) = Ok baseline →
         k ∈ baseline → k ∈ toy_exchanges toy_ecoli →
         toy_carbon toy_ecoli !! k = Some c → ¬ (c == 0)%Q →
         c_sources !! k = Some c).
Proof.
  assert (∃ c_sources w',
            find_c_sources (mkWorld toy_ecoli []) = (Ok c_sources, w'))
    as (c_sources & w' & E) by (vm_compute; by do 2 eexists).
  exists c_sources, w'. split; [exact E|].
  exact (find_c_sources_sound (Model:=ToyModel) (mkWorld toy_ecoli [])
           c_sources w' E).
Defined.

(** ** find_c_bound *)





Section CarbonBound.
Context {Model : Type} `{!Cobra Model}.

End CarbonBound.

(** ** More on medium creation *)

Lemma choose_submseteq {A} (k : nat) (l : list A) (g : Rng) :
  (choose k l g).1 ⊆+ l.
Proof.
  revert l g. induction k as [|k IH]; intros l g; cbn [choose].
  - apply submseteq_nil_l.
  - destruct (draw g) as [x g1].
    destruct (l !! (x mod length l)) as [a|] eqn:Ea;
      [|apply submseteq_nil_l].
    specialize (IH (delete (x mod length l) l) g1).
    destruct (choose k _ g1) as [rest g2]. cbn in *.
    rewrite (delete_Permutation l _ a Ea). by apply submseteq_skip.
Qed.

Lemma choose_length {A} (k : nat) (l : list A) (g : Rng) :
  k ≤ length l → length (choose k l g).1 = k.
Proof.
  revert l g. induction k as [|k IH]; intros l g Hk; cbn [choose]; [done|].
  destruct (draw g) as [x g1].
  assert (Hlt : x mod length l < length l)
    by (apply Nat.mod_upper_bound; lia).
  destruct (lookup_lt_is_Some_2 l _ Hlt) as [a Ha]. rewrite Ha.
  specialize (IH (delete (x mod length l) l) g1).
  destruct (choose k _ g1) as [rest g2]. cbn in *.
  rewrite IH; [done|]. rewrite length_delete by by eexists. lia.
Qed.

Lemma random_sample_Ok {A} (population : list A) (k : nat) (g : Rng)
    (l : list A) (g' : Rng) :
  random_sample population k g = (Ok l, g') →
  l ⊆+ population ∧ length l = k.
Proof.
  unfold random_sample. destruct (decide _) as [Hk|]; [|done].
  pose proof (choose_submseteq k population g).
  pose proof (choose_length k population g Hk).
  destruct (choose k population g) as [l0 g0]. by intros [= <- <-].
Qed.

Lemma random_sample_too_large {A} (population : list A) (k : nat) (g : Rng) :
  length population < k →
  random_sample population k g = (Raise ValueError, g).
Proof. intros H. unfold random_sample. rewrite decide_False; [done | lia]. Qed.

Section CreateMore.
Context {Model : Type} `{!Cobra Model}.
Implicit Types (w : World Model) (medium rand_c c_sources : Medium).

(** What a pass draws as carbon sources. *)
Lemma create_medium_attempt_rand_c c_sources c_bound ess_ex w
    medium rand_c (found : bool) w' :
  create_medium_attempt c_sources c_bound ess_ex w
    = (Ok (medium, rand_c, found), w') →
  ∃ items, items ⊆+ map_to_list c_sources
           ∧ length items = min 3 (size c_sources)
           ∧ rand_c = list_to_map items.
Proof.
  unfold create_medium_attempt.
  intros (? & w1 & [-> ->]%ask_Ok & H)%bind_Ok.
  apply bind_Ok in H as (? & w2 & [-> ->]%ask_Ok & H).
  apply bind_Ok in H as (? & w3 & [-> ->]%ask_Ok & H).
  apply bind_Ok in H as (rand_ex & w4 & H4 & H).
  apply bind_Ok in H as (items & w5 & H5 & H).
  apply bind_Ok in H as (m6 & w6 & H6 & H).
  apply bind_Ok in H as (? & w7 & [-> ->]%ask_Ok & H).
  apply bind_Ok in H as (m8 & w8 & H8 & H).
  apply bind_Ok in H as (found' & w9 & H9 & H).
  inversion H; subst; clear H.
  unfold rand_try in H5.
  destruct (random_sample (map_to_list c_sources) _ (w_rng w4))
    as [o g] eqn:Es.
  inversion H5; subst o. apply random_sample_Ok in Es as [Hsub Hlen].
  by exists items.
Qed.

Lemma sampled_items_map (c_sources : Medium) (items : list (string * Q)) :
  items ⊆+ map_to_list c_sources →
  (list_to_map items : Medium) ⊆ c_sources
  ∧ size (list_to_map items : Medium) = length items.
Proof.
  intros Hsub.
  assert (Hnd : NoDup items.*1).
  { assert (Hfst : items.*1 ⊆+ (map_to_list c_sources).*1)
      by by apply fmap_submseteq.
    apply submseteq_Permutation in Hfst as [rest Hperm].
    pose proof (NoDup_fst_map_to_list c_sources) as Hall.
    rewrite Hperm in Hall. by apply NoDup_app in Hall as [? _]. }
  split.
  - apply map_subseteq_spec. intros k c Hk.
    apply elem_of_list_to_map in Hk; [|done].
    apply elem_of_map_to_list. eapply elem_of_submseteq; done.
  - by apply map_size_list_to_map.
Qed.

(** What a pass draws as other exchanges, and what it makes of them. *)
Lemma create_medium_attempt_rand_ex c_sources c_bound ess_ex w
    medium rand_c (found : bool) w' :
  create_medium_attempt c_sources c_bound ess_ex w
    = (Ok (medium, rand_c, found), w') →
  ∃ rand_ex,
    rand_ex ⊆+ filter (λ e, e ∉ keys (filter (λ kv : string * Q, kv.1 ∈ ess_ex)
                                        (model_medium (w_model w)))
                              ++ keys c_sources)
                      (model_exchanges (w_model w))
    ∧ length rand_ex = min 3 (size c_sources)
    ∧ ∀ e, e ∈ rand_ex → e ≠ "EX_o2_e" → medium !! e = Some 10%Q.
Proof.
  unfold create_medium_attempt.
  intros (? & w1 & [-> ->]%ask_Ok & H)%bind_Ok.
  apply bind_Ok in H as (? & w2 & [-> ->]%ask_Ok & H).
  apply bind_Ok in H as (? & w3 & [-> ->]%ask_Ok & H).
  apply bind_Ok in H as (rand_ex & w4 & H4 & H).
  apply bind_Ok in H as (items & w5 & H5 & H).
  apply bind_Ok in H as (m6 & w6 & H6 & H).
  apply bind_Ok in H as (? & w7 & [-> ->]%ask_Ok & H).
  apply bind_Ok in H as (m8 & w8 & H8 & H).
  apply bind_Ok in H as (found' & w9 & H9 & H).
  inversion H; subst; clear H.
  unfold rand_try in H4, H5.
  destruct (random_sample _ _ (w_rng w)) as [o g] eqn:Ex.
  inversion H4; subst o. apply random_sample_Ok in Ex as [Hsub Hlen].
  destruct (random_sample (map_to_list c_sources) _ (w_rng w4))
    as [o' g'] eqn:Es.
  inversion H5; subst o'. apply random_sample_Ok in Es as [Hsubc _].
  destruct (sampled_items_map c_sources items Hsubc) as [Hrc _].
  exists rand_ex. split; [done|]. split; [done|].
  intros e He Ho2.
  assert (Hm8 : medium !! e = m6 !! e).
  { destruct (decide _) in H8.
    - apply bind_Ok in H8 as (r & w10 & _ & H8). inversion H8; subst.
      destruct (_ || _); by rewrite lookup_insert_ne.
    - by inversion H8. }
  rewrite Hm8. unfold lift in H6. inversion H6 as [[Hn Hw]].
  assert (Hnone : (list_to_map items : Medium) !! e = None).
  { destruct ((list_to_map items : Medium) !! e) as [c|] eqn:Ec; [|done].
    assert (Hin : e ∈ keys c_sources).
    { apply elem_of_keys. exists c.
      by apply (lookup_weaken _ _ _ _ Ec Hrc). }
    pose proof (elem_of_submseteq _ _ _ He Hsub) as Hf.
    apply list_elem_of_filter in Hf as [Hnin _].
    destruct Hnin. apply elem_of_app. by right. }
  rewrite (normalize_carbon_other _ _ _ _ e Hn Hnone), assign_all_lookup.
  rewrite decide_True; [done|]. apply elem_of_app. by left.
Qed.

(** X3.  [create_medium] draws as many exchanges outside the essential
    uptakes and the carbon sources as it draws carbon sources, three or
    as many as there are carbon sources: when the model has fewer of them
    the first pass raises [ValueError], whatever the generator does, and
    a medium that is returned holds that many of them, drawn without
    replacement, each with an uptake of 10 (oxygen apart, which is set
    afterwards). *)
Theorem create_medium_too_few_exchanges fuel c_sources c_bound ess_ex w :
  let exchanges :=
    filter (λ e, e ∉ keys (filter (λ kv : string * Q, kv.1 ∈ ess_ex)
                             (model_medium (w_model w)))
                   ++ keys c_sources)
           (model_exchanges (w_model w)) in
  (length exchanges < min 3 (size c_sources) →
   create_medium (S fuel) c_sources c_bound ess_ex w = (Raise ValueError, w))
  ∧ (∀ medium rand_c w',
       create_medium fuel c_sources c_bound ess_ex w
         = (Ok (medium, rand_c), w') →
       ∃ rand_ex,
         rand_ex ⊆+ exchanges
         ∧ length rand_ex = min 3 (size c_sources)
         ∧ ∀ e, e ∈ rand_ex → e ≠ "EX_o2_e" → medium !! e = Some 10%Q).
Proof.
  intros exchanges. split.
  - intros Hfew. cbn [create_medium]. unfold create_medium_attempt.
    unfold bind at 1. unfold bind at 1. unfold ask at 1. cbn.
    unfold bind at 1. unfold ask at 1. cbn.
    unfold bind at 1. unfold ask at 1. cbn.
    unfold bind at 1. unfold rand_try at 1.
    rewrite random_sample_too_large by exact Hfew. by destruct w.
  - subst exchanges. revert w.
    induction fuel as [|fuel IH]; intros w medium rand_c w';
      cbn [create_medium]; [done|].
    intros ([[m rc] found] & w1 & Ha & H)%bind_Ok.
    destruct found.
    + inversion H; subst.
      by apply create_medium_attempt_rand_ex in Ha.
    + pose proof (frames_create_medium_attempt c_sources c_bound ess_ex w) as F.
      rewrite Ha in F. cbn in F. rewrite <- F. by apply IH in H.
Qed.

(** X4.  The carbon sources [create_medium] returns with a medium are
    carbon sources it was given, with their carbon counts, and there are
    three of them or as many as there are. *)
Theorem create_medium_rand_c fuel c_sources c_bound ess_ex w medium rand_c w' :
  create_medium fuel c_sources c_bound ess_ex w = (Ok (medium, rand_c), w') →
  rand_c ⊆ c_sources ∧ size rand_c = min 3 (size c_sources).
Proof.
  revert w. induction fuel as [|fuel IH]; intros w; cbn [create_medium];
    [done|].
  intros ([[m rc] found] & w1 & Ha & H)%bind_Ok.
  destruct found; [|by apply IH in H].
  inversion H; subst.
  apply create_medium_attempt_rand_c in Ha as (items & Hsub & Hlen & ->).
  destruct (sampled_items_map c_sources items Hsub) as [? Hsize].
  split; [done|]. by rewrite Hsize.
Qed.
End CreateMore.

Lemma create_medium_too_few_exchanges_witness :
  create_medium 1 {[ "EX_glc__D_e" := 6%Q; "EX_fru_e" := 6%Q ]} 120
    ["EX_glc__D_e"; "EX_nh4_e"] (mkWorld toy_ecoli [2; 7; 1; 8])
  = (Raise ValueError, mkWorld toy_ecoli [2; 7; 1; 8]).
Proof.
  apply (create_medium_too_few_exchanges (Model:=ToyModel) 0).
  vm_compute. lia.
Defined.

Lemma create_medium_rand_c_witness :
  ∃ medium rand_c w',
    create_medium 1 {[ "EX_glc__D_e" := 6%Q; "EX_fru_e" := 6%Q ]} 120
      ["EX_glc__D_e"] (mkWorld toy_ecoli [2; 7; 1; 8])
      = (Ok (medium, rand_c), w')
    ∧ rand_c ⊆ ({[ "EX_glc__D_e" := 6%Q; "EX_fru_e" := 6%Q ]} : Medium)
    ∧ size rand_c
      = min 3 (size ({[ "EX_glc__D_e" := 6%Q; "EX_fru_e" := 6%Q ]} : Medium)).
Proof.
  assert (∃ medium rand_c w',
            create_medium 1 {[ "EX_glc__D_e" := 6%Q; "EX_fru_e" := 6%Q ]} 120
              ["EX_glc__D_e"] (mkWorld toy_ecoli [2; 7; 1; 8])
            = (Ok (medium, rand_c), w'))
    as (medium & rand_c & w' & E) by (vm_compute; by do 3 eexists).
  exists medium, rand_c, w'. split; [exact E|].
  exact (create_medium_rand_c (Model:=ToyModel) _ _ _ _ _ _ _ _ E).
Defined.

(** ** Growth on the media found *)

Section Growth.
Context {Model : Type} `{!Cobra Model}.
Implicit Types (w : World Model) (medium rand_c c_sources : Medium).

Lemma minimize_step_growth rand_c c_bound medium uptake w medium' w' :
  minimize_step rand_c c_bound medium uptake w = (Ok medium', w') →
  medium' = medium ∨ grows_on (w_model w) medium'.
Proof.
  unfold minimize_step.
  intros (m1 & w1 & Hpop & H)%bind_Ok.
  assert (w1 = w) as -> by (unfold lift in Hpop; by inversion Hpop).
  clear Hpop.
  apply bind_Ok in H as (m2 & w2 & Hnorm & H).
  assert (w2 = w) as ->.
  { destruct (decide _) in Hnorm; unfold lift, ret in Hnorm;
      by inversion Hnorm. }
  apply bind_Ok in H as (growth & w3 & Hg & H).
  destruct (sustains_growth growth) eqn:Eg; cbn in H; inversion H; subst;
    [|by left].
  right. unfold with_model, bind, update, ask in Hg.
  destruct (model_set_medium medium' (w_model w)) as [model'| |] eqn:Es;
    [|done..].
  cbn in Hg. inversion Hg; subst. by exists model'.
Qed.

Lemma minimize_loop_growth rand_c c_bound uptakes medium w medium' w' :
  for_each uptakes medium (minimize_step rand_c c_bound) w = (Ok medium', w') →
  medium' = medium ∨ grows_on (w_model w) medium'.
Proof.
  revert medium w. induction uptakes as [|u us IH]; intros medium w; cbn.
  - intros [= -> ->]. by left.
  - intros (m1 & w1 & H1 & H)%bind_Ok.
    pose proof (frames_minimize_step rand_c c_bound medium u w) as F.
    rewrite H1 in F. cbn in F.
    apply minimize_step_growth in H1. apply IH in H. rewrite F in H.
    destruct H as [->|H]; [done | by right].
Qed.

Lemma minimize_medium_growth medium rand_c c_bound ess_ex w medium' w' :
  minimize_medium medium rand_c c_bound ess_ex w = (Ok medium', w') →
  medium' = medium ∨ grows_on (w_model w) medium'.
Proof.
  unfold minimize_medium.
  intros (uptakes & w1 & H1 & H)%bind_Ok.
  pose proof (frames_rand (Model:=Model)
    (random_shuffle (elements (dom medium ∖ list_to_set ess_ex))) w) as F.
  rewrite H1 in F. cbn in F.
  apply minimize_loop_growth in H. by rewrite F in H.
Qed.

(** X5.  The medium [minimize_medium] returns is the medium it was given
    or one the model accepted and grew on above 0.1 during the
    minimisation: a removal that stops growth is never kept. *)
Theorem minimize_medium_sustains medium rand_c c_bound ess_ex w medium' w' :
  minimize_medium medium rand_c c_bound ess_ex w = (Ok medium', w') →
  medium' = medium ∨ grows_on (w_model w) medium'.
Proof. apply minimize_medium_growth. Qed.

Lemma frames_create_and_minimize fuel amount c_sources c_bound ess_ex :
  frames (create_and_minimize fuel amount c_sources c_bound ess_ex).
Proof.
  induction amount as [|amount IH]; cbn [create_and_minimize];
    [apply frames_ret|].
  apply frames_bind; [apply frames_create_medium|]. intros [medium rand_c].
  apply frames_bind; [apply frames_minimize_medium|]. intros medium'.
  apply frames_bind; [apply IH|]. intros rest. apply frames_ret.
Qed.

Lemma create_and_minimize_Ok fuel amount c_sources c_bound ess_ex w media w' :
  create_and_minimize fuel amount c_sources c_bound ess_ex w = (Ok media, w') →
  length media = amount ∧ Forall (grows_on (w_model w)) media.
Proof.
  revert w media. induction amount as [|amount IH]; intros w media;
    cbn [create_and_minimize].
  - by intros [= <- <-].
  - intros ([medium rand_c] & w1 & Hc & H)%bind_Ok.
    apply bind_Ok in H as (medium' & w2 & Hm & H).
    apply bind_Ok in H as (rest & w3 & Hr & H).
    inversion H; subst media w3; clear H.
    pose proof (frames_create_medium fuel c_sources c_bound ess_ex w) as F1.
    rewrite Hc in F1. cbn in F1.
    pose proof (frames_minimize_medium medium rand_c c_bound ess_ex w1) as F2.
    rewrite Hm in F2. cbn in F2.
    apply create_medium_accepted in Hc.
    apply minimize_medium_growth in Hm.
    apply IH in Hr as [Hlen Hall]. rewrite F2, F1 in Hall.
    split; [cbn; by rewrite Hlen|]. constructor; [|done].
    destruct Hm as [->|Hm]; [exact Hc | by rewrite <- F1].
Qed.

Lemma minimal_media_of_model_Ok fuel amount w id media w' :
  minimal_media_of_model fuel amount w = (Ok (id, media), w') →
  id = model_id (w_model w)
  ∧ length media = amount
  ∧ Forall (grows_on (w_model w)) media.
Proof.
  unfold minimal_media_of_model.
  intros (c_sources & w1 & H1 & H)%bind_Ok.
  apply bind_Ok in H as (c_bound & w2 & H2 & H).
  apply bind_Ok in H as (ess_ex & w3 & H3 & H).
  apply bind_Ok in H as (media' & w4 & H4 & H).
  apply bind_Ok in H as (id' & w5 & [-> ->]%ask_Ok & H).
  inversion H; subst; clear H.
  pose proof (frames_find_c_sources w) as F1. rewrite H1 in F1. cbn in F1.
  assert (w2 = w1) as ->.
  { unfold find_c_bound, bind, ask, ret in H2. by inversion H2. }
  pose proof (frames_find_essential_exc w1) as F3. rewrite H3 in F3.
  cbn in F3.
  pose proof (frames_create_and_minimize fuel amount c_sources c_bound
                ess_ex w3) as F4.
  rewrite H4 in F4. cbn in F4.
  apply create_and_minimize_Ok in H4 as [Hlen Hall].
  rewrite F3, F1 in Hall. rewrite F4, F3, F1. done.
Qed.

Lemma frames_minimal_media_of_model fuel amount :
  frames (minimal_media_of_model fuel amount).
Proof.
  unfold minimal_media_of_model. frame. apply frames_create_and_minimize.
Qed.

Lemma find_minimal_media_from_models fuel models amount
    (minimal_media : gmap string (list Medium)) g :
  (find_minimal_media_from fuel models amount minimal_media g).1.2 = models.
Proof.
  revert minimal_media g.
  induction models as [|model models IH]; intros acc g;
    cbn [find_minimal_media_from]; [done|].
  pose proof (frames_minimal_media_of_model fuel amount (mkWorld model g)) as F.
  destruct (minimal_media_of_model fuel amount (mkWorld model g))
    as [[item| |] w1]; cbn in F; subst model.
  - specialize (IH (<[item.1 := item.2]> acc) (w_rng w1)).
    destruct (find_minimal_media_from fuel models amount _ (w_rng w1))
      as [[o ms] g']. cbn in *. by rewrite IH.
  - done.
  - done.
Qed.

Lemma find_minimal_media_from_Ok fuel models amount
    (minimal_media result : gmap string (list Medium)) g :
  NoDup (model_id <$> models) →
  (find_minimal_media_from fuel models amount minimal_media g).1.1 = Ok result →
  (∀ model, model ∈ models →
     ∃ media, result !! model_id model = Some media
              ∧ length media = amount
              ∧ Forall (grows_on model) media)
  ∧ (∀ k, k ∉ model_id <$> models → result !! k = minimal_media !! k).
Proof.
  revert minimal_media g.
  induction models as [|model models IH]; intros acc g Hnd;
    cbn [find_minimal_media_from].
  - cbn. intros [= <-]. split; [|done]. intros model Hin.
    by apply elem_of_nil in Hin.
  - rewrite fmap_cons in Hnd. apply NoDup_cons in Hnd as [Hid Hnd].
    destruct (minimal_media_of_model fuel amount (mkWorld model g))
      as [[[id media]| |] w1] eqn:Em; [|done..].
    apply minimal_media_of_model_Ok in Em as (-> & Hlen & Hall). cbn in *.
    specialize (IH (<[model_id model := media]> acc) (w_rng w1) Hnd).
    destruct (find_minimal_media_from fuel models amount _ (w_rng w1))
      as [[o ms] g']. cbn in *.
    intros ->. destruct (IH eq_refl) as [Hmodels Hother]. split.
    + intros model' [->|Hin]%elem_of_cons; [|by apply Hmodels].
      exists media. rewrite (Hother _ Hid), lookup_insert_eq. done.
    + intros k Hk. apply not_elem_of_cons in Hk as [Hne Hk].
      rewrite (Hother k Hk). by rewrite lookup_insert_ne.
Qed.

(** X6.  [find_minimal_media] hands every model back as it received it,
    whether it returns, raises or runs out of passes. *)
Theorem find_minimal_media_restores_models fuel models amount g :
  (find_minimal_media fuel models amount g).1.2 = models.
Proof. apply find_minimal_media_from_models. Qed.

(** X7.  When [find_minimal_media] returns, the result has an entry for
    the id of every model and for nothing else; for models with distinct
    ids the entry of a model holds [amount] media, and the model accepts
    each of them and grows on it above 0.1. *)
Theorem find_minimal_media_sustain fuel models amount g
    (minimal_media : gmap string (list Medium)) :
  NoDup (model_id <$> models) →
  (find_minimal_media fuel models amount g).1.1 = Ok minimal_media →
  (∀ model, model ∈ models →
     ∃ media, minimal_media !! model_id model = Some media
              ∧ length media = amount
              ∧ Forall (grows_on model) media)
  ∧ (∀ k, is_Some (minimal_media !! k) → k ∈ model_id <$> models).
Proof.
  intros Hnd Hrun. unfold find_minimal_media in Hrun.
  apply find_minimal_media_from_Ok in Hrun as [Hmodels Hother]; [|done].
  split; [done|]. intros k Hk.
  destruct (decide (k ∈ model_id <$> models)) as [|Hnin]; [done|].
  rewrite (Hother k Hnin), lookup_empty in Hk. by destruct Hk.
Qed.
End Growth.

Lemma minimize_medium_sustains_witness :
  ∃ medium' w',
    minimize_medium sampled_medium {[ "EX_fru_e" := 6%Q ]} 20 ["EX_glc__D_e"]
      (mkWorld toy_ecoli [3; 1; 4]) = (Ok medium', w')
    ∧ (medium' = sampled_medium ∨ grows_on toy_ecoli medium').
Proof.
  assert (∃ medium' w',
            minimize_medium sampled_medium {[ "EX_fru_e" := 6%Q ]} 20
              ["EX_glc__D_e"] (mkWorld toy_ecoli [3; 1; 4]) = (Ok medium', w'))
    as (medium' & w' & E) by (vm_compute; by do 2 eexists).
  exists medium', w'. split; [exact E|].
  exact (minimize_medium_sustains (Model:=ToyModel) _ _ _ _ _ _ _ E).
Defined.

Lemma find_minimal_media_sustain_witness :
  ∃ minimal_media,
    (find_minimal_media 5 [toy_ecoli] 1 [2; 7; 1; 8; 2; 8]).1.1
      = Ok minimal_media
    ∧ (∀ model, model ∈ [toy_ecoli] →
         ∃ media, minimal_media !! toy_id model = Some media
                  ∧ length media = 1
                  ∧ Forall (grows_on model) media)
    ∧ (∀ k, is_Some (minimal_media !! k) → k ∈ toy_id <$> [toy_ecoli]).
Proof.
  assert (∃ minimal_media,
            (find_minimal_media 5 [toy_ecoli] 1 [2; 7; 1; 8; 2; 8]).1.1
            = Ok minimal_media)
    as (minimal_media & E) by (vm_compute; by eexists).
  exists minimal_media. split; [exact E|].
  exact (find_minimal_media_sustain (Model:=ToyModel) 5 [toy_ecoli] 1
           [2; 7; 1; 8; 2; 8] minimal_media (NoDup_singleton _) E).
Defined.

(** ** Infeasible media in the flux prediction *)

Section Infeasible.
Context {Model : Type} `{!Cobra Model}.
Implicit Types (w : World Model) (df : DataFrame).

Lemma length_concat_columns df labels ss :
  length (df_columns (concat_columns df labels ss))
    = length (df_columns df) + length ss.
Proof. unfold concat_columns. cbn. by rewrite length_app, !length_map. Qed.

(** One medium of [pfba_for_media]: a column more, or the frame as it
    was, or an exception other than [Infeasible]. *)
Lemma pfba_pass pfba_df medium w :
  match
    try_except_infeasible
      (with_model (
         update (model_set_medium medium) ;;;
         pfba_medium <- call pfba ;;
         ret (concat_columns pfba_df pfba_medium.*1 [pfba_medium])))
      (ret pfba_df) w
  with
  | (Ok df, _) =>
      length (df_columns df) ≤ S (length (df_columns pfba_df))
  | (Raise e, _) => e ≠ Infeasible
  | (Diverge, _) => True
  end.
Proof.
  unfold try_except_infeasible, with_model, bind, update, call, ret.
  destruct (model_set_medium medium (w_model w)) as [model'|e|];
    cbn -[concat_columns].
  - destruct (pfba model') as [fluxes|e|]; cbn -[concat_columns].
    + rewrite length_concat_columns. cbn. lia.
    + destruct e; cbn; try done. lia.
    + done.
  - destruct e; cbn; try done. lia.
  - done.
Qed.

Lemma pfba_loop media pfba_df w :
  match
    for_each media pfba_df (λ pfba_df medium,
      try_except_infeasible
        (with_model (
           update (model_set_medium medium) ;;;
           pfba_medium <- call pfba ;;
           ret (concat_columns pfba_df pfba_medium.*1 [pfba_medium])))
        (ret pfba_df)) w
  with
  | (Ok df, _) =>
      length (df_columns df) ≤ length (df_columns pfba_df) + length media
  | (Raise e, _) => e ≠ Infeasible
  | (Diverge, _) => True
  end.
Proof.
  revert pfba_df w. induction media as [|medium media IH]; intros pfba_df w;
    cbn [for_each].
  - cbn. lia.
  - unfold bind at 1. pose proof (pfba_pass pfba_df medium w) as Hp.
    destruct (try_except_infeasible _ _ w) as [[df1|e|] w1]; [|done..].
    specialize (IH df1 w1).
    destruct (for_each media df1 _ w1) as [[df|e|] w2]; [|done..].
    cbn. lia.
Qed.

(** X8.  [pfba_for_media] never raises [Infeasible]: a medium the solver
    (or the medium setter) finds infeasible is skipped.  The frame it
    returns has at most one column for each medium. *)
Theorem pfba_for_media_skips_infeasible media w :
  (pfba_for_media media w).1 ≠ Raise Infeasible
  ∧ ∀ df w', pfba_for_media media w = (Ok df, w') →
             length (df_columns df) ≤ length media.
Proof.
  pose proof (pfba_loop media empty_frame w) as H.
  unfold pfba_for_media. split.
  - destruct (for_each media empty_frame _ w) as [[df|e|] w1]; cbn; try done.
    congruence.
  - intros df w' Hrun. by rewrite Hrun in H.
Qed.

(** One medium of [fva_for_media]. *)
Lemma fva_pass fva_df medium reaction_list w :
  (∀ model, model_set_medium medium model ≠ Raise Infeasible) →
  match
    with_model (
      update (model_set_medium medium) ;;;
      try_except_infeasible
        (r <- call (λ m, flux_variability_analysis m reaction_list (11 # 10)%Q) ;;
         ret (concat_columns fva_df r.*1 (fva_frame_columns r)))
        (ret fva_df)) w
  with
  | (Ok df, _) =>
      length (df_columns df) ≤ 2 + length (df_columns fva_df)
  | (Raise e, _) => e ≠ Infeasible
  | (Diverge, _) => True
  end.
Proof.
  intros Hset.
  unfold try_except_infeasible, with_model, bind, update, call, ret.
  specialize (Hset (w_model w)).
  destruct (model_set_medium medium (w_model w)) as [model'|e|];
    cbn -[concat_columns].
  - destruct (flux_variability_analysis model' reaction_list _)
      as [r|e|]; cbn -[concat_columns].
    + rewrite length_concat_columns. cbn. lia.
    + destruct e; cbn; try done. lia.
    + done.
  - congruence.
  - done.
Qed.

Lemma fva_loop media fva_df reaction_list w :
  (∀ medium model, medium ∈ media →
                   model_set_medium medium model ≠ Raise Infeasible) →
  match
    for_each media fva_df (λ fva_df medium,
      with_model (
        update (model_set_medium medium) ;;;
        try_except_infeasible
          (r <- call (λ m, flux_variability_analysis m reaction_list
                             (11 # 10)%Q) ;;
           ret (concat_columns fva_df r.*1 (fva_frame_columns r)))
          (ret fva_df))) w
  with
  | (Ok df, _) =>
      length (df_columns df) ≤ length (df_columns fva_df) + 2 * length media
  | (Raise e, _) => e ≠ Infeasible
  | (Diverge, _) => True
  end.
Proof.
  revert fva_df w. induction media as [|medium media IH]; intros fva_df w Hset;
    cbn [for_each].
  - cbn. lia.
  - unfold bind at 1.
    pose proof (fva_pass fva_df medium reaction_list w
                  (λ model, Hset medium model ltac:(by left))) as Hp.
    destruct (with_model _ w) as [[df1|e|] w1]; [|done..].
    specialize (IH df1 w1 (λ m model Hin, Hset m model ltac:(by right))).
    destruct (for_each media df1 _ w1) as [[df|e|] w2]; [|done..].
    cbn [length]. lia.
Qed.

(** X9.  [fva_for_media] skips a medium on which the variability solve is
    infeasible: as long as assigning a medium is not what raises
    [Infeasible], the call does not raise it, and the frame it returns has
    at most two columns, minimum and maximum, for each medium. *)
Theorem fva_for_media_skips_infeasible media reaction_list w :
  (∀ medium model, medium ∈ media →
                   model_set_medium medium model ≠ Raise Infeasible) →
  (fva_for_media media reaction_list w).1 ≠ Raise Infeasible
  ∧ ∀ df w', fva_for_media media reaction_list w = (Ok df, w') →
             length (df_columns df) ≤ 2 * length media.
Proof.
  intros Hset.
  pose proof (fva_loop media empty_frame reaction_list w Hset) as H.
  unfold fva_for_media. split.
  - destruct (for_each media empty_frame _ w) as [[df|e|] w1]; cbn; try done.
    congruence.
  - intros df w' Hrun. by rewrite Hrun in H.
Qed.
End Infeasible.

Lemma fva_for_media_skips_infeasible_witness :
  (fva_for_media [sampled_medium] ["EX_o2_e"] (mkWorld toy_ecoli [])).1
    ≠ Raise Infeasible
  ∧ ∀ df w',
      fva_for_media [sampled_medium] ["EX_o2_e"] (mkWorld toy_ecoli [])
        = (Ok df, w') →
      length (df_columns df) ≤ 2 * length [sampled_medium].
Proof.
  apply (fva_for_media_skips_infeasible (Model:=ToyModel)).
  intros medium model _. cbn. unfold toy_set_medium.
  destruct (decide _); discriminate.
Defined.

(** ** More on processing the fluxes *)

Lemma length_row_means (index : list string) (columns : list (list (option Q))) :
  length (row_means index columns) = length index.
Proof. unfold row_means. apply length_imap. Qed.

Lemma length_suppress (tolerance : Q) (col : list (option Q)) :
  length (suppress tolerance col) = length col.
Proof. unfold suppress. apply length_map. Qed.

Lemma process_fluxes_fluxes {Model} `{!Cobra Model} (df : DataFrame)
    (model : Model) (norm : Q) (is_pfba : bool) :
  (process_fluxes df model norm is_pfba).*2
    = normalize_column norm
        (suppress (model_tolerance model)
           (averaged df (model_tolerance model) norm is_pfba)).
Proof.
  unfold process_fluxes. apply snd_zip.
  rewrite length_normalize_column, length_suppress. unfold averaged.
  by rewrite length_row_means.
Qed.

Lemma nan_mean_Some (col : list (option Q)) (m : Q) :
  nan_mean col = Some m →
  omap id col ≠ []
  ∧ m = (py_sum (omap id col) / inject_Z (Z.of_nat (length (omap id col))))%Q.
Proof.
  unfold nan_mean. destruct (omap id col) as [|x xs] eqn:E; [done|].
  by intros [= <-].
Qed.

Lemma inject_length_pos {A} (l : list A) :
  l ≠ [] → (0 < inject_Z (Z.of_nat (length l)))%Q.
Proof.
  destruct l; [done|]. intros _. unfold Qlt, inject_Z. cbn. lia.
Qed.

(** Columns without negative entries. *)
Lemma py_sum_nonneg (xs : list Q) :
  Forall (λ x, 0 <= x)%Q xs → (0 <= py_sum xs)%Q.
Proof.
  induction 1 as [|x xs Hx _ IH].
  - unfold py_sum; cbn. lra.
  - rewrite py_sum_cons. lra.
Qed.

Lemma nonneg_present (col : list (option Q)) :
  Forall (λ x, ∀ v, x = Some v → 0 <= v)%Q col →
  Forall (λ x, 0 <= x)%Q (omap id col).
Proof.
  induction 1 as [|[x|] col Hx _ IH]; cbn; [done| |done].
  constructor; [by apply Hx | done].
Qed.

Lemma nan_mean_nonneg (col : list (option Q)) (m : Q) :
  Forall (λ x, ∀ v, x = Some v → 0 <= v)%Q col →
  nan_mean col = Some m → (0 <= m)%Q.
Proof.
  intros Hcol [Hne ->]%nan_mean_Some.
  pose proof (py_sum_nonneg _ (nonneg_present _ Hcol)).
  pose proof (inject_length_pos _ Hne).
  apply Qle_shift_div_l; [done|]. lra.
Qed.

Lemma abs_nonneg_col (col : list (option Q)) :
  Forall (λ x, ∀ v, x = Some v → 0 <= v)%Q (map (fmap Qabs) col).
Proof.
  apply Forall_forall. intros x Hx v ->.
  apply list_elem_of_fmap in Hx as [[y|] [Hy _]]; [|done].
  cbn in Hy. inversion Hy. apply Qabs_nonneg.
Qed.

Lemma suppress_nonneg (tolerance : Q) (col : list (option Q)) :
  Forall (λ x, ∀ v, x = Some v → 0 <= v)%Q col →
  Forall (λ x, ∀ v, x = Some v → 0 <= v)%Q (suppress tolerance col).
Proof.
  intros Hcol. apply Forall_forall. intros x Hx v ->.
  apply list_elem_of_lookup in Hx as [i Hi].
  apply suppress_lookup_Some in Hi as [Hi _].
  rewrite Forall_forall in Hcol. apply (Hcol (Some v)); [|done].
  by apply list_elem_of_lookup_2 in Hi.
Qed.

Lemma normalize_column_nonneg (norm : Q) (col : list (option Q)) :
  (0 <= norm)%Q →
  Forall (λ x, ∀ v, x = Some v → 0 <= v)%Q col →
  Forall (λ x, ∀ v, x = Some v → 0 <= v)%Q (normalize_column norm col).
Proof.
  intros Hnorm Hcol. unfold normalize_column.
  destruct (nan_mean col) as [m|] eqn:Em.
  - destruct (Qeq_bool m 0) eqn:Ez.
    + apply Forall_forall. intros x Hx v ->.
      by apply list_elem_of_fmap in Hx as [? [? _]].
    + pose proof (nan_mean_nonneg _ _ Hcol Em) as Hm.
      apply Qeq_bool_neq in Ez.
      assert (Hc : (0 <= norm / m)%Q).
      { apply Qle_shift_div_l; lra. }
      apply Forall_forall. intros x Hx v ->.
      apply list_elem_of_fmap in Hx as [[y|] [Hy Hin]]; [|done].
      cbn in Hy. inversion Hy; subst v.
      rewrite Forall_forall in Hcol. specialize (Hcol _ Hin y eq_refl).
      by apply Qmult_le_0_compat.
  - apply Forall_forall. intros x Hx v ->.
    by apply list_elem_of_fmap in Hx as [? [? _]].
Qed.

Lemma row_means_nonneg (index : list string) (columns : list (list (option Q))) :
  Forall (Forall (λ x, ∀ v, x = Some v → 0 <= v)%Q) columns →
  Forall (λ x, ∀ v, x = Some v → 0 <= v)%Q (row_means index columns).
Proof.
  intros Hcols. apply Forall_forall. intros x Hx v ->.
  unfold row_means in Hx. apply elem_of_lookup_imap in Hx as (i & l & Hm & _).
  symmetry in Hm. apply (nan_mean_nonneg _ _) in Hm; [done|].
  apply Forall_forall. intros y Hy w ->.
  apply list_elem_of_fmap in Hy as [col [Hy Hcol]].
  rewrite Forall_forall in Hcols. specialize (Hcols _ Hcol).
  destruct (col !! i) as [[z|]|] eqn:Ei; cbn in Hy; inversion Hy; subst z.
  rewrite Forall_forall in Hcols. apply (Hcols (Some w)); [|done].
  by apply list_elem_of_lookup_2 in Ei.
Qed.

Lemma averaged_nonneg (df : DataFrame) (tolerance norm : Q) (is_pfba : bool) :
  (0 <= norm)%Q →
  Forall (λ x, ∀ v, x = Some v → 0 <= v)%Q (averaged df tolerance norm is_pfba).
Proof.
  intros Hnorm. unfold averaged. apply row_means_nonneg.
  rewrite Forall_fmap. apply Forall_forall. intros col Hcol. cbn.
  apply normalize_column_nonneg; [done|].
  destruct is_pfba.
  - apply list_elem_of_fmap in Hcol as [c [-> Hc]].
    apply suppress_nonneg.
    apply list_elem_of_fmap in Hc as [c' [-> _]]. apply abs_nonneg_col.
  - apply list_elem_of_fmap in Hcol as [c' [-> _]]. apply abs_nonneg_col.
Qed.

(** X11.  With a reference norm that is not negative, no flux returned by
    [process_fluxes] is negative: the signs of the predicted fluxes are
    dropped and both normalisations keep magnitudes. *)
Theorem process_fluxes_nonneg {Model} `{!Cobra Model} (df : DataFrame)
    (model : Model) (norm : Q) (is_pfba : bool) (i : nat) (label : string)
    (v : Q) :
  (0 <= norm)%Q →
  process_fluxes df model norm is_pfba !! i = Some (label, Some v) →
  (0 <= v)%Q.
Proof.
  intros Hnorm H.
  pose proof (normalize_column_nonneg norm _ Hnorm
    (suppress_nonneg (model_tolerance model) _
       (averaged_nonneg df (model_tolerance model) norm is_pfba Hnorm))) as Hall.
  rewrite <- process_fluxes_fluxes in Hall.
  rewrite Forall_forall in Hall. apply (Hall (Some v)); [|done].
  apply list_elem_of_fmap. exists (label, Some v). split; [done|].
  by apply list_elem_of_lookup_2 in H.
Qed.

Lemma process_fluxes_nonneg_witness :
  ∃ v, process_fluxes signed_flux_frame toy_ecoli 1 true !! 0
         = Some ("PGI", Some v)
       ∧ (0 <= v)%Q.
Proof.
  eexists. split; [vm_compute; reflexivity|].
  eapply (process_fluxes_nonneg (Model:=ToyModel) signed_flux_frame toy_ecoli
            1 true 0 "PGI").
  - vm_compute. discriminate.
  - vm_compute. reflexivity.
Defined.

Lemma suppressed_entry_missing (tolerance norm : Q) (col : list (option Q))
    (i : nat) :
  (∀ x, col !! i = Some (Some x) → (Qabs x < tolerance)%Q) →
  mjoin (normalize_column norm (suppress tolerance (map (fmap Qabs) col)) !! i)
    = None.
Proof.
  intros Hlow. destruct (col !! i) as [[x|]|] eqn:Ei.
  - rewrite (normalize_column_lookup_None norm _ i); [done|].
    apply suppress_lookup_below with (Qabs x).
    + by rewrite list_lookup_fmap, Ei.
    + by apply Hlow.
  - rewrite (normalize_column_lookup_None norm _ i); [done|].
    unfold suppress. by rewrite !list_lookup_fmap, Ei.
  - destruct (normalize_column norm _ !! i) as [y|] eqn:Ey; [|done].
    apply lookup_lt_Some in Ey.
    rewrite length_normalize_column, length_suppress, length_map in Ey.
    apply lookup_ge_None in Ei. lia.
Qed.

Lemma suppressed_row_missing (tolerance norm : Q)
    (columns : list (list (option Q))) (i : nat) :
  (∀ col x, col ∈ columns → col !! i = Some (Some x) →
            (Qabs x < tolerance)%Q) →
  omap id
    (map (λ col, mjoin (normalize_column norm
                          (suppress tolerance (map (fmap Qabs) col)) !! i))
         columns) = [].
Proof.
  induction columns as [|col cols IH]; intros Hlow; [done|]. cbn [map omap].
  rewrite suppressed_entry_missing
    by (intros x; apply Hlow; by left).
  cbn. apply IH. intros c x Hc. apply Hlow. by right.
Qed.

(** X12.  In the pfba pass a reaction whose flux is missing or below the
    tolerance of the model in every medium comes out missing, whatever
    the other reactions carry. *)
Theorem process_fluxes_pfba_below_tolerance {Model} `{!Cobra Model}
    (df : DataFrame) (model : Model) (norm : Q) (i : nat) (label : string) :
  df_index df !! i = Some label →
  (∀ col x, col ∈ df_columns df → col !! i = Some (Some x) →
            (Qabs x < model_tolerance model)%Q) →
  process_fluxes df model norm true !! i = Some (label, None).
Proof.
  intros Hl Hlow. unfold process_fluxes.
  apply lookup_zip_with_Some. exists label, None. split; [done|].
  split; [done|]. apply normalize_column_lookup_None.
  unfold suppress. rewrite list_lookup_fmap.
  assert (Hrow : averaged df (model_tolerance model) norm true !! i = Some None);
    [|by rewrite Hrow].
  unfold averaged, row_means. rewrite list_lookup_imap, Hl. cbn. f_equal.
  unfold nan_mean. rewrite !map_map.
  by rewrite (suppressed_row_missing _ norm _ i Hlow).
Qed.

Lemma process_fluxes_pfba_below_tolerance_witness :
  process_fluxes signed_flux_frame toy_ecoli 1 true !! 2 = Some ("FBA", None).
Proof.
  apply (process_fluxes_pfba_below_tolerance (Model:=ToyModel)).
  - reflexivity.
  - intros col x Hcol Hx.
    repeat (apply elem_of_cons in Hcol as [->|Hcol];
            [injection Hx as <-; vm_compute; reflexivity|]).
    by apply elem_of_nil in Hcol.
Defined.

(** ** Strings *)

Lemma str_split_nonempty (sep : ascii) (s : string) : str_split sep s ≠ [].
Proof.
  destruct s as [|c s]; cbn; [done|].
  destruct (decide (c = sep)); [done|].
  by destruct (str_split sep s).
Qed.

Lemma str_split_no_sep (sep : ascii) (s t : string) :
  t ∈ str_split sep s → sep ∉ String.list_ascii_of_string t.
Proof.
  revert t. induction s as [|c s IH]; intros t; cbn.
  - intros ->%list_elem_of_singleton. cbn. by intros ?%elem_of_nil.
  - destruct (decide (c = sep)) as [->|Hc].
    + intros [->|Ht]%elem_of_cons; [cbn; by intros ?%elem_of_nil|by apply IH].
    + pose proof (str_split_nonempty sep s) as Hne.
      destruct (str_split sep s) as [|t0 ts]; [done|].
      intros [->|Ht]%elem_of_cons.
      * cbn. intros [?|?]%elem_of_cons; [congruence|].
        by eapply (IH t0); [left|].
      * apply IH. by right.
Qed.

Lemma str_split_chars (sep c : ascii) (s t : string) :
  t ∈ str_split sep s →
  c ∈ String.list_ascii_of_string t → c ∈ String.list_ascii_of_string s.
Proof.
  revert t. induction s as [|a s IH]; intros t; cbn.
  - by intros ->%list_elem_of_singleton.
  - destruct (decide (a = sep)) as [->|Ha].
    + intros [->|Ht]%elem_of_cons; [by intros ?%elem_of_nil|].
      intros Hc. right. by eapply IH.
    + pose proof (str_split_nonempty sep s) as Hne.
      destruct (str_split sep s) as [|t0 ts]; [done|].
      intros [->|Ht]%elem_of_cons.
      * cbn. intros [->|Hc]%elem_of_cons; [by left|].
        right. eapply (IH t0); [by left|done].
      * intros Hc. right. eapply IH; [by right|done].
Qed.

Lemma first_token_elem (sep : ascii) (s : string) :
  first_token sep s ∈ str_split sep s.
Proof.
  unfold first_token. pose proof (str_split_nonempty sep s).
  destruct (str_split sep s); [done|]. by left.
Qed.

Lemma last_elem {A} (l : list A) (d : A) : l ≠ [] → List.last l d ∈ l.
Proof.
  induction l as [|a l IH]; [done|]. intros _.
  destruct l as [|b l]; [by left|].
  right. by apply IH.
Qed.

Lemma last_token_elem (sep : ascii) (s : string) :
  last_token sep s ∈ str_split sep s.
Proof. apply last_elem, str_split_nonempty. Qed.

Lemma organism_name_no_separator (x : string) (c : ascii) :
  c ∈ [" "; "["; "]"]%char → c ∉ String.list_ascii_of_string (organism_name x).
Proof.
  unfold organism_name.
  set (t1 := first_token " " x).
  set (t2 := last_token "[" t1).
  set (t3 := first_token "]" t2).
  assert (H1 : " "%char ∉ String.list_ascii_of_string t1)
    by apply (str_split_no_sep _ x), first_token_elem.
  assert (H2 : "["%char ∉ String.list_ascii_of_string t2)
    by apply (str_split_no_sep _ t1), last_token_elem.
  assert (H3 : "]"%char ∉ String.list_ascii_of_string t3)
    by apply (str_split_no_sep _ t2), first_token_elem.
  assert (H32 : ∀ c, c ∈ String.list_ascii_of_string t3 → c ∈ String.list_ascii_of_string t2)
    by (intros c'; apply (str_split_chars "]"), first_token_elem).
  assert (H21 : ∀ c, c ∈ String.list_ascii_of_string t2 → c ∈ String.list_ascii_of_string t1)
    by (intros c'; apply (str_split_chars "["), last_token_elem).
  intros Hc. repeat (apply elem_of_cons in Hc as [->|Hc]); auto.
  by apply elem_of_nil in Hc.
Qed.

(** ** Dictionaries *)

Lemma dict_get_set {V} (k k' : string) (v : V) (d : list (string * V)) :
  dict_get (dict_set k v d) k' = if decide (k = k') then Ok v else dict_get d k'.
Proof.
  induction d as [|[k0 v0] d IH]; cbn.
  - by destruct (decide (k = k')).
  - destruct (decide (k0 = k)) as [->|Hk0]; cbn.
    + destruct (decide (k = k')); done.
    + destruct (decide (k0 = k')) as [->|?].
      * by destruct (decide (k = k')); [congruence|].
      * done.
Qed.

Lemma dict_set_keys {V} (k : string) (v : V) (d : list (string * V)) :
  (dict_set k v d).*1 = if decide (k ∈ d.*1) then d.*1 else d.*1 ++ [k].
Proof.
  induction d as [|[k0 v0] d IH]; cbn.
  - destruct (decide (k ∈ [])) as [?%elem_of_nil|]; done.
  - destruct (decide (k0 = k)) as [->|Hk0]; cbn.
    + destruct (decide (k ∈ k :: d.*1)) as [|Hn]; [done|].
      destruct Hn. by left.
    + rewrite IH. destruct (decide (k ∈ d.*1)) as [Hin|Hin].
      * destruct (decide (k ∈ k0 :: d.*1)) as [|Hn]; [done|].
        destruct Hn. by right.
      * destruct (decide (k ∈ k0 :: d.*1)) as [[?|?]%elem_of_cons|]; done.
Qed.

Lemma dict_set_NoDup {V} (k : string) (v : V) (d : list (string * V)) :
  NoDup d.*1 → NoDup (dict_set k v d).*1.
Proof.
  intros Hd. rewrite dict_set_keys.
  destruct (decide (k ∈ d.*1)); [done|].
  apply NoDup_app. split; [done|]. split.
  - intros x Hx ->%list_elem_of_singleton. done.
  - apply NoDup_singleton.
Qed.

Section GetOrganisms.
Variable service : string → option string.

Lemma organisms_loop_NoDup (models : list string) (d : list (string * string)) :
  NoDup d.*1 → NoDup (fold_left (organism_step service) models d).*1.
Proof.
  revert d. induction models as [|model models IH]; intros d Hd; [done|].
  cbn [fold_left]. apply IH. unfold organism_step.
  destruct (service model) as [result|]; [|done].
  destruct (decide (result = EmptyString)); [done|].
  by apply dict_set_NoDup.
Qed.

Lemma organisms_loop_lookup (models : list string) (d : list (string * string))
    (m : string) :
  dict_get (fold_left (organism_step service) models d) m =
    match service m with
    | Some result =>
        if decide (result ≠ EmptyString ∧ m ∈ models)
        then Ok (first_token " "%char result) else dict_get d m
    | None => dict_get d m
    end.
Proof.
  revert d. induction models as [|model models IH]; intros d.
  - cbn [fold_left]. destruct (service m) as [result|]; [|done].
    destruct (decide _) as [[_ ?%elem_of_nil]|]; done.
  - cbn [fold_left]. rewrite IH. unfold organism_step.
    destruct (service m) as [result|] eqn:Hm.
    + destruct (decide (result ≠ EmptyString ∧ m ∈ models)) as [[Hr Hin]|Hn].
      * destruct (decide (result ≠ EmptyString ∧ m ∈ model :: models))
          as [|Hn']; [done|]. destruct Hn'. split; [done|by right].
      * destruct (decide (result ≠ EmptyString ∧ m ∈ model :: models))
          as [[Hr [->|Hin]%elem_of_cons]|Hn'].
        -- rewrite Hm. destruct (decide (result = EmptyString)); [done|].
           rewrite dict_get_set. by destruct (decide (model = model)).
        -- destruct Hn. done.
        -- destruct (service model) as [result'|] eqn:Hmodel; [|done].
           destruct (decide (result' = EmptyString)); [done|].
           rewrite dict_get_set.
           destruct (decide (model = m)) as [->|]; [|done].
           destruct Hn'. split; [|by left]. congruence.
    + destruct (service model) as [result'|] eqn:Hmodel; [|done].
      destruct (decide (result' = EmptyString)); [done|].
      rewrite dict_get_set.
      destruct (decide (model = m)) as [->|]; [congruence|done].
Qed.

(** X13.  get_organisms: the dictionary has no key twice, and a lookup of a
    model id answers the two hand-written genera for iYS1720 and iRC1080
    whatever the web service says, the first word of the organism the
    service names for every other model found in the directory whose
    organism is not empty, and raises KeyError for every other id. *)
Theorem get_organisms_lookup (listing : list string) :
  NoDup (get_organisms listing service).*1
  ∧ ∀ m : string,
      dict_get (get_organisms listing service) m =
        if decide (m = "iYS1720") then Ok "Salmonella"
        else if decide (m = "iRC1080") then Ok "Chlamydomonas"
        else match service m with
             | Some result =>
                 if decide (result ≠ EmptyString
                            ∧ m ∈ map (first_token "."%char) listing)
                 then Ok (first_token " "%char result)
                 else Raise KeyError
             | None => Raise KeyError
             end.
Proof.
  unfold get_organisms. split.
  - do 2 apply dict_set_NoDup.
    apply (organisms_loop_NoDup _ []). apply NoDup_nil_2.
  - intros m. rewrite !dict_get_set.
    destruct (decide ("iYS1720" = m)) as [<-|H1].
    { by destruct (decide _). }
    destruct (decide (m = "iYS1720")); [congruence|].
    destruct (decide ("iRC1080" = m)) as [<-|H2].
    { by destruct (decide _). }
    destruct (decide (m = "iRC1080")); [congruence|].
    exact (organisms_loop_lookup _ [] m).
Qed.
End GetOrganisms.

(** ** More on the merge of the pfba and fva frames *)

Lemma find_tagged_fva (fva_df : list (string * option Q)) (r : string) :
  List.find (λ o, bool_decide (fr_index o = r))
            (tag_from_fva true (flux_column fva_df))
  = (λ kv, mkFluxRow kv.1 kv.2 (if kv.2 is Some _ then Some true else None))
      <$> List.find (λ kv, bool_decide (kv.1 = r)) fva_df.
Proof.
  induction fva_df as [|[l x] fva_df IH]; [done|]. cbn.
  destruct x as [v|]; cbn; destruct (bool_decide (l = r)); try done.
Qed.

Lemma tag_column_lookup (b : bool) (df : list (string * option Q)) (i : nat) :
  tag_from_fva b (flux_column df) !! i
    = (λ kv, mkFluxRow kv.1 kv.2 (if kv.2 is Some _ then Some b else None))
        <$> df !! i.
Proof.
  unfold tag_from_fva, flux_column. rewrite !list_lookup_fmap.
  by destruct (df !! i) as [[r [v|]]|].
Qed.

(** The rows of the frame of one model after the merge. *)
Lemma merge_model_lookup (pfba_df fva_df : list (string * option Q)) (i : nat) :
  merge_model pfba_df fva_df !! i =
    match pfba_df !! i with
    | None => None
    | Some (r, Some v) => Some (mkFluxRow r (Some v) (Some false))
    | Some (r, None) =>
        match series_lookup fva_df r with
        | Some (Some v) => Some (mkFluxRow r (Some v) (Some true))
        | _ => Some (mkFluxRow r None None)
        end
    end.
Proof.
  unfold merge_model, fillna_flux.
  rewrite list_lookup_fmap, tag_column_lookup.
  destruct (pfba_df !! i) as [[r [v|]]|]; cbn; [| |done].
  - by destruct (List.find _ _).
  - rewrite find_tagged_fva. unfold series_lookup.
    destruct (List.find _ fva_df) as [[l [v|]]|]; cbn; done.
Qed.

Lemma tag_frames_fva (pfba_dfs fva_dfs : list (string * list FluxRow))
    (k : string) (df : list FluxRow) :
  NoDup fva_dfs.*1 → length fva_dfs ≤ length pfba_dfs →
  (k, df) ∈ fva_dfs →
  dict_get (tagged_frames pfba_dfs fva_dfs).2 k = Ok (tag_from_fva true df).
Proof.
  intros Hnd Hlen Hin. unfold tagged_frames. rewrite tag_frames_split. cbn.
  rewrite snd_zip by (rewrite !length_fmap; lia).
  rewrite (dict_get_alter_all _ _ _ k df Hnd (dict_get_elem_of _ _ _ Hnd Hin)).
  rewrite decide_True; [done|]. apply list_elem_of_fmap. by exists (k, df).
Qed.

Lemma flux_column_keys (dfs : list (string * list (string * option Q))) :
  (map (λ kv, (kv.1, flux_column kv.2)) dfs).*1 = dfs.*1.
Proof. rewrite <- list_fmap_compose. by apply list_fmap_ext. Qed.

(** The rows of the merged frame, for dictionaries with the same keys in
    the same order: the complete rows of the merged frames of the
    models. *)
Lemma merge_fluxes_rows (organism_dict : list (string * string))
    (pfba_dfs fva_dfs : list (string * list (string * option Q)))
    (flux_df : list FluxRecord) (rec : FluxRecord) :
  NoDup pfba_dfs.*1 → pfba_dfs.*1 = fva_dfs.*1 →
  merge_fluxes organism_dict pfba_dfs fva_dfs = Ok flux_df →
  rec ∈ flux_df ↔
    ∃ k pfba_df fva_df organism row,
      (k, pfba_df) ∈ pfba_dfs ∧ (k, fva_df) ∈ fva_dfs
      ∧ dict_get organism_dict k = Ok organism
      ∧ row ∈ merge_model pfba_df fva_df
      ∧ is_Some (fr_flux row) ∧ is_Some (fr_from_fva row)
      ∧ rec = mkFluxRecord (fr_flux row) (fr_from_fva row) organism
                (fr_index row).
Proof.
  intros Hnd Hkeys. unfold merge_fluxes.
  set (p := map (λ kv, (kv.1, flux_column kv.2)) pfba_dfs).
  set (f := map (λ kv, (kv.1, flux_column kv.2)) fva_dfs).
  pose proof (flux_column_keys pfba_dfs) as Hpk. fold p in Hpk.
  pose proof (flux_column_keys fva_dfs) as Hfk. fold f in Hfk.
  assert (Hlen : length p = length f).
  { by rewrite <- (length_fmap fst p), <- (length_fmap fst f), Hpk, Hfk, Hkeys. }
  assert (Hndp : NoDup p.*1) by by rewrite Hpk.
  assert (Hndf : NoDup f.*1) by by rewrite Hfk, <- Hkeys.
  destruct (tag_frames p f) as [[p' f']| |] eqn:Et0; [|done..].
  pose proof (tag_frames_Ok _ _ _ _ Et0) as Et. cbn [outcome_bind].
  pose proof (tag_frames_keys p f) as [Hk1 Hk2]. rewrite Et in Hk1, Hk2.
  cbn in Hk1, Hk2.
  assert (Hp' : ∀ k pfba_df, (k, pfba_df) ∈ pfba_dfs →
            dict_get p' k = Ok (tag_from_fva false (flux_column pfba_df))).
  { intros k pfba_df Hin.
    pose proof (tag_frames_pfba p f k (flux_column pfba_df) Hndp
                  ltac:(lia)) as Ht.
    rewrite Et in Ht. apply Ht. unfold p. apply list_elem_of_fmap.
    by exists (k, pfba_df). }
  assert (Hf' : ∀ k fva_df, (k, fva_df) ∈ fva_dfs →
            dict_get f' k = Ok (tag_from_fva true (flux_column fva_df))).
  { intros k fva_df Hin.
    pose proof (tag_frames_fva p f k (flux_column fva_df) Hndf
                  ltac:(lia)) as Ht.
    rewrite Et in Ht. apply Ht. unfold f. apply list_elem_of_fmap.
    by exists (k, fva_df). }
  intros (flux_dfs & Hfill & H)%outcome_bind_Ok.
  apply outcome_bind_Ok in H as (tables & Horg & H).
  apply outcome_bind_Ok in H as (rows & Hrows & [= <-]).
  assert (rows = concat tables) as ->
    by (destruct tables; [done | by inversion Hrows]).
  clear Hrows.
  apply fill_frames_Ok in Hfill. apply add_organism_Ok in Horg.
  unfold dropna_flux. rewrite list_elem_of_filter, list_elem_of_In, in_concat.
  split.
  - intros [[Hs1 Hs2] (table & Htable%list_elem_of_In & Hrec%list_elem_of_In)].
    apply list_elem_of_lookup in Htable as [j Hj].
    destruct (Forall2_lookup_r _ _ _ _ _ Horg Hj)
      as ([k df] & Hdf & organism & Ho & ->).
    cbn in Ho. apply list_elem_of_fmap in Hrec as [row [-> Hrow]].
    destruct (Forall2_lookup_r _ _ _ _ _ Hfill Hdf)
      as (k' & Hk' & Hkeq & pk & fk & Hpk' & Hfk' & Hdfeq).
    cbn in Hkeq, Hdfeq. subst k' df.
    assert (Hkp : k ∈ pfba_dfs.*1).
    { rewrite <- Hpk, <- Hk1. by apply list_elem_of_lookup_2 in Hk'. }
    apply list_elem_of_fmap in Hkp as [[k0 pfba_df] [Hk0 Hinp]].
    cbn in Hk0. subst k0.
    assert (Hkf : k ∈ fva_dfs.*1).
    { rewrite <- Hkeys. apply list_elem_of_fmap. by exists (k, pfba_df). }
    apply list_elem_of_fmap in Hkf as [[k0 fva_df] [Hk0 Hinf]].
    cbn in Hk0. subst k0.
    rewrite (Hp' _ _ Hinp) in Hpk'. rewrite (Hf' _ _ Hinf) in Hfk'.
    inversion Hpk'; inversion Hfk'; subst pk fk.
    exists k, pfba_df, fva_df, organism, row. done.
  - intros (k & pfba_df & fva_df & organism & row & Hinp & Hinf & Ho & Hrow
            & Hs1 & Hs2 & ->).
    split; [done|].
    assert (Hkin : k ∈ p'.*1).
    { rewrite Hk1, Hpk. apply list_elem_of_fmap. by exists (k, pfba_df). }
    apply list_elem_of_lookup in Hkin as [j Hj].
    destruct (Forall2_lookup_l _ _ _ _ _ Hfill Hj)
      as ([k' df] & Hdf & Hk' & pk & fk & Hpk' & Hfk' & Hdfeq).
    cbn in Hk', Hdfeq. subst k'.
    rewrite (Hp' _ _ Hinp) in Hpk'. rewrite (Hf' _ _ Hinf) in Hfk'.
    inversion Hpk'; inversion Hfk'; subst pk fk.
    destruct (Forall2_lookup_l _ _ _ _ _ Horg Hdf)
      as (table & Htable & organism' & Ho' & Hfeq).
    cbn in Ho', Hfeq. rewrite Ho in Ho'. inversion Ho'; subst organism'.
    exists table. split.
    + apply list_elem_of_In. by apply list_elem_of_lookup_2 in Htable.
    + apply list_elem_of_In. rewrite Hfeq, Hdfeq.
      apply list_elem_of_fmap. by exists row.
Qed.

(** X14.  A reaction the pfba pass left unresolved takes the flux the fva
    frame of the same model has for it, tagged [from_fva = True], and the
    row is in the frame [merge_fluxes] returns. *)
Theorem merge_fluxes_fva_fills (organism_dict : list (string * string))
    (pfba_dfs fva_dfs : list (string * list (string * option Q)))
    (flux_df : list FluxRecord) (k : string)
    (pfba_df fva_df : list (string * option Q)) (i : nat) (reaction : string)
    (v : Q) :
  NoDup pfba_dfs.*1 → pfba_dfs.*1 = fva_dfs.*1 →
  merge_fluxes organism_dict pfba_dfs fva_dfs = Ok flux_df →
  (k, pfba_df) ∈ pfba_dfs → (k, fva_df) ∈ fva_dfs →
  pfba_df !! i = Some (reaction, None) →
  series_lookup fva_df reaction = Some (Some v) →
  merge_model pfba_df fva_df !! i
    = Some (mkFluxRow reaction (Some v) (Some true))
  ∧ ∃ organism,
      dict_get organism_dict k = Ok organism
      ∧ mkFluxRecord (Some v) (Some true) organism reaction ∈ flux_df.
Proof.
  intros Hnd Hkeys Hmerge Hinp Hinf Hi Hfva.
  assert (Hrow : merge_model pfba_df fva_df !! i
                 = Some (mkFluxRow reaction (Some v) (Some true)))
    by by rewrite merge_model_lookup, Hi, Hfva.
  split; [done|].
  destruct (merge_fluxes_frame _ _ _ _ _ _ Hnd Hmerge Hinp)
    as (_ & organism & Ho & _).
  exists organism. split; [done|].
  apply (merge_fluxes_rows organism_dict pfba_dfs fva_dfs flux_df _ Hnd Hkeys
           Hmerge).
  exists k, pfba_df, fva_df, organism,
    (mkFluxRow reaction (Some v) (Some true)).
  repeat split; try done; try by eexists.
  by apply list_elem_of_lookup_2 in Hrow.
Qed.

Lemma merge_fluxes_fva_fills_witness :
  merge_model [("PGI", Some (1 # 2)%Q); ("PFK", None)]
    [("PGI", Some 7%Q); ("PFK", Some (1 # 4)%Q)] !! 1
    = Some (mkFluxRow "PFK" (Some (1 # 4)%Q) (Some true))
  ∧ ∃ organism,
      dict_get example_organisms "iECO111_1330" = Ok organism
      ∧ mkFluxRecord (Some (1 # 4)%Q) (Some true) organism "PFK"
          ∈ example_flux_df.
Proof.
  apply (merge_fluxes_fva_fills example_organisms example_pfba_dfs
           example_fva_dfs example_flux_df "iECO111_1330").
  - apply (bool_decide_unpack _). vm_compute. reflexivity.
  - reflexivity.
  - vm_compute. reflexivity.
  - by left.
  - by left.
  - reflexivity.
  - reflexivity.
Defined.

(** X15.  Every row of the frame [merge_fluxes] returns has a flux and an
    origin tag, and the tag tells where the flux is from: a row tagged
    [from_fva = False] carries the pfba flux of its reaction in a model of
    its organism, a row tagged [True] the fva flux of a reaction that the
    pfba pass of the model left unresolved. *)
Theorem merge_fluxes_tags_sound (organism_dict : list (string * string))
    (pfba_dfs fva_dfs : list (string * list (string * option Q)))
    (flux_df : list FluxRecord) (rec : FluxRecord) :
  NoDup pfba_dfs.*1 → pfba_dfs.*1 = fva_dfs.*1 →
  merge_fluxes organism_dict pfba_dfs fva_dfs = Ok flux_df →
  rec ∈ flux_df →
  ∃ k pfba_df fva_df v,
    (k, pfba_df) ∈ pfba_dfs ∧ (k, fva_df) ∈ fva_dfs
    ∧ dict_get organism_dict k = Ok (ORGANISM rec)
    ∧ flux rec = Some v
    ∧ ((from_fva rec = Some false ∧ (BiGG_ID rec, Some v) ∈ pfba_df)
       ∨ (from_fva rec = Some true
          ∧ (BiGG_ID rec, None) ∈ pfba_df
          ∧ series_lookup fva_df (BiGG_ID rec) = Some (Some v))).
Proof.
  intros Hnd Hkeys Hmerge Hrec.
  apply (merge_fluxes_rows organism_dict pfba_dfs fva_dfs flux_df _ Hnd Hkeys
           Hmerge) in Hrec
    as (k & pfba_df & fva_df & organism & row & Hinp & Hinf & Ho & Hrow
        & [v Hv] & Hs2 & ->).
  exists k, pfba_df, fva_df, v. cbn. repeat (split; [done|]).
  apply list_elem_of_lookup in Hrow as [i Hi].
  rewrite merge_model_lookup in Hi.
  destruct (pfba_df !! i) as [[r [x|]]|] eqn:Ei; [| |done].
  - inversion Hi; subst row. cbn in *. inversion Hv; subst x. left.
    split; [done|]. by apply list_elem_of_lookup_2 in Ei.
  - destruct (series_lookup fva_df r) as [[x|]|] eqn:Ef;
      inversion Hi; subst row; cbn in *; try by destruct Hs2.
    inversion Hv; subst x. right. split; [done|]. split; [|done].
    by apply list_elem_of_lookup_2 in Ei.
Qed.

Lemma merge_fluxes_tags_sound_witness :
  ∃ k pfba_df fva_df v,
    (k, pfba_df) ∈ example_pfba_dfs ∧ (k, fva_df) ∈ example_fva_dfs
    ∧ dict_get example_organisms k = Ok "Clostridium"
    ∧ Some 2%Q = Some v
    ∧ ((Some true = Some false ∧ ("PGI", Some v) ∈ pfba_df)
       ∨ (Some true = Some true
          ∧ ("PGI", None) ∈ pfba_df
          ∧ series_lookup fva_df "PGI" = Some (Some v))).
Proof.
  apply (merge_fluxes_tags_sound example_organisms example_pfba_dfs
           example_fva_dfs example_flux_df
           (mkFluxRecord (Some 2%Q) (Some true) "Clostridium" "PGI")).
  - apply (bool_decide_unpack _). vm_compute. reflexivity.
  - reflexivity.
  - vm_compute. reflexivity.
  - do 2 right. by left.
Defined.

(** The two ways a lookup in a dictionary ends. *)
Lemma dict_get_cases {V} (d : list (string * V)) (k : string) :
  (∃ v, dict_get d k = Ok v ∧ k ∈ d.*1)
  ∨ (dict_get d k = Raise KeyError ∧ k ∉ d.*1).
Proof.
  destruct (decide (k ∈ d.*1)) as [Hin|Hnin].
  - left. induction d as [|[k' v] d IH]; [by apply elem_of_nil in Hin|].
    cbn. destruct (decide (k' = k)) as [->|Hne]; [by exists v|].
    apply elem_of_cons in Hin as [?|Hin]; [done|].
    destruct (IH Hin) as (v' & Hv' & _). exists v'. split; [done | by right].
  - right. split; [by apply dict_get_KeyError | done].
Qed.

Lemma fill_frames_outcome (ks : list string)
    (pfba_dfs fva_dfs : list (string * list FluxRow)) :
  match fill_frames ks pfba_dfs fva_dfs with
  | Ok flux_dfs => ∀ k, k ∈ ks → k ∈ pfba_dfs.*1 ∧ k ∈ fva_dfs.*1
  | Raise e => e = KeyError
               ∧ ∃ k, k ∈ ks ∧ (k ∉ pfba_dfs.*1 ∨ k ∉ fva_dfs.*1)
  | Diverge => False
  end.
Proof.
  induction ks as [|k ks IH]; cbn.
  - intros k Hk. by apply elem_of_nil in Hk.
  - destruct (dict_get_cases pfba_dfs k) as [(p & -> & Hp)|[-> Hp]]; cbn.
    + destruct (dict_get_cases fva_dfs k) as [(f & -> & Hf)|[-> Hf]]; cbn.
      * destruct (fill_frames ks pfba_dfs fva_dfs) as [rest|e|]; cbn.
        -- intros k' [->|Hk']%elem_of_cons; [done | by apply IH].
        -- destruct IH as [-> (k' & Hk' & Hmiss)]. split; [done|].
           exists k'. split; [by right | done].
        -- done.
      * split; [done|]. exists k. split; [by left | by right].
    + split; [done|]. exists k. split; [by left | by left].
Qed.

Lemma add_organism_outcome (organism_dict : list (string * string))
    (flux_dfs : list (string * list FluxRow)) :
  match add_organism organism_dict flux_dfs with
  | Ok tables => (∀ k, k ∈ flux_dfs.*1 → k ∈ organism_dict.*1)
                 ∧ length tables = length flux_dfs
  | Raise e => e = KeyError
               ∧ ∃ k, k ∈ flux_dfs.*1 ∧ k ∉ organism_dict.*1
  | Diverge => False
  end.
Proof.
  induction flux_dfs as [|[k df] flux_dfs IH]; cbn.
  - split; [|done]. intros k Hk. by apply elem_of_nil in Hk.
  - destruct (dict_get_cases organism_dict k) as [(o & -> & Ho)|[-> Ho]]; cbn.
    + destruct (add_organism organism_dict flux_dfs) as [rest|e|]; cbn.
      * destruct IH as [IH Hlen]. split; [|by rewrite Hlen].
        intros k' [->|Hk']%elem_of_cons; [done | by apply IH].
      * destruct IH as [-> (k' & Hk' & Hmiss)]. split; [done|].
        exists k'. split; [by right | done].
      * done.
    + split; [done|]. exists k. split; [by left | done].
Qed.

(** Tagging a frame leaves it empty or not, as it was. *)
Lemma dict_get_alter_tag_empty (b : bool) (k k' : string)
    (d : list (string * list FluxRow)) :
  dict_get (dict_alter (tag_from_fva b) k d) k' = Ok []
  ↔ dict_get d k' = Ok [].
Proof.
  rewrite dict_get_alter. destruct (decide (k = k')); [|done].
  destruct (dict_get d k') as [[|r df]| |]; cbn; done.
Qed.

Lemma dict_get_flux_column_empty
    (d : list (string * list (string * option Q))) (k : string) :
  dict_get (map (λ kv, (kv.1, flux_column kv.2)) d) k = Ok []
  ↔ dict_get d k = Ok [].
Proof.
  induction d as [|[k' df] d IH]; cbn; [done|].
  destruct (decide (k' = k)); [|done].
  destruct df; cbn; split; intros [=]; done.
Qed.

(** How the tagging of one frame ends. *)
Lemma dict_alter_try_tag_outcome (b : bool) (k : string)
    (d : list (string * list FluxRow)) :
  match dict_alter_try (tag_frame b) k d with
  | Ok d' => d' = dict_alter (tag_from_fva b) k d
             ∧ dict_get d k ≠ Ok [] ∧ k ∈ d.*1
  | Raise e => (e = ValueError ∧ dict_get d k = Ok [])
               ∨ (e = KeyError ∧ k ∉ d.*1)
  | Diverge => False
  end.
Proof.
  induction d as [|[k' df] d IH]; cbn.
  - right. split; [done|]. apply not_elem_of_nil.
  - destruct (decide (k' = k)) as [->|Hne].
    + destruct df as [|r df]; cbn; [by left|].
      split; [done|]. split; [done | by left].
    + destruct (dict_alter_try (tag_frame b) k d) as [d'|e|]; cbn.
      * destruct IH as (-> & Hget & Hin). split; [done|].
        split; [done | by right].
      * destruct IH as [[-> Hget]|[-> Hnin]]; [by left|].
        right. split; [done|]. intros [?|?]%elem_of_cons; done.
      * done.
Qed.

(** How the first loop ends. *)
Lemma tag_loop_outcome (ks : list (string * string))
    (pfba_dfs fva_dfs : list (string * list FluxRow)) :
  (∀ k, k ∈ ks.*1 → k ∈ pfba_dfs.*1) → (∀ k, k ∈ ks.*2 → k ∈ fva_dfs.*1) →
  match tag_loop ks pfba_dfs fva_dfs with
  | Ok _ => (∀ k, k ∈ ks.*1 → dict_get pfba_dfs k ≠ Ok [])
            ∧ (∀ k, k ∈ ks.*2 → dict_get fva_dfs k ≠ Ok [])
  | Raise e => e = ValueError
               ∧ ∃ k, (k ∈ ks.*1 ∧ dict_get pfba_dfs k = Ok [])
                      ∨ (k ∈ ks.*2 ∧ dict_get fva_dfs k = Ok [])
  | Diverge => False
  end.
Proof.
  revert pfba_dfs fva_dfs.
  induction ks as [|[k1 k2] ks IH]; intros p f Hp Hf; cbn [tag_loop].
  - split; intros k Hk; by apply elem_of_nil in Hk.
  - pose proof (dict_alter_try_tag_outcome false k1 p) as H1.
    destruct (dict_alter_try (tag_frame false) k1 p) as [p1|e|];
      cbn [outcome_bind]; [| |done].
    2:{ destruct H1 as [[-> Hget]|[-> Hnin]].
        - split; [done|]. exists k1. left. split; [by left | done].
        - destruct Hnin. apply Hp. by left. }
    destruct H1 as (-> & Hget1 & _).
    pose proof (dict_alter_try_tag_outcome true k2 f) as H2.
    destruct (dict_alter_try (tag_frame true) k2 f) as [f1|e|];
      cbn [outcome_bind]; [| |done].
    2:{ destruct H2 as [[-> Hget]|[-> Hnin]].
        - split; [done|]. exists k2. right. split; [by left | done].
        - destruct Hnin. apply Hf. by left. }
    destruct H2 as (-> & Hget2 & _).
    specialize (IH (dict_alter (tag_from_fva false) k1 p)
                   (dict_alter (tag_from_fva true) k2 f)).
    rewrite !dict_alter_keys in IH.
    specialize (IH (λ k Hk, Hp k (list_elem_of_further _ _ _ Hk))
                   (λ k Hk, Hf k (list_elem_of_further _ _ _ Hk))).
    destruct (tag_loop ks _ _) as [dfs|e|]; [| |done].
    + destruct IH as [IHp IHf]. split.
      * intros k [->|Hk]%elem_of_cons; [done|].
        intros Hget. by apply (IHp k Hk), dict_get_alter_tag_empty.
      * intros k [->|Hk]%elem_of_cons; [done|].
        intros Hget. by apply (IHf k Hk), dict_get_alter_tag_empty.
    + destruct IH as [-> (k & [[Hk Hget]|[Hk Hget]])]; split; try done;
        exists k; [left|right]; (split; [by right|]);
        by apply dict_get_alter_tag_empty in Hget.
Qed.

(** X16.  [merge_fluxes] returns a frame exactly when there is at least
    one model, every model of [pfba_dfs] has an fva frame and an organism,
    and no frame that the first loop tags is without rows.  It raises
    [ValueError] when the first loop meets a frame without rows or when
    there is no model to concatenate, and [KeyError] when a model lacks an
    fva frame or an organism. *)
Theorem merge_fluxes_outcome (organism_dict : list (string * string))
    (pfba_dfs fva_dfs : list (string * list (string * option Q))) :
  let tagged := zip pfba_dfs.*1 fva_dfs.*1 in
  match merge_fluxes organism_dict pfba_dfs fva_dfs with
  | Ok flux_df =>
      pfba_dfs ≠ []
      ∧ (∀ k, k ∈ pfba_dfs.*1 → k ∈ fva_dfs.*1 ∧ k ∈ organism_dict.*1)
      ∧ (∀ k, k ∈ tagged.*1 → dict_get pfba_dfs k ≠ Ok [])
      ∧ (∀ k, k ∈ tagged.*2 → dict_get fva_dfs k ≠ Ok [])
  | Raise e =>
      (e = ValueError
       ∧ (pfba_dfs = []
          ∨ ∃ k, (k ∈ tagged.*1 ∧ dict_get pfba_dfs k = Ok [])
                 ∨ (k ∈ tagged.*2 ∧ dict_get fva_dfs k = Ok [])))
      ∨ (e = KeyError
         ∧ ∃ k, k ∈ pfba_dfs.*1 ∧ (k ∉ fva_dfs.*1 ∨ k ∉ organism_dict.*1))
  | Diverge => False
  end.
Proof.
  intros tagged. unfold merge_fluxes.
  set (p := map (λ kv, (kv.1, flux_column kv.2)) pfba_dfs).
  set (f := map (λ kv, (kv.1, flux_column kv.2)) fva_dfs).
  pose proof (flux_column_keys pfba_dfs) as Hpk. fold p in Hpk.
  pose proof (flux_column_keys fva_dfs) as Hfk. fold f in Hfk.
  pose proof (tag_loop_outcome (zip p.*1 f.*1) p f) as Htag.
  assert (Hz : zip p.*1 f.*1 = tagged) by (unfold tagged; by rewrite Hpk, Hfk).
  unfold tag_frames. rewrite Hz in Htag |- *.
  assert (Hz1 : ∀ k, k ∈ tagged.*1 → k ∈ pfba_dfs.*1).
  { intros k Hk. apply list_elem_of_fmap in Hk as ([k1 k2] & -> & Hk).
    by apply elem_of_zip_l in Hk. }
  assert (Hz2 : ∀ k, k ∈ tagged.*2 → k ∈ fva_dfs.*1).
  { intros k Hk. apply list_elem_of_fmap in Hk as ([k1 k2] & -> & Hk).
    by apply elem_of_zip_r in Hk. }
  specialize (Htag ltac:(by rewrite Hpk) ltac:(by rewrite Hfk)).
  destruct (tag_loop tagged p f) as [[p' f']| |] eqn:Et0; cbn [outcome_bind];
    [| |done].
  2:{ destruct Htag as [-> (k & Hk)]. left. split; [done|]. right.
      exists k. unfold p, f in Hk.
      by rewrite !dict_get_flux_column_empty in Hk. }
  destruct Htag as [Hne1 Hne2].
  assert (Et : tagged_frames p f = (p', f')).
  { apply tag_frames_Ok. unfold tag_frames. by rewrite Hpk, Hfk. }
  pose proof (tag_frames_keys p f) as [Hk1 Hk2]. rewrite Et in Hk1, Hk2.
  cbn in Hk1, Hk2. rewrite Hpk in Hk1. rewrite Hfk in Hk2.
  pose proof (fill_frames_outcome p'.*1 p' f') as Hfill.
  pose proof (fill_frames_Ok p'.*1 p' f') as Hshape.
  destruct (fill_frames p'.*1 p' f') as [flux_dfs|e|]; cbn; [| |done].
  - specialize (Hshape flux_dfs eq_refl).
    assert (Hkeys : flux_dfs.*1 = pfba_dfs.*1).
    { rewrite <- Hk1. clear -Hshape.
      induction Hshape as [|k kv ks kvs [Hk _] _ IH]; [done|].
      cbn. by rewrite Hk, IH. }
    pose proof (add_organism_outcome organism_dict flux_dfs) as Horg.
    destruct (add_organism organism_dict flux_dfs) as [tables|e|]; cbn;
      [| |done].
    + destruct Horg as [Horg Hlen].
      destruct tables as [|table tables]; cbn.
      * left. split; [done|]. left. destruct flux_dfs; [|done].
        destruct pfba_dfs; [done | discriminate].
      * split; [|split; [|split]].
        -- intros ->. destruct flux_dfs; discriminate.
        -- intros k Hk. split.
           ++ rewrite <- Hk2. apply Hfill. by rewrite Hk1.
           ++ apply Horg. by rewrite Hkeys.
        -- intros k Hk Hget. apply (Hne1 k Hk). unfold p.
           by apply dict_get_flux_column_empty.
        -- intros k Hk Hget. apply (Hne2 k Hk). unfold f.
           by apply dict_get_flux_column_empty.
    + destruct Horg as [-> (k & Hk & Hmiss)]. right. split; [done|].
      exists k. rewrite <- Hkeys. split; [done | by right].
  - destruct Hfill as [-> (k & Hk & Hmiss)]. right. split; [done|].
    exists k. rewrite <- Hk1. split; [done|].
    destruct Hmiss as [Hmiss|Hmiss]; [done|]. left. by rewrite <- Hk2.
Qed.
(** ** load_kcat_dataframe *)

Lemma Qmax_cases (x y : Q) : Qmax x y = x ∨ Qmax x y = y.
Proof.
  unfold Qmax, GenericMinMax.gmax. destruct (x ?= y)%Q; auto.
Qed.

Lemma fold_Qmax_elem (l : list Q) (x : Q) : fold_left Qmax l x ∈ x :: l.
Proof.
  revert x. induction l as [|y l IH]; intros x; cbn [fold_left]; [by left|].
  specialize (IH (Qmax x y)).
  apply elem_of_cons in IH as [->|IH].
  - destruct (Qmax_cases x y) as [->| ->]; [by left|by right; left].
  - by do 2 right.
Qed.

Lemma fold_Qmax_ge (l : list Q) (x y : Q) :
  y ∈ x :: l → (y <= fold_left Qmax l x)%Q.
Proof.
  revert x y. induction l as [|z l IH]; intros x y; cbn [fold_left].
  - intros ->%list_elem_of_singleton. apply Qle_refl.
  - intros [->|[->|Hy]%elem_of_cons]%elem_of_cons.
    + apply Qle_trans with (Qmax x z); [apply Q.le_max_l|]. apply IH. by left.
    + apply Qle_trans with (Qmax x z); [apply Q.le_max_r|]. apply IH. by left.
    + apply IH. by right.
Qed.

Lemma nan_max_Some (xs : list (option Q)) (v : Q) :
  nan_max xs = Some v →
  Some v ∈ xs ∧ ∀ v', Some v' ∈ xs → (v' <= v)%Q.
Proof.
  unfold nan_max.
  destruct (omap id xs) as [|x present] eqn:Hp; [done|].
  intros [= <-].
  assert (Hin : ∀ y, y ∈ x :: present ↔ Some y ∈ xs).
  { intros y. rewrite <- Hp, list_elem_of_omap. split.
    - intros (o & Ho & Heq). cbn in Heq. by subst o.
    - intros Ho. by exists (Some y). }
  split.
  - apply Hin, fold_Qmax_elem.
  - intros v' Hv'. by apply fold_Qmax_ge, Hin.
Qed.

Lemma nan_max_None (xs : list (option Q)) :
  nan_max xs = None → ∀ x, x ∈ xs → x = None.
Proof.
  unfold nan_max.
  destruct (omap id xs) as [|y present] eqn:Hp; [|done].
  intros _ [v|] Hx; [|done].
  assert (v ∈ omap id xs) as Hv by (apply list_elem_of_omap; by exists (Some v)).
  rewrite Hp in Hv. by apply elem_of_nil in Hv.
Qed.

Lemma kcat_rows_elem (raw : list KcatRaw) (row : option string * string * option Q) :
  row ∈ kcat_rows raw ↔
  ∃ r, r ∈ raw ∧ low_confidence r = false
       ∧ row = (str_replace_r <$> raw_BiGG_ID r,
                organism_name (raw_ORGANISM r), raw_log10_kcat r).
Proof.
  unfold kcat_rows. rewrite list_elem_of_fmap. split.
  - intros (r & -> & [Hc Hr]%list_elem_of_filter). by exists r.
  - intros (r & Hr & Hc & ->). exists r. split; [done|].
    by apply list_elem_of_filter.
Qed.

Lemma kcat_groups_keys (rows : list (option string * string * option Q)) :
  map (λ g, (g.1.1, g.1.2)) (kcat_groups rows) =
    sort_by index_le
      (remove_dups (omap (λ r, (λ id, (id, r.1.2)) <$> r.1.1) rows)).
Proof.
  unfold kcat_groups. rewrite map_map. cbn.
  etrans; [|apply map_id]. apply map_ext. by intros [??].
Qed.

Lemma kcat_groups_key_elem (rows : list (option string * string * option Q))
    (id organism : string) :
  (id, organism) ∈ map (λ g, (g.1.1, g.1.2)) (kcat_groups rows) ↔
  ∃ v, (Some id, organism, v) ∈ rows.
Proof.
  rewrite kcat_groups_keys, sort_by_Permutation, elem_of_remove_dups,
    list_elem_of_omap. split.
  - intros ([[o org] v] & Hr & Heq). cbn in Heq.
    destruct o as [id'|]; [|done]. injection Heq as -> ->. by exists v.
  - intros (v & Hr). by exists (Some id, organism, v).
Qed.

Lemma kcat_groups_elem (rows : list (option string * string * option Q))
    (g : string * string * option Q) :
  g ∈ kcat_groups rows →
  (∃ v, (Some g.1.1, g.1.2, v) ∈ rows)
  ∧ g.2 = nan_max (map snd
            (filter (λ r, r.1.1 = Some g.1.1 ∧ r.1.2 = g.1.2) rows)).
Proof.
  intros Hg. split.
  - apply kcat_groups_key_elem, list_elem_of_fmap. by exists g.
  - unfold kcat_groups in Hg.
    apply list_elem_of_fmap in Hg as ([id org] & -> & _). done.
Qed.

Section LoadKcatFacts.
Variable taxonomy : string → option (list string).

Lemma load_kcat_dataframe_elem (raw : list KcatRaw) (k : KcatRecord) :
  k ∈ load_kcat_dataframe taxonomy raw →
  (k_BiGG_ID k, k_ORGANISM k, k_log10_kcat k) ∈ kcat_groups (kcat_rows raw).
Proof.
  unfold load_kcat_dataframe, add_lineage_kcat.
  intros ([[id org] v] & -> & Hg)%list_elem_of_fmap. done.
Qed.

(** X17.  load_kcat_dataframe: no two records of the table it returns have
    the same reaction id and organism; every row of the file whose
    confidence is not below 0.8 and that has a reaction id is represented
    by a record with its cleaned reaction id and organism; and no organism
    name of the table contains a space or a square bracket. *)
Theorem load_kcat_dataframe_keys (raw : list KcatRaw) :
  NoDup (map (λ k, (k_BiGG_ID k, k_ORGANISM k))
             (load_kcat_dataframe taxonomy raw))
  ∧ (∀ r id, r ∈ raw → low_confidence r = false → raw_BiGG_ID r = Some id →
       ∃ k, k ∈ load_kcat_dataframe taxonomy raw
            ∧ k_BiGG_ID k = str_replace_r id
            ∧ k_ORGANISM k = organism_name (raw_ORGANISM r))
  ∧ (∀ k c, k ∈ load_kcat_dataframe taxonomy raw →
       c ∈ [" "; "["; "]"]%char →
       c ∉ String.list_ascii_of_string (k_ORGANISM k)).
Proof.
  assert (Hkeys : map (λ k, (k_BiGG_ID k, k_ORGANISM k))
                      (load_kcat_dataframe taxonomy raw)
                  = map (λ g, (g.1.1, g.1.2)) (kcat_groups (kcat_rows raw))).
  { unfold load_kcat_dataframe, add_lineage_kcat. by rewrite map_map. }
  split; [|split].
  - rewrite Hkeys, kcat_groups_keys, sort_by_Permutation.
    apply NoDup_remove_dups.
  - intros r id Hr Hc Hid.
    assert (Hin : (str_replace_r id, organism_name (raw_ORGANISM r))
                  ∈ map (λ k, (k_BiGG_ID k, k_ORGANISM k))
                        (load_kcat_dataframe taxonomy raw)).
    { rewrite Hkeys. apply kcat_groups_key_elem.
      exists (raw_log10_kcat r). apply kcat_rows_elem.
      exists r. by rewrite Hid. }
    apply list_elem_of_fmap in Hin as (k & [= Hk1 Hk2] & Hk).
    by exists k.
  - intros k c Hk Hc.
    apply load_kcat_dataframe_elem, kcat_groups_elem in Hk as [[v Hv] _].
    cbn in Hv. apply kcat_rows_elem in Hv as (r & _ & _ & [= _ -> _]).
    by apply organism_name_no_separator.
Qed.

(** X18.  load_kcat_dataframe: the kcat of a record is the kcat of a row of
    the file that has the record's reaction id and organism (after
    cleaning) and a confidence not below 0.8, and no such row has a
    greater kcat: rows of lower confidence never contribute, and a record
    has no kcat only when no such row has one. *)
Theorem load_kcat_dataframe_max (raw : list KcatRaw) (k : KcatRecord) :
  k ∈ load_kcat_dataframe taxonomy raw →
  (∃ r, r ∈ raw ∧ low_confidence r = false
        ∧ str_replace_r <$> raw_BiGG_ID r = Some (k_BiGG_ID k)
        ∧ organism_name (raw_ORGANISM r) = k_ORGANISM k
        ∧ raw_log10_kcat r = k_log10_kcat k)
  ∧ ∀ r' v', r' ∈ raw → low_confidence r' = false →
      str_replace_r <$> raw_BiGG_ID r' = Some (k_BiGG_ID k) →
      organism_name (raw_ORGANISM r') = k_ORGANISM k →
      raw_log10_kcat r' = Some v' →
      ∃ v, k_log10_kcat k = Some v ∧ (v' <= v)%Q.
Proof.
  intros Hk.
  apply load_kcat_dataframe_elem, kcat_groups_elem in Hk as [[v0 Hv0] Hmax].
  cbn in Hv0, Hmax.
  set (group := filter (λ r, r.1.1 = Some (k_BiGG_ID k) ∧ r.1.2 = k_ORGANISM k)
                       (kcat_rows raw)) in *.
  assert (Hgroup : ∀ o, o ∈ map snd group ↔
            ∃ r, r ∈ raw ∧ low_confidence r = false
                 ∧ str_replace_r <$> raw_BiGG_ID r = Some (k_BiGG_ID k)
                 ∧ organism_name (raw_ORGANISM r) = k_ORGANISM k
                 ∧ raw_log10_kcat r = o).
  { intros o. rewrite list_elem_of_fmap. split.
    - intros ([[id org] v] & -> & [[Hid Horg] Hrow]%list_elem_of_filter).
      cbn in Hid, Horg.
      apply kcat_rows_elem in Hrow as (r & Hr & Hc & [= -> -> ->]).
      by exists r.
    - intros (r & Hr & Hc & Hid & Horg & <-).
      exists (str_replace_r <$> raw_BiGG_ID r,
              organism_name (raw_ORGANISM r), raw_log10_kcat r).
      split; [done|]. apply list_elem_of_filter. split; [done|].
      apply kcat_rows_elem. by exists r. }
  split.
  - apply Hgroup. destruct (k_log10_kcat k) as [v|] eqn:Hv.
    + symmetry in Hmax. by apply nan_max_Some in Hmax as [? _].
    + apply kcat_rows_elem in Hv0 as (r & Hr & Hc & [= Hid Horg _]).
      assert (Hin : raw_log10_kcat r ∈ map snd group)
        by (apply Hgroup; by exists r).
      symmetry in Hmax.
      by rewrite <- (nan_max_None _ Hmax _ Hin).
  - intros r' v' Hr' Hc' Hid' Horg' Hv'.
    assert (Hin : Some v' ∈ map snd group)
      by (apply Hgroup; by exists r').
    destruct (k_log10_kcat k) as [v|] eqn:Hv.
    + exists v. split; [done|].
      symmetry in Hmax. apply nan_max_Some in Hmax as [_ Hge]. by apply Hge.
    + symmetry in Hmax. by pose proof (nan_max_None _ Hmax _ Hin).
Qed.
End LoadKcatFacts.

Lemma load_kcat_dataframe_max_witness :
  (∃ r, r ∈ example_kcat_raw ∧ low_confidence r = false
        ∧ str_replace_r <$> raw_BiGG_ID r = Some "PGI"
        ∧ organism_name (raw_ORGANISM r) = "Escherichia"
        ∧ raw_log10_kcat r = Some 3%Q)
  ∧ ∀ r' v', r' ∈ example_kcat_raw → low_confidence r' = false →
      str_replace_r <$> raw_BiGG_ID r' = Some "PGI" →
      organism_name (raw_ORGANISM r') = "Escherichia" →
      raw_log10_kcat r' = Some v' →
      ∃ v, Some 3%Q = Some v ∧ (v' <= v)%Q.
Proof.
  apply (load_kcat_dataframe_max taxonomy_example example_kcat_raw
           (mkKcat "PGI" "Escherichia" (Some 3%Q)
              (lineage_of taxonomy_example "Escherichia"))).
  replace (load_kcat_dataframe taxonomy_example example_kcat_raw)
    with [ mkKcat "FBA" "Clostridium" None
             (lineage_of taxonomy_example "Clostridium");
           mkKcat "PGI" "Escherichia" (Some 3%Q)
             (lineage_of taxonomy_example "Escherichia") ]
    by (vm_compute; reflexivity).
  right. by left.
Defined.

(** ** More on the mapping of kcat values *)

Lemma cells_kept_complete (r r' : MapRow) :
  cells_kept r r' →
  is_Some (m_flux r) → is_Some (m_from_fva r) → is_Some (m_log10_flux r) →
  r' = r.
Proof.
  intros (H1 & H2 & H3 & H4 & H5 & H6 & H7) [v Hv] [b Hb] [l Hl].
  destruct r, r'; cbn in *. subst.
  by rewrite (H5 _ eq_refl), (H6 _ eq_refl), (H7 _ eq_refl).
Qed.

Lemma nan_mean_is_Some (xs : list (option Q)) (v : Q) :
  Some v ∈ xs → is_Some (nan_mean xs).
Proof.
  intros Hin. unfold nan_mean.
  assert (Hne : omap id xs ≠ []).
  { induction xs as [|[x|] xs IH]; cbn.
    - by apply elem_of_nil in Hin.
    - done.
    - apply IH. by apply elem_of_cons in Hin as [?|?]. }
  destruct (omap id xs); [done | by eexists].
Qed.

(** The rows of the exact mapping for a kcat record. *)
Lemma left_merge_matched (kcat_df : list KcatRecord) (flux_df : list FluxLine)
    (k : KcatRecord) (f : FluxLine) :
  k ∈ kcat_df → f ∈ flux_df →
  BiGG_ID (fl_record f) = k_BiGG_ID k →
  ORGANISM (fl_record f) = k_ORGANISM k →
  mkMapRow (k_BiGG_ID k) (k_ORGANISM k) (k_log10_kcat k) (k_lineage k)
    (flux (fl_record f)) (from_fva (fl_record f)) (fl_log10_flux f)
    ∈ left_merge kcat_df flux_df.
Proof.
  intros Hk Hf Hid Horg. unfold left_merge.
  apply list_elem_of_In, in_flat_map. exists k.
  split; [by apply list_elem_of_In|].
  assert (Hin : f ∈ filter (λ f, BiGG_ID (fl_record f) = k_BiGG_ID k
                               ∧ ORGANISM (fl_record f) = k_ORGANISM k) flux_df)
    by by apply list_elem_of_filter.
  destruct (filter _ flux_df) as [|f0 fs] eqn:Ef;
    [by apply elem_of_nil in Hin|].
  apply list_elem_of_In, list_elem_of_fmap. by exists f.
Qed.

Lemma left_merge_row (kcat_df : list KcatRecord) (flux_df : list FluxLine)
    (k : KcatRecord) :
  k ∈ kcat_df →
  ∃ r, r ∈ left_merge kcat_df flux_df
       ∧ m_BiGG_ID r = k_BiGG_ID k ∧ m_ORGANISM r = k_ORGANISM k
       ∧ m_log10_kcat r = k_log10_kcat k.
Proof.
  intros Hk. unfold left_merge.
  destruct (filter (λ f, BiGG_ID (fl_record f) = k_BiGG_ID k
                         ∧ ORGANISM (fl_record f) = k_ORGANISM k) flux_df)
    as [|f0 fs] eqn:Ef.
  - eexists. split.
    + apply list_elem_of_In, in_flat_map. exists k.
      split; [by apply list_elem_of_In|]. rewrite Ef. by left.
    + done.
  - eexists. split.
    + apply list_elem_of_In, in_flat_map. exists k.
      split; [by apply list_elem_of_In|]. rewrite Ef. by left.
    + done.
Qed.

Lemma left_merge_origin (kcat_df : list KcatRecord) (flux_df : list FluxLine)
    (r : MapRow) :
  r ∈ left_merge kcat_df flux_df →
  (∃ k, k ∈ kcat_df ∧ m_BiGG_ID r = k_BiGG_ID k
        ∧ m_ORGANISM r = k_ORGANISM k ∧ m_log10_kcat r = k_log10_kcat k
        ∧ m_lineage r = k_lineage k)
  ∧ (is_Some (m_flux r) →
     ∃ f, f ∈ flux_df ∧ BiGG_ID (fl_record f) = m_BiGG_ID r).
Proof.
  unfold left_merge. intros Hr%list_elem_of_In.
  apply in_flat_map in Hr as (k & Hk%list_elem_of_In & Hr).
  destruct (filter _ flux_df) as [|f0 fs] eqn:Ef.
  - destruct Hr as [<-|[]]. split; [by exists k|]. cbn. by intros [? ?].
  - apply list_elem_of_In, list_elem_of_fmap in Hr as [f [-> Hf]].
    split; [by exists k|]. intros _. exists f.
    rewrite <- Ef in Hf. apply list_elem_of_filter in Hf as [[Hid _] Hf].
    done.
Qed.

(** The group a flux row belongs to is found, and has means. *)
Lemma group_found (key : FluxLine → string) (flux_df : list FluxLine)
    (f : FluxLine) (b : bool) :
  f ∈ flux_df → from_fva (fl_record f) = Some b →
  is_Some (flux (fl_record f)) → is_Some (fl_log10_flux f) →
  ∃ g, List.find (λ g, bool_decide (g_BiGG_ID g = BiGG_ID (fl_record f)
                                    ∧ g_lineage g = key f
                                    ∧ g_from_fva g = b))
                 (groupby_mean key flux_df) = Some g
       ∧ is_Some (g_flux g) ∧ is_Some (g_log10_flux g).
Proof.
  intros Hf Hb [v Hv] [l Hl].
  assert (Hkey : group_key key f = Some (BiGG_ID (fl_record f), key f, b))
    by (unfold group_key; by rewrite Hb).
  destruct (List.find _ (groupby_mean key flux_df)) as [g|] eqn:Eg.
  - exists g. split; [done|].
    apply find_some in Eg as [Hg Hp]. apply bool_decide_eq_true in Hp.
    destruct Hp as (H1 & H2 & H3).
    unfold groupby_mean in Hg.
    apply list_elem_of_In, list_elem_of_fmap in Hg as [[[id lin] b'] [-> _]].
    cbn in H1, H2, H3. subst id lin b'. cbn.
    assert (Hmem : f ∈ filter (λ f0, group_key key f0
                     = Some (BiGG_ID (fl_record f), key f, b)) flux_df)
      by by apply list_elem_of_filter.
    split.
    + apply nan_mean_is_Some with v. apply list_elem_of_fmap.
      exists f. by rewrite <- Hv.
    + apply nan_mean_is_Some with l. apply list_elem_of_fmap.
      exists f. by rewrite <- Hl.
  - exfalso.
    pose proof (find_none _ _ Eg
      (mkGroup (BiGG_ID (fl_record f)) (key f) b
         (nan_mean (map (flux ∘ fl_record)
            (filter (λ f0, group_key key f0
               = Some (BiGG_ID (fl_record f), key f, b)) flux_df)))
         (nan_mean (map fl_log10_flux
            (filter (λ f0, group_key key f0
               = Some (BiGG_ID (fl_record f), key f, b)) flux_df))))) as Hn.
    cbn in Hn. rewrite bool_decide_eq_false in Hn. apply Hn; [|done].
    apply list_elem_of_In. unfold groupby_mean.
    apply list_elem_of_fmap. exists (BiGG_ID (fl_record f), key f, b).
    split; [done|]. apply elem_of_remove_dups.
    apply list_elem_of_omap. by exists f.
Qed.

(** A group comes from a flux row of its reaction. *)
Lemma group_origin (key : FluxLine → string) (flux_df : list FluxLine)
    (g : GroupRow) :
  g ∈ groupby_mean key flux_df →
  ∃ f, f ∈ flux_df ∧ BiGG_ID (fl_record f) = g_BiGG_ID g.
Proof.
  unfold groupby_mean. intros [[[id lin] b] [-> Hk]]%list_elem_of_fmap.
  apply elem_of_remove_dups, list_elem_of_omap in Hk as (f & Hf & Hkey).
  exists f. split; [done|]. unfold group_key in Hkey.
  destruct (from_fva (fl_record f)); cbn in Hkey; by inversion Hkey.
Qed.

Lemma fill_row_cases (key : MapRow → string) (groups : list GroupRow)
    (b : bool) (r : MapRow) :
  fill_row key groups b r = r
  ∨ ∃ g, g ∈ groups ∧ g_BiGG_ID g = m_BiGG_ID r
         ∧ List.find (λ g, bool_decide (g_BiGG_ID g = m_BiGG_ID r
                                        ∧ g_lineage g = key r
                                        ∧ g_from_fva g = b)) groups = Some g
         ∧ fill_row key groups b r
           = mkMapRow (m_BiGG_ID r) (m_ORGANISM r) (m_log10_kcat r)
               (m_lineage r)
               (fill_cell (m_flux r) (g_flux g))
               (fill_cell (m_from_fva r) (Some (g_from_fva g)))
               (fill_cell (m_log10_flux r) (g_log10_flux g)).
Proof.
  unfold fill_row. destruct (List.find _ groups) as [g|] eqn:Eg; [|by left].
  right. exists g. pose proof (find_some _ _ Eg) as [Hg Hp].
  apply bool_decide_eq_true in Hp as (H1 & _).
  split; [by apply list_elem_of_In|]. done.
Qed.

(** A row that carries a flux carries the flux of its reaction. *)
Lemma fill_row_origin (key : FluxLine → string) (rkey : MapRow → string)
    (flux_df : list FluxLine) (b : bool) (r : MapRow) :
  (is_Some (m_flux r) →
   ∃ f, f ∈ flux_df ∧ BiGG_ID (fl_record f) = m_BiGG_ID r) →
  is_Some (m_flux (fill_row rkey (groupby_mean key flux_df) b r)) →
  ∃ f, f ∈ flux_df
       ∧ BiGG_ID (fl_record f)
         = m_BiGG_ID (fill_row rkey (groupby_mean key flux_df) b r).
Proof.
  intros Hr Hs.
  destruct (fill_row_cases rkey (groupby_mean key flux_df) b r)
    as [Heq|(g & Hg & Hid & _ & Hfill)].
  { rewrite Heq in *. by apply Hr. }
  rewrite Hfill. cbn. apply group_origin in Hg as (f & Hf & Hfid).
  exists f. split; [done | congruence].
Qed.

Lemma fill_row_fills (key : MapRow → string) (groups : list GroupRow)
    (b : bool) (r : MapRow) (g : GroupRow) :
  List.find (λ g, bool_decide (g_BiGG_ID g = m_BiGG_ID r
                               ∧ g_lineage g = key r
                               ∧ g_from_fva g = b)) groups = Some g →
  is_Some (g_flux g) → is_Some (g_log10_flux g) →
  is_Some (m_flux (fill_row key groups b r))
  ∧ is_Some (m_from_fva (fill_row key groups b r))
  ∧ is_Some (m_log10_flux (fill_row key groups b r)).
Proof.
  intros Hfind [v Hv] [l Hl]. unfold fill_row. rewrite Hfind. cbn.
  rewrite Hv, Hl.
  repeat split; unfold fill_cell;
    [destruct (m_flux r) | destruct (m_from_fva r) | destruct (m_log10_flux r)];
    by eexists.
Qed.

Lemma cells_kept_is_Some (r r' : MapRow) :
  cells_kept r r' →
  (is_Some (m_flux r) → is_Some (m_flux r'))
  ∧ (is_Some (m_from_fva r) → is_Some (m_from_fva r'))
  ∧ (is_Some (m_log10_flux r) → is_Some (m_log10_flux r')).
Proof.
  intros (_ & _ & _ & _ & H5 & H6 & H7).
  repeat split; intros [x Hx]; eexists; eauto.
Qed.

(** After the inexact mapping a row whose reaction has a flux has its
    flux cells. *)
Lemma fill_inexact_row_fills (flux_df : list FluxLine) (f : FluxLine)
    (b : bool) (r : MapRow) :
  f ∈ flux_df → from_fva (fl_record f) = Some b →
  is_Some (flux (fl_record f)) → is_Some (fl_log10_flux f) →
  BiGG_ID (fl_record f) = m_BiGG_ID r →
  is_Some (m_flux (fill_inexact_row flux_df r))
  ∧ is_Some (m_from_fva (fill_inexact_row flux_df r))
  ∧ is_Some (m_log10_flux (fill_inexact_row flux_df r)).
Proof.
  intros Hf Hb Hv Hl Hid. unfold fill_inexact_row.
  destruct (group_found (λ _, EmptyString) flux_df f b Hf Hb Hv Hl)
    as (g & Hg & Hgv & Hgl).
  cbn beta in Hg. rewrite Hid in Hg.
  set (groups := groupby_mean (λ _, EmptyString) flux_df) in *.
  set (r2 := fill_row (λ _, EmptyString) groups false r).
  pose proof (fill_row_kept (λ _, EmptyString) groups false r) as Hk2.
  fold r2 in Hk2.
  destruct b.
  - apply (fill_row_fills (λ _, EmptyString) groups true r2 g); [|done..].
    destruct Hk2 as (-> & _). exact Hg.
  - pose proof (fill_row_fills (λ _, EmptyString) groups false r g Hg Hgv Hgl)
      as (H1 & H2 & H3). fold r2 in H1, H2, H3.
    pose proof (cells_kept_is_Some _ _
      (fill_row_kept (λ _, EmptyString) groups true r2)) as (K1 & K2 & K3).
    auto.
Qed.

Lemma fill_levels_row_origin (flux_df : list FluxLine) (levels : list nat)
    (r : MapRow) :
  (is_Some (m_flux r) →
   ∃ f, f ∈ flux_df ∧ BiGG_ID (fl_record f) = m_BiGG_ID r) →
  is_Some (m_flux (fill_levels_row flux_df levels r)) →
  ∃ f, f ∈ flux_df
       ∧ BiGG_ID (fl_record f) = m_BiGG_ID (fill_levels_row flux_df levels r).
Proof.
  unfold fill_levels_row. revert r.
  induction levels as [|i levels IH]; intros r Hr; cbn [fold_left]; [done|].
  apply IH. unfold fill_level_row.
  apply fill_row_origin. by apply fill_row_origin.
Qed.

Lemma fill_inexact_row_origin (flux_df : list FluxLine) (r : MapRow) :
  (is_Some (m_flux r) →
   ∃ f, f ∈ flux_df ∧ BiGG_ID (fl_record f) = m_BiGG_ID r) →
  is_Some (m_flux (fill_inexact_row flux_df r)) →
  ∃ f, f ∈ flux_df
       ∧ BiGG_ID (fl_record f) = m_BiGG_ID (fill_inexact_row flux_df r).
Proof.
  intros Hr. unfold fill_inexact_row.
  apply fill_row_origin. by apply fill_row_origin.
Qed.

Section MappingMore.
Variable log10 : Q → Q.
Variable taxonomy : string → option (list string).

Lemma flux_lines_elem (flux_df : list FluxRecord) (f : FluxRecord) :
  f ∈ flux_df →
  mkFluxLine f (log10 ∘ Qabs <$> flux f) (lineage_of taxonomy (ORGANISM f))
    ∈ flux_lines log10 taxonomy flux_df.
Proof. intros Hf. unfold flux_lines. apply list_elem_of_fmap. by exists f. Qed.

Lemma map_kcat_rows_elem (kcat_df : list KcatRecord)
    (flux_df : list FluxRecord) (r : MapRow) :
  r ∈ map_kcat_to_fluxes log10 taxonomy kcat_df flux_df ↔
  ∃ r0, r0 ∈ left_merge kcat_df (flux_lines log10 taxonomy flux_df)
        ∧ r = fill_inexact_row (flux_lines log10 taxonomy flux_df)
                (fill_levels_row (flux_lines log10 taxonomy flux_df)
                   lineage_levels r0)
        ∧ is_Some (m_log10_kcat r) ∧ is_Some (m_flux r)
        ∧ is_Some (m_from_fva r) ∧ is_Some (m_log10_flux r).
Proof.
  unfold map_kcat_to_fluxes.
  rewrite (map_kcat_with_levels_rows log10 taxonomy lineage_levels kcat_df
             flux_df).
  unfold dropna_map. rewrite list_elem_of_filter, list_elem_of_fmap.
  split.
  - intros [Hc (r0 & -> & Hr0)]. by exists r0.
  - intros (r0 & Hr0 & -> & Hc). split; [done | by exists r0].
Qed.

(** X19.  A kcat record with a turnover value and a flux of its own
    reaction in its own organism comes out with exactly that flux, its
    origin tag and its logarithm: neither a lineage average nor the
    inexact average replaces an exact match. *)
Theorem map_kcat_exact_match (kcat_df : list KcatRecord)
    (flux_df : list FluxRecord) (k : KcatRecord) (f : FluxRecord)
    (v : Q) (b : bool) :
  k ∈ kcat_df → f ∈ flux_df →
  BiGG_ID f = k_BiGG_ID k → ORGANISM f = k_ORGANISM k →
  flux f = Some v → from_fva f = Some b → is_Some (k_log10_kcat k) →
  mkMapRow (k_BiGG_ID k) (k_ORGANISM k) (k_log10_kcat k) (k_lineage k)
    (Some v) (Some b) (Some (log10 (Qabs v)))
    ∈ map_kcat_to_fluxes log10 taxonomy kcat_df flux_df.
Proof.
  intros Hk Hf Hid Horg Hv Hb Hkcat.
  set (lines := flux_lines log10 taxonomy flux_df).
  pose proof (left_merge_matched kcat_df lines k _ Hk
                (flux_lines_elem flux_df f Hf) Hid Horg) as Hr0.
  cbn in Hr0. rewrite Hv, Hb in Hr0. cbn in Hr0.
  apply map_kcat_rows_elem. eexists. split; [exact Hr0|]. fold lines.
  set (r0 := mkMapRow _ _ _ _ _ _ _) in *.
  assert (Heq : fill_inexact_row lines (fill_levels_row lines lineage_levels r0)
                = r0).
  { apply cells_kept_complete; [|by eexists..].
    eapply cells_kept_trans;
      [apply fill_levels_row_kept | apply fill_inexact_row_kept]. }
  rewrite Heq. repeat split; try done; by eexists.
Qed.

(** X20.  A kcat record with a turnover value is not lost as long as the
    flux frame has a row with a flux and an origin tag for its reaction,
    in whatever organism: the inexact mapping fills what the exact and
    the lineage mapping left missing. *)
Theorem map_kcat_inexact_covers (kcat_df : list KcatRecord)
    (flux_df : list FluxRecord) (k : KcatRecord) (f : FluxRecord) :
  k ∈ kcat_df → is_Some (k_log10_kcat k) →
  f ∈ flux_df → BiGG_ID f = k_BiGG_ID k →
  is_Some (flux f) → is_Some (from_fva f) →
  ∃ r, r ∈ map_kcat_to_fluxes log10 taxonomy kcat_df flux_df
       ∧ m_BiGG_ID r = k_BiGG_ID k
       ∧ m_ORGANISM r = k_ORGANISM k
       ∧ m_log10_kcat r = k_log10_kcat k.
Proof.
  intros Hk Hkcat Hf Hid [v Hv] [b Hb].
  set (lines := flux_lines log10 taxonomy flux_df).
  destruct (left_merge_row kcat_df lines k Hk) as (r0 & Hr0 & H1 & H2 & H3).
  set (r1 := fill_levels_row lines lineage_levels r0).
  pose proof (fill_levels_row_kept lines lineage_levels r0)
    as (K1 & K2 & K3 & _). fold r1 in K1, K2, K3.
  pose proof (fill_inexact_row_kept lines r1) as (J1 & J2 & J3 & _).
  destruct (fill_inexact_row_fills lines _ b r1
              (flux_lines_elem flux_df f Hf)) as (F1 & F2 & F3).
  { done. }
  { cbn. by eexists. }
  { cbn. rewrite Hv. by eexists. }
  { change (BiGG_ID f = m_BiGG_ID r1). congruence. }
  exists (fill_inexact_row lines r1). split.
  - apply map_kcat_rows_elem. exists r0. fold lines. fold r1.
    split; [done|]. split; [done|]. split; [|done].
    rewrite J3, K3, H3. done.
  - split; [congruence|]. split; congruence.
Qed.

(** X21.  Every row [map_kcat_to_fluxes] returns has a turnover value, a
    flux, an origin tag and a logarithm of the flux; its kcat columns are
    those of a kcat record, and its reaction has a flux in the flux
    frame: no row is made up for a reaction without a predicted flux. *)
Theorem map_kcat_rows_grounded (kcat_df : list KcatRecord)
    (flux_df : list FluxRecord) (r : MapRow) :
  r ∈ map_kcat_to_fluxes log10 taxonomy kcat_df flux_df →
  (is_Some (m_log10_kcat r) ∧ is_Some (m_flux r)
   ∧ is_Some (m_from_fva r) ∧ is_Some (m_log10_flux r))
  ∧ (∃ k, k ∈ kcat_df ∧ m_BiGG_ID r = k_BiGG_ID k
          ∧ m_ORGANISM r = k_ORGANISM k
          ∧ m_log10_kcat r = k_log10_kcat k
          ∧ m_lineage r = k_lineage k)
  ∧ (∃ f, f ∈ flux_df ∧ BiGG_ID f = m_BiGG_ID r).
Proof.
  intros (r0 & Hr0 & Hr & Hc)%map_kcat_rows_elem.
  split; [done|].
  set (lines := flux_lines log10 taxonomy flux_df) in *.
  apply left_merge_origin in Hr0 as [(k & Hk & H1 & H2 & H3 & H4) Horigin].
  pose proof (cells_kept_trans _ _ _
    (fill_levels_row_kept lines lineage_levels r0)
    (fill_inexact_row_kept lines (fill_levels_row lines lineage_levels r0)))
    as (K1 & K2 & K3 & K4 & _).
  rewrite <- Hr in K1, K2, K3, K4.
  split.
  - exists k. split; [done|]. repeat split; congruence.
  - destruct Hc as (_ & Hflux & _).
    rewrite Hr in Hflux.
    apply fill_inexact_row_origin in Hflux as (fl & Hfl & Hid).
    + unfold lines, flux_lines in Hfl.
      apply list_elem_of_fmap in Hfl as [f [-> Hf]].
      exists f. split; [done|]. cbn in Hid. by rewrite Hr.
    + by apply fill_levels_row_origin.
Qed.
End MappingMore.

Lemma map_kcat_exact_match_witness :
  mkMapRow "PGI" "Escherichia" (Some 2%Q)
    (lineage_of taxonomy_example "Escherichia")
    (Some (1 # 2)%Q) (Some false) (Some (log10_example (Qabs (1 # 2))))
    ∈ map_kcat_to_fluxes log10_example taxonomy_example example_kcat_df
        example_flux_df.
Proof.
  apply (map_kcat_exact_match log10_example taxonomy_example example_kcat_df
           example_flux_df
           (mkKcat "PGI" "Escherichia" (Some 2%Q)
              (lineage_of taxonomy_example "Escherichia"))
           (mkFluxRecord (Some (1 # 2)%Q) (Some false) "Escherichia" "PGI")).
  - by left.
  - by left.
  - reflexivity.
  - reflexivity.
  - reflexivity.
  - reflexivity.
  - by eexists.
Defined.

Lemma map_kcat_inexact_covers_witness :
  ∃ r, r ∈ map_kcat_to_fluxes log10_example taxonomy_example example_kcat_df
             distant_flux_df
       ∧ m_BiGG_ID r = "PGI"
       ∧ m_ORGANISM r = "Escherichia"
       ∧ m_log10_kcat r = Some 2%Q.
Proof.
  apply (map_kcat_inexact_covers log10_example taxonomy_example example_kcat_df
           distant_flux_df
           (mkKcat "PGI" "Escherichia" (Some 2%Q)
              (lineage_of taxonomy_example "Escherichia"))
           (mkFluxRecord (Some 1%Q) (Some false) "Saccharomyces" "PGI")).
  - by left.
  - by eexists.
  - by left.
  - reflexivity.
  - by eexists.
  - by eexists.
Defined.

Lemma map_kcat_rows_grounded_witness :
  ∃ r, r ∈ map_kcat_to_fluxes log10_example taxonomy_example example_kcat_df
             distant_flux_df
       ∧ (is_Some (m_log10_kcat r) ∧ is_Some (m_flux r)
          ∧ is_Some (m_from_fva r) ∧ is_Some (m_log10_flux r))
       ∧ (∃ k, k ∈ example_kcat_df ∧ m_BiGG_ID r = k_BiGG_ID k
               ∧ m_ORGANISM r = k_ORGANISM k
               ∧ m_log10_kcat r = k_log10_kcat k
               ∧ m_lineage r = k_lineage k)
       ∧ (∃ f, f ∈ distant_flux_df ∧ BiGG_ID f = m_BiGG_ID r).
Proof.
  assert (∃ r rows,
            map_kcat_to_fluxes log10_example taxonomy_example example_kcat_df
              distant_flux_df = r :: rows)
    as (r & rows & E) by (vm_compute; by do 2 eexists).
  assert (Hr : r ∈ map_kcat_to_fluxes log10_example taxonomy_example
                     example_kcat_df distant_flux_df)
    by (rewrite E; by left).
  exists r. split; [exact Hr|].
  exact (map_kcat_rows_grounded log10_example taxonomy_example example_kcat_df
           distant_flux_df r Hr).
Defined.

